(** * TerraTwin bamboo growth engine: model and verification

    The procedural growth and layout engine appears twice in the repository:
    the schematic renderer ([BambooSimulation] / [BambooClump], three.js) and
    the geo-referenced renderer ([addBambooPlants], Cesium), together with the
    income figures of [FloatingDataCards].

    JavaScript numbers are modelled as real numbers: [+ - * /] are the exact
    field operations, [Math.exp], [Math.sin], [Math.cos] and [Math.sqrt] are
    the real functions, and [Math.floor] is the integer floor.  Rounding
    error, infinities and NaN of IEEE doubles are outside the model.
    [Math.random] reads an explicit stream of draws that is threaded through
    every function that calls it.

    Beside the two engines the file covers the lidar overlay of the terrain
    view and the component and page that drive the schematic engine
    ([BambooSimulationComponent], [FarmerPlotView]): their callback props are
    functions on the state they share, and a call that nests without bound
    has no result.  Values of [seededRandom] at given seeds are enclosed by
    rational arithmetic. *)

From Stdlib Require Import Reals Lra Lia ZArith List Bool Permutation Sorted.
From Stdlib Require Import QArith Qreals.
From Equations Require Import Equations.
Import ListNotations.

Open Scope R_scope.

(** ** JavaScript numeric primitives *)

Module JS.

Definition ltb (x y : R) : bool := if Rlt_dec x y then true else false.
Definition leb (x y : R) : bool := if Rle_dec x y then true else false.
Definition gtb (x y : R) : bool := ltb y x.
Definition geb (x y : R) : bool := leb y x.

Definition Math_max (x y : R) : R := Rmax x y.
Definition Math_min (x y : R) : R := Rmin x y.
Definition Math_abs (x : R) : R := Rabs x.
Definition Math_floor (x : R) : Z := Zfloor x.
Definition Math_ceil (x : R) : Z := Zceil x.

(** [Math.round] rounds halves towards plus infinity. *)
Definition Math_round (x : R) : Z := Zfloor (x + 1 / 2).

Definition Math_exp (x : R) : R := exp x.
Definition Math_sqrt (x : R) : R := sqrt x.
Definition Math_sin (x : R) : R := sin x.
Definition Math_cos (x : R) : R := cos x.
Definition Math_PI : R := PI.

(** [parseFloat(x.toFixed(1))]: the nearest multiple of one tenth, halves
    away from zero ([toFixed] handles the sign first and then picks the
    larger candidate). *)
Definition toFixed1 (x : R) : R :=
  if Rlt_dec x 0
  then - (IZR (Zfloor (- x * 10 + 1 / 2)) / 10)
  else IZR (Zfloor (x * 10 + 1 / 2)) / 10.

End JS.

(** ** The system random source

    [Math.random()] returns the head of the stream and leaves its tail. *)

Module Rng.

Definition t : Type := nat -> R.

Definition M (A : Type) : Type := t -> A * t.

Definition ret {A} (a : A) : M A := fun g => (a, g).

Definition bind {A B} (m : M A) (k : A -> M B) : M B :=
  fun g => let (a, g') := m g in k a g'.

Definition Math_random : M R := fun g => (g 0%nat, fun n => g (S n)).

(** The contract of [Math.random]: every draw lies in [[0, 1)]. *)
Definition valid (g : t) : Prop := forall n, 0 <= g n < 1.

(** A computation keeps the stream within that contract. *)
Definition preserves {A} (m : M A) : Prop :=
  forall g, valid g -> valid (snd (m g)).

Definition const (u : R) : t := fun _ => u.

(** A stream that starts with the listed draws and continues with [u]. *)
Fixpoint prefixed (l : list R) (u : R) : t :=
  match l with
  | [] => const u
  | x :: l' => fun n => match n with O => x | S n' => prefixed l' u n' end
  end.

End Rng.

Declare Scope rng_scope.
Delimit Scope rng_scope with rng.
Notation "x <- m ;; k" := (Rng.bind m (fun x => k))
  (at level 61, m at next level, right associativity) : rng_scope.
Notation "m ;;; k" := (Rng.bind m (fun _ => k))
  (at level 61, right associativity) : rng_scope.

(** ** Growth curve model *)

Module Growth.

(** The logistic law shared by both renderers,
    [lo + (hi - lo) / (1 + Math.exp(-k * (progress - midpoint)))]. *)
Definition logistic (lo hi k midpoint progress : R) : R :=
  lo + (hi - lo) / (1 + JS.Math_exp (- k * (progress - midpoint))).

(** [Math.max(0, Math.min(1, p))]. *)
Definition clamp01 (p : R) : R := JS.Math_max 0 (JS.Math_min 1 p).

End Growth.

(** ** Schematic renderer: [BambooClump] *)

Module Schematic.
Import JS Rng.
Local Open Scope rng_scope.

(** The part of a pole's [THREE.Mesh] the engine reads back: its position
    in the clump, its vertical scale and the two radii of its
    [CylinderGeometry]. *)
Record Mesh : Type := {
  position_x : R;
  position_z : R;
  scale_y : R;
  radiusTop : R;
  radiusBottom : R }.

(** [interface BambooPole].  [thickness] is the local of [addNewPoles] from
    which the geometry was built; the source keeps it only through the two
    radii, the model keeps it so that statements can name it. *)
Record BambooPole : Type := {
  mesh : Mesh;
  thickness : R;
  targetHeight : R;
  currentHeight : R;
  ageInYears : R;
  isHarvested : bool;
  growthFactor : R }.

(** The mutable fields of [class BambooClump]. *)
Record BambooClump : Type := {
  poles : list BambooPole;
  currentPoles : Z;
  harvestedPoles : Z;
  clumpTargetHeight : R;
  growthProgress : R }.

(** [private maxPoles: number = 100], never assigned again. *)
Definition maxPoles : R := 100.

Definition calculateHeight (progress : R) : R :=
  let maxHeight := 2.55 in
  let minHeight := 0.5 in
  let growthRate := 15 in
  let midpoint := 0.3 in
  minHeight + (maxHeight - minHeight) /
    (1 + Math_exp (- growthRate * (progress - midpoint))).

Definition calculatePoleCount (progress : R) : Z :=
  let minPoles := 5 in
  let growthRate := 15 in
  let midpoint := 0.3 in
  Math_floor (minPoles + (maxPoles - minPoles) /
    (1 + Math_exp (- growthRate * (progress - midpoint)))).

Definition calculateCarbon (height poleCount : R) : R :=
  toFixed1 ((height / 27) * (poleCount / 90) * 87.5).

(** *** [addNewPoles] *)

(** An entry of [existingPositions]. *)
Record Footprint : Type := { fp_x : R; fp_z : R; fp_radius : R }.

(** The locals [x], [z], [thickness] of one placement attempt. *)
Record Candidate : Type := { cx : R; cz : R; cthickness : R }.

Definition live (pole : BambooPole) : bool := negb (isHarvested pole).

(** [existingPositions] as first filled from the poles that are not
    harvested. *)
Definition existingOf (ps : list BambooPole) : list Footprint :=
  map (fun pole =>
         {| fp_x := position_x (mesh pole);
            fp_z := position_z (mesh pole);
            fp_radius := radiusBottom (mesh pole) * 1.2 |})
      (filter live ps).

(** The body of the [while] loop up to the overlap test: four draws. *)
Definition drawCandidate : M Candidate :=
  u <- Math_random ;;
  v <- Math_random ;;
  let radius := if ltb u 0.3 then v * 0.6 else 0.8 + v * 1.0 in
  w <- Math_random ;;
  let angle := w * Math_PI * 2 in
  let x := Math_cos angle * radius in
  let z := Math_sin angle * radius in
  s <- Math_random ;;
  let thickness := if ltb radius 0.6 then 0.06 + s * 0.04
                   else 0.12 + s * 0.06 in
  ret {| cx := x; cz := z; cthickness := thickness |}.

Definition overlaps (c : Candidate) (pos : Footprint) : bool :=
  let dx := cx c - fp_x pos in
  let dz := cz c - fp_z pos in
  let distance := Math_sqrt (dx * dx + dz * dz) in
  ltb distance (cthickness c + fp_radius pos).

(** The [for (const pos of existingPositions)] scan with its [break]. *)
Definition validAgainst (c : Candidate) (existing : list Footprint) : bool :=
  negb (existsb (overlaps c) existing).

Definition maxAttempts : nat := 100.

Definition noCandidate : Candidate := {| cx := 0; cz := 0; cthickness := 0 |}.

#[local] Opaque maxAttempts.

(** The locals the [while] loop leaves behind. *)
Record Tried : Type := {
  validPosition : bool;
  candidate : Candidate;
  attemptsCounter : nat }.

(** [while (!validPosition && attemptsCounter < maxAttempts)], entered with
    [validPosition = false], the candidate [last] and the counter
    [attempts0]. *)
Equations whileLoop (existing : list Footprint) (last : Candidate)
          (attempts0 : nat) (g : Rng.t) : Tried * Rng.t
  by wf (maxAttempts - attempts0)%nat lt :=
whileLoop existing last attempts0 g
  with lt_dec attempts0 maxAttempts := {
  | left _ =>
      if validAgainst (fst (drawCandidate g)) existing
      then ({| validPosition := true;
               candidate := fst (drawCandidate g);
               attemptsCounter := S attempts0 |},
            snd (drawCandidate g))
      else whileLoop existing (fst (drawCandidate g)) (S attempts0)
             (snd (drawCandidate g))
  | right _ => ({| validPosition := false;
                   candidate := last;
                   attemptsCounter := attempts0 |}, g) }.
Next Obligation. lia. Qed.

#[local] Transparent maxAttempts.

(** What follows an accepted position: eleven more draws, of which the
    colour, roughness, metalness and tilt only feed the renderer. *)
Definition createPole (c : Candidate) : M BambooPole :=
  let thickness := cthickness c in
  hv <- Math_random ;;
  let height := 30 + hv * 25 in
  tt <- Math_random ;;
  let topThinning := 0.7 + tt * 0.4 in
  rb <- Math_random ;;
  Math_random ;;; Math_random ;;; Math_random ;;;
  Math_random ;;; Math_random ;;;
  Math_random ;;; Math_random ;;;
  gf <- Math_random ;;
  let growthRateFactor := 1.2 + gf * 0.4 in
  ret {| mesh := {| position_x := cx c;
                    position_z := cz c;
                    scale_y := 0.01;
                    radiusTop := thickness * topThinning;
                    radiusBottom := thickness * (1.1 + rb * 0.2) |};
         thickness := thickness;
         targetHeight := height;
         currentHeight := 0.5;
         ageInYears := 0;
         isHarvested := false;
         growthFactor := growthRateFactor |}.

(** The entry pushed for an accepted candidate,
    [{x: x, z: z, radius: thickness * 1.2}]. *)
Definition footprintOf (c : Candidate) : Footprint :=
  {| fp_x := cx c; fp_z := cz c; fp_radius := cthickness c * 1.2 |}.

(** The pole built from the first candidate of a constant stream of
    draws [u]. *)
Definition onlyPole (u : R) : BambooPole :=
  fst (createPole (fst (drawCandidate (const u))) (const u)).

(** The state the [for] loop carries from one stalk to the next. *)
Record Placing : Type := {
  attempts : nat;
  existingPositions : list Footprint;
  placed : list BambooPole }.

(** The body of [for (let i = 0; i < count; i++)]: the retry loop, then
    either [continue] or the creation of the pole.  [attemptsCounter] is
    declared before the [for] loop, so it is carried from stalk to stalk. *)
Definition placeOne (st : Placing) : M Placing :=
  tried <- whileLoop (existingPositions st) noCandidate (attempts st) ;;
  if validPosition tried
  then
    let c := candidate tried in
    pole <- createPole c ;;
    ret {| attempts := attemptsCounter tried;
           existingPositions :=
             existingPositions st ++ [footprintOf c];
           placed := placed st ++ [pole] |}
  else
    ret {| attempts := attemptsCounter tried;
           existingPositions := existingPositions st;
           placed := placed st |}.

(** The [for] loop with [n] iterations left. *)
Fixpoint forLoop (n : nat) (st : Placing) : M Placing :=
  match n with
  | O => ret st
  | S n' => st' <- placeOne st ;; forLoop n' st'
  end.

(** The loop state [addNewPoles] starts from. *)
Definition startPlacing (c : BambooClump) : Placing :=
  {| attempts := 0;
     existingPositions := existingOf (poles c);
     placed := poles c |}.

Definition addNewPoles (count : Z) (c : BambooClump) : M BambooClump :=
  st <- forLoop (Z.to_nat count) (startPlacing c) ;;
  ret {| poles := placed st;
         currentPoles := currentPoles c + count;
         harvestedPoles := harvestedPoles c;
         clumpTargetHeight := clumpTargetHeight c;
         growthProgress := growthProgress c |}.

(** [new BambooClump(position)]: the field initialisers, then
    [addNewPoles(5)]. *)
Definition emptyClump : BambooClump :=
  {| poles := [];
     currentPoles := 0;
     harvestedPoles := 0;
     clumpTargetHeight := 0.5;
     growthProgress := 0 |}.

Definition newBambooClump : M BambooClump := addNewPoles 5 emptyClump.

(** *** [harvestMaturePoles] *)

Definition mature (pole : BambooPole) : bool :=
  geb (ageInYears pole) 3 && negb (isHarvested pole).

(** [this.poles.filter(...)].  The result holds references to the pole
    objects of [this.poles]; a reference is modelled by the index of the
    pole in [this.poles], paired with the pole it denotes. *)
Definition maturePoles (ps : list BambooPole) : list (nat * BambooPole) :=
  filter (fun ip => mature (snd ip)) (combine (seq 0 (length ps)) ps).

(** [maturePoles.sort((a, b) => b.ageInYears - a.ageInYears)]: a stable
    sort; [a] stays before [b] unless the comparator is positive. *)
Fixpoint insertByAge (a : nat * BambooPole) (l : list (nat * BambooPole))
  : list (nat * BambooPole) :=
  match l with
  | [] => [a]
  | b :: l' =>
      if leb (ageInYears (snd b) - ageInYears (snd a)) 0
      then a :: b :: l'
      else b :: insertByAge a l'
  end.

Definition sortByAge (l : list (nat * BambooPole)) : list (nat * BambooPole) :=
  fold_right insertByAge [] l.

Definition setHarvested (pole : BambooPole) : BambooPole :=
  {| mesh := mesh pole;
     thickness := thickness pole;
     targetHeight := targetHeight pole;
     currentHeight := currentHeight pole;
     ageInYears := ageInYears pole;
     isHarvested := true;
     growthFactor := growthFactor pole |}.

(** "[a] is at least as old as [b]": the order the sort leaves between an
    earlier entry [a] and a later entry [b]. *)
Definition olderFirst (a b : nat * BambooPole) : Prop :=
  ageInYears (snd b) <= ageInYears (snd a).

(** [pole.isHarvested = true] through the reference [i]. *)
Fixpoint markHarvested (i : nat) (ps : list BambooPole) : list BambooPole :=
  match ps, i with
  | [], _ => []
  | pole :: ps', O => setHarvested pole :: ps'
  | pole :: ps', S i' => pole :: markHarvested i' ps'
  end.

(** The poles the loop [for (i = 0; i < polesToHarvest && i <
    maturePoles.length; i++)] visits. *)
Definition toHarvest (ps : list BambooPole) : list (nat * BambooPole) :=
  firstn (Z.to_nat (Math_ceil (INR (length (maturePoles ps)) * 0.2)))
         (sortByAge (maturePoles ps)).

Definition harvestMaturePoles (growthProgress0 : R) (c : BambooClump)
  : BambooClump :=
  if ltb growthProgress0 0.3 then c
  else
    let polesToHarvest :=
      Math_ceil (INR (length (maturePoles (poles c))) * 0.2) in
    if (polesToHarvest =? 0)%Z then c
    else
      {| poles := fold_left (fun ps ip => markHarvested (fst ip) ps)
                            (toHarvest (poles c)) (poles c);
         currentPoles := currentPoles c;
         harvestedPoles :=
           harvestedPoles c + Z.of_nat (length (toHarvest (poles c)));
         clumpTargetHeight := clumpTargetHeight c;
         growthProgress := growthProgress c |}.

(** *** [update] *)

Record Output : Type := { height : R; poleCount : Z; carbon : R }.

(** The callback of [this.poles.forEach] in [update]; a pole that is not
    harvested takes three draws for its colour. *)
Definition growPole (progress target : R) (pole : BambooPole)
  : M BambooPole :=
  let age := progress * 10 in
  if isHarvested pole
  then ret {| mesh := mesh pole;
              thickness := thickness pole;
              targetHeight := targetHeight pole;
              currentHeight := currentHeight pole;
              ageInYears := age;
              isHarvested := isHarvested pole;
              growthFactor := growthFactor pole |}
  else
    let normalizedHeight := (target - 0.5) / (4.5 - 0.5) in
    let factor := if Req_dec_T (growthFactor pole) 0 then 1.0
                  else growthFactor pole in
    let individualGrowth := normalizedHeight * factor in
    let scaleY :=
      Math_min 0.99 (Math_max 0.01 (individualGrowth * 0.99 + 0.01)) in
    Math_random ;;; Math_random ;;; Math_random ;;;
    ret {| mesh := {| position_x := position_x (mesh pole);
                      position_z := position_z (mesh pole);
                      scale_y := scaleY;
                      radiusTop := radiusTop (mesh pole);
                      radiusBottom := radiusBottom (mesh pole) |};
           thickness := thickness pole;
           targetHeight := targetHeight pole;
           currentHeight := targetHeight pole * scaleY;
           ageInYears := age;
           isHarvested := isHarvested pole;
           growthFactor := growthFactor pole |}.

Fixpoint forEach (f : BambooPole -> M BambooPole) (ps : list BambooPole)
  : M (list BambooPole) :=
  match ps with
  | [] => ret []
  | pole :: ps' =>
      pole' <- f pole ;;
      rest <- forEach f ps' ;;
      ret (pole' :: rest)
  end.

(** The two assignments [this.growthProgress = ...] and
    [this.targetHeight = ...]. *)
Definition setGrowth (progress target : R) (c : BambooClump) : BambooClump :=
  {| poles := poles c;
     currentPoles := currentPoles c;
     harvestedPoles := harvestedPoles c;
     clumpTargetHeight := target;
     growthProgress := progress |}.

(** The poles as [forEach] leaves them. *)
Definition setPoles (ps : list BambooPole) (c : BambooClump) : BambooClump :=
  {| poles := ps;
     currentPoles := currentPoles c;
     harvestedPoles := harvestedPoles c;
     clumpTargetHeight := clumpTargetHeight c;
     growthProgress := growthProgress c |}.

(** The object [update] returns, read off the fields of the clump. *)
Definition report (c : BambooClump) : Output :=
  let finalHeight := Math_max 0.5 (clumpTargetHeight c) in
  let finalPoleCount := Z.max 5 (currentPoles c - harvestedPoles c) in
  let finalCarbon :=
    Math_max 0 (calculateCarbon finalHeight (IZR finalPoleCount)) in
  {| height := finalHeight;
     poleCount := finalPoleCount;
     carbon := finalCarbon |}.

Definition update (growthProgress0 : R) (c : BambooClump)
  : M (Output * BambooClump) :=
  let progress := Math_max 0 (Math_min 1 growthProgress0) in
  let target := calculateHeight progress in
  let targetPoles := calculatePoleCount progress in
  let c0 := setGrowth progress target c in
  c1 <- (if (targetPoles >? currentPoles c0)%Z
         then addNewPoles (targetPoles - currentPoles c0) c0
         else ret c0) ;;
  u <- Math_random ;;
  let c2 := if ltb u 0.02 && gtb progress 0.5
            then harvestMaturePoles progress c1 else c1 in
  ps <- forEach (growPole progress target) (poles c2) ;;
  let c3 := setPoles ps c2 in
  ret (report c3, c3).

(** *** Histories of one clump

    A clump is built by the constructor and then driven by [update]; the
    harvest scheduler is also exposed as a step of its own. *)

Inductive step : BambooClump * Rng.t -> BambooClump * Rng.t -> Prop :=
| step_update (p : R) (c : BambooClump) (g : Rng.t) :
    step (c, g) (snd (fst (update p c g)), snd (update p c g))
| step_harvest (p : R) (c : BambooClump) (g : Rng.t) :
    step (c, g) (harvestMaturePoles p c, g).

Inductive steps : BambooClump * Rng.t -> BambooClump * Rng.t -> Prop :=
| steps_refl s : steps s s
| steps_next s1 s2 s3 : steps s1 s2 -> step s2 s3 -> steps s1 s3.

(** The states an engine can be in, for a stream of draws [g0]. *)
Definition reachable (g0 : Rng.t) (s : BambooClump * Rng.t) : Prop :=
  steps (newBambooClump g0) s.

Definition harvestedCount (ps : list BambooPole) : nat :=
  length (filter isHarvested ps).

Definition distance (p q : BambooPole) : R :=
  let dx := position_x (mesh q) - position_x (mesh p) in
  let dz := position_z (mesh q) - position_z (mesh p) in
  Math_sqrt (dx * dx + dz * dz).

(** [q] is a later state of the pole [p]: it stands where it stood, with the
    same geometry, and is still harvested if it was. *)
Definition evolves (p q : BambooPole) : Prop :=
  position_x (mesh q) = position_x (mesh p) /\
  position_z (mesh q) = position_z (mesh p) /\
  radiusBottom (mesh q) = radiusBottom (mesh p) /\
  thickness q = thickness p /\
  (isHarvested p = true -> isHarvested q = true).

(** The geometry of every pole is at least as wide at its base as the
    thickness it was drawn with. *)
Definition wellFormed (ps : list BambooPole) : Prop :=
  Forall (fun p => 0 <= thickness p <= radiusBottom (mesh p)) ps.

(** No live stalk stands closer to an earlier live stalk than its own
    thickness plus 1.2 times the thickness of the earlier one. *)
Definition nonOverlapping (ps : list BambooPole) : Prop :=
  forall (i j : nat) (p q : BambooPole),
    (i < j)%nat ->
    nth_error ps i = Some p -> nth_error ps j = Some q ->
    isHarvested p = false -> isHarvested q = false ->
    thickness q + 1.2 * thickness p <= distance p q.

(** Every live pole has an entry in [existingPositions] at its place, with
    a radius of at least 1.2 times its thickness. *)
Definition covered (ps : list BambooPole) (ex : list Footprint) : Prop :=
  forall p, In p ps -> isHarvested p = false ->
  exists f, In f ex /\
            fp_x f = position_x (mesh p) /\
            fp_z f = position_z (mesh p) /\
            1.2 * thickness p <= fp_radius f.

(** What a layout is compared on: position and thickness of every stalk. *)
Definition stalkLayout (c : BambooClump) : list (R * R * R) :=
  map (fun pole =>
         (position_x (mesh pole), position_z (mesh pole), thickness pole))
      (poles c).

(** *** A stream of draws to try the placement on

    The first candidate is drawn at the centre with thickness 0.06, the
    second 0.135 away from it with the same thickness; every draw that
    builds a pole is one half, and every later draw is 0. *)

Definition closeDraws : Rng.t :=
  prefixed
    ([0; 0; 0; 0] ++ repeat (1 / 2) 11 ++
     [0; 0.225; 0; 0] ++ repeat (1 / 2) 11) 0.

(** The stream after the first pole is built, and the two candidates. *)
Definition laterDraws : Rng.t :=
  prefixed ([0; 0.225; 0; 0] ++ repeat (1 / 2) 11) 0.

Definition firstClose : Candidate := fst (drawCandidate closeDraws).

Definition secondClose : Candidate := fst (drawCandidate laterDraws).

(** *** A clump to try the scheduler on

    Eight poles of ages 4, 2, 6, 7, 5, 7, 3 and 3.5, the fourth of them
    harvested before. *)

Definition poleOfAge (age : R) (harvested : bool) : BambooPole :=
  {| mesh := {| position_x := 0; position_z := 0; scale_y := 0.5;
                radiusTop := 0.1; radiusBottom := 0.15 |};
     thickness := 0.12;
     targetHeight := 40;
     currentHeight := 20;
     ageInYears := age;
     isHarvested := harvested;
     growthFactor := 1.4 |}.

Definition sampleClump : BambooClump :=
  {| poles := [poleOfAge 4 false; poleOfAge 2 false; poleOfAge 6 false;
               poleOfAge 7 true; poleOfAge 5 false; poleOfAge 7 false;
               poleOfAge 3 false; poleOfAge 3.5 false];
     currentPoles := 8;
     harvestedPoles := 1;
     clumpTargetHeight := 2.5;
     growthProgress := 0.7 |}.

End Schematic.


(** ** Geo-referenced renderer: [addBambooPlants] *)

Module Geo.
Import JS Rng.

(** The columns of [plots] the renderer reads. *)
Record Plot : Type := {
  latitude : R;
  longitude : R;
  areaHectares : R }.

Definition seededRandom (seed : R) : R :=
  let x := Math_sin (seed * 9999) * 10000 in
  x - IZR (Math_floor x).

Definition progressOf (year : R) : R :=
  Math_max 0 (Math_min 1 ((year - 2024) / 11)).

Definition baseHeight (progress : R) : R :=
  let maxHeight := 25 in
  let minHeight := 0.5 in
  let growthRate := 15 in
  let midpoint := 0.3 in
  minHeight + (maxHeight - minHeight) /
    (1 + Math_exp (- growthRate * (progress - midpoint))).

Definition poleCountPerClump (progress : R) : Z :=
  let minPoles := 5 in
  let maxPoles := 50 in
  Math_floor (minPoles + (maxPoles - minPoles) /
    (1 + Math_exp (- 15 * (progress - 0.3)))).

(** A cylinder entity: where it stands and the [length] and [bottomRadius]
    of its cylinder (the top radius is [thickness * 0.7]). *)
Record Stalk : Type := {
  poleLat : R;
  poleLng : R;
  poleHeight : R;
  thickness : R }.

(** An ellipsoid entity (the rhizome mound) and the stalks drawn on it. *)
Record Clump : Type := {
  clumpLat : R;
  clumpLng : R;
  stalks : list Stalk }.

(** The body of [for (let p = 0; p < polesInThisClump; p++)]. *)
Definition stalkAt (progress clumpSeed cLat cLng : R) (p : nat) : Stalk :=
  let poleSeed := clumpSeed + INR p * 10 in
  let isCenter := ltb (seededRandom poleSeed) 0.3 in
  let poleRadius := if isCenter then seededRandom (poleSeed + 1) * 0.4
                    else 0.5 + seededRandom (poleSeed + 1) * 1.0 in
  let poleAngle := seededRandom (poleSeed + 2) * Math_PI * 2 in
  let poleOffsetX := Math_cos poleAngle * poleRadius in
  let poleOffsetZ := Math_sin poleAngle * poleRadius in
  let poleOffsetLat := poleOffsetZ / 111320 in
  let poleOffsetLng :=
    poleOffsetX / (111320 * Math_cos (cLat * Math_PI / 180)) in
  let heightVariation := 0.7 + seededRandom (poleSeed + 3) * 0.5 in
  let thicknessRandom := seededRandom (poleSeed + 4) in
  {| poleLat := cLat + poleOffsetLat;
     poleLng := cLng + poleOffsetLng;
     poleHeight := baseHeight progress * heightVariation;
     thickness := 0.06 + thicknessRandom * 0.08 + progress * 0.06 |}.

(** The body of [for (let i = 0; i < visibleClumps; i++)]. *)
Definition clumpAt (plot : Plot) (progress plotSeed : R)
           (visibleGridSize : Z) (i : nat) : Clump :=
  let clumpSpacing := 8 in
  let gridExtent := (IZR visibleGridSize - 1) * clumpSpacing in
  let gridOffset := gridExtent / 2 in
  let row := Math_floor (INR i / IZR visibleGridSize) in
  let col := Z.rem (Z.of_nat i) visibleGridSize in
  let clumpSeed := plotSeed + INR i * 100 in
  let jitterX := (seededRandom clumpSeed - 0.5) * 2 in
  let jitterZ := (seededRandom (clumpSeed + 1) - 0.5) * 2 in
  let offsetX := - gridOffset + IZR col * clumpSpacing + jitterX in
  let offsetZ := - gridOffset + IZR row * clumpSpacing + jitterZ in
  let offsetLat := offsetZ / 111320 in
  let offsetLng :=
    offsetX / (111320 * Math_cos (latitude plot * Math_PI / 180)) in
  let cLat := latitude plot + offsetLat in
  let cLng := longitude plot + offsetLng in
  let polesInThisClump := Z.min (poleCountPerClump progress) 12 in
  {| clumpLat := cLat;
     clumpLng := cLng;
     stalks := map (stalkAt progress clumpSeed cLat cLng)
                   (seq 0 (Z.to_nat polesInThisClump)) |}.

(** [plotSeed], the seed the plot's position gives. *)
Definition plotSeedOf (plot : Plot) : R :=
  Math_abs (latitude plot * 1000 + longitude plot * 1000).

(** The entities [addBambooPlants] adds to the viewer, clump by clump. *)
Definition layout (plot : Plot) (year : R) : list Clump :=
  let progress := progressOf year in
  let spacingMeters := 8 in
  let plotSizeMeters := Math_sqrt (areaHectares plot * 10000) in
  let clumpsPerRow := Math_floor (plotSizeMeters / spacingMeters) in
  let totalClumps := (clumpsPerRow * clumpsPerRow)%Z in
  let visibleClumps :=
    Z.min totalClumps (Math_round (areaHectares plot * 150)) in
  let visibleGridSize := Math_ceil (Math_sqrt (IZR visibleClumps)) in
  let plotSeed := plotSeedOf plot in
  map (clumpAt plot progress plotSeed visibleGridSize)
      (seq 0 (Z.to_nat visibleClumps)).

Definition thicknesses (l : list Clump) : list (list R) :=
  map (fun c => map thickness (stalks c)) l.

(** [addBambooPlants] run next to the system random source: it makes no
    draw. *)
Definition addBambooPlants (plot : Plot) (year : R) : M (list Clump) :=
  ret (layout plot year).

End Geo.

(** ** Income figures: [FloatingDataCards] *)

Module Economics.
Import JS.

Record Figures : Type := {
  yearsGrown : R;
  canHarvest : bool;
  progress : R;
  currentCarbonRate : R;
  annualCarbon : R;
  carbonIncome : R;
  totalClumps : Z;
  polesPerClump : R;
  totalPoles : R;
  harvestablePolesPerYear : Z;
  harvestIncome : R;
  totalIncome : R }.

Definition plantingYear : R := 2026.
Definition harvestStartYear : R := 5.
Definition carbonRatePerHa : R := 87.5.
Definition carbonPricePerTon : R := 30.
Definition clumpsPerHa : R := 150.
Definition harvestablePolesPerClumpPerYear : Z := 20.
Definition polePrice : R := 10.

(** The carbon rate per hectare and year the card shows for a progress. *)
Definition carbonRatePerHaPerYear (progress0 : R) : R :=
  carbonRatePerHa * progress0.

Definition figures (plot : Geo.Plot) (year : R) : Figures :=
  let yearsGrown0 := Math_max 0 (year - plantingYear) in
  let canHarvest0 := geb yearsGrown0 harvestStartYear in
  let progress0 := Math_min 1 (yearsGrown0 / 6) in
  let currentCarbonRate0 := carbonRatePerHa * progress0 in
  let annualCarbon0 := Geo.areaHectares plot * currentCarbonRate0 in
  let carbonIncome0 := annualCarbon0 * carbonPricePerTon in
  let totalClumps0 := Math_round (Geo.areaHectares plot * clumpsPerHa) in
  let polesPerClump0 := Math_min 100 (5 + progress0 * 95) in
  let totalPoles0 := IZR totalClumps0 * polesPerClump0 in
  let harvestablePolesPerYear0 :=
    if canHarvest0
    then (totalClumps0 * harvestablePolesPerClumpPerYear)%Z
    else 0%Z in
  let harvestIncome0 := IZR harvestablePolesPerYear0 * polePrice in
  {| yearsGrown := yearsGrown0;
     canHarvest := canHarvest0;
     progress := progress0;
     currentCarbonRate := currentCarbonRate0;
     annualCarbon := annualCarbon0;
     carbonIncome := carbonIncome0;
     totalClumps := totalClumps0;
     polesPerClump := polesPerClump0;
     totalPoles := totalPoles0;
     harvestablePolesPerYear := harvestablePolesPerYear0;
     harvestIncome := harvestIncome0;
     totalIncome := carbonIncome0 + harvestIncome0 |}.

End Economics.

(** ** Ranges of what the schematic engine draws *)

Module Ranges.
Import JS Rng Schematic.

(** The distance of a candidate, and of a pole, from the centre of the
    clump. *)
Definition candidateFromCentre (c : Candidate) : R :=
  Math_sqrt (cx c * cx c + cz c * cz c).

Definition fromCentre (p : BambooPole) : R :=
  Math_sqrt (position_x (mesh p) * position_x (mesh p)
             + position_z (mesh p) * position_z (mesh p)).

(** The two buckets of [addNewPoles]: a thin shoot inside 0.6 of the
    centre, or a thick cane in the ring from 0.8 to 1.8. *)
Definition bucketed (d t : R) : Prop :=
  (0 <= d < 0.6 /\ 0.06 <= t < 0.10) \/
  (0.8 <= d < 1.8 /\ 0.12 <= t < 0.18).

(** The ranges of the attributes [addNewPoles] gives a pole. *)
Definition inRange (p : BambooPole) : Prop :=
  bucketed (fromCentre p) (thickness p) /\
  30 <= targetHeight p < 55 /\
  1.2 <= growthFactor p < 1.6 /\
  thickness p * 1.1 <= radiusBottom (mesh p) < thickness p * 1.3 /\
  thickness p * 0.7 <= radiusTop (mesh p) < thickness p * 1.1.

End Ranges.

(** ** The terrain view around [addBambooPlants] *)

Module Terrain.
Import JS Rng.

(** The corners of the boundary polygon the terrain view drapes over the
    plot: a square of one hectare around the plot's position. *)
Record Boundary : Type := {
  west : R;
  south : R;
  east : R;
  north : R }.

Definition boundaryOf (plot : Geo.Plot) : Boundary :=
  let hectareMeters := 100 in
  let halfSize := hectareMeters / 2 in
  let halfSizeDeg := halfSize / 111320 in
  {| west := Geo.longitude plot - halfSizeDeg;
     south := Geo.latitude plot - halfSizeDeg;
     east := Geo.longitude plot + halfSizeDeg;
     north := Geo.latitude plot + halfSizeDeg |}.

(** [plotSizeMeters], the side of the square the plot's area makes. *)
Definition plotSizeMeters (plot : Geo.Plot) : R :=
  Math_sqrt (Geo.areaHectares plot * 10000).

(** Where the layout stands relative to the position of the plot, in
    degrees: a clump by the offsets of its mound to the north and to the
    east, a stalk by its offsets, its height and its thickness. *)
Definition stalkShape (plot : Geo.Plot) (s : Geo.Stalk) : R * R * R * R :=
  (Geo.poleLat s - Geo.latitude plot,
   Geo.poleLng s - Geo.longitude plot,
   Geo.poleHeight s,
   Geo.thickness s).

Definition shape (plot : Geo.Plot) (l : list Geo.Clump)
  : list (R * R * list (R * R * R * R)) :=
  map (fun c =>
         (Geo.clumpLat c - Geo.latitude plot,
          Geo.clumpLng c - Geo.longitude plot,
          map (stalkShape plot) (Geo.stalks c)))
      l.

(** The same without the offsets to the east, which the latitude of the
    plot scales. *)
Definition northShape (plot : Geo.Plot) (l : list Geo.Clump)
  : list (R * list (R * R * R)) :=
  map (fun c =>
         (Geo.clumpLat c - Geo.latitude plot,
          map (fun s => (Geo.poleLat s - Geo.latitude plot,
                         Geo.poleHeight s,
                         Geo.thickness s))
              (Geo.stalks c)))
      l.

(** The distance on the ground, in metres, between two stalks of a clump
    whose mound stands at the latitude [cLat]: the conversion
    [addBambooPlants] applies to its offsets, undone. *)
Definition groundDistance (cLat : R) (s1 s2 : Geo.Stalk) : R :=
  let dz := (Geo.poleLat s1 - Geo.poleLat s2) * 111320 in
  let dx := (Geo.poleLng s1 - Geo.poleLng s2)
            * (111320 * Math_cos (cLat * Math_PI / 180)) in
  Math_sqrt (dx * dx + dz * dz).

(** A plot of one hectare. *)
Definition hectarePlot : Geo.Plot :=
  {| Geo.latitude := 8; Geo.longitude := 125; Geo.areaHectares := 1 |}.

End Terrain.

(** ** The lidar overlay: [addLidarPointCloud] *)

Module Lidar.
Import JS Rng.
Local Open Scope rng_scope.

(** The four colours of the height ramp, ["#22c55e"], ["#84cc16"],
    ["#eab308"] and ["#ef4444"]. *)
Inductive Colour : Type := Green | Lime | Yellow | Red.

(** A point entity: its position and height over ground and its colour. *)
Record Point : Type := {
  pointLat : R;
  pointLng : R;
  pointHeight : R;
  pointColor : Colour }.

Definition maxHeight : R := 25.
Definition hectareMeters : R := 100.
Definition halfSize : R := hectareMeters / 2.
Definition gridResolution : R := 4.
Definition numPoints : Z := Math_floor (hectareMeters / gridResolution).

Definition colourOf (normalizedHeight : R) : Colour :=
  if ltb normalizedHeight 0.3 then Green
  else if ltb normalizedHeight 0.6 then Lime
  else if ltb normalizedHeight 0.85 then Yellow
  else Red.

(** The body of the inner loop, for the grid cell [(x, z)]. *)
Definition pointAt (plot : Geo.Plot) (baseHeight : R) (x z : nat) : M Point :=
  r1 <- Math_random ;;
  let offsetX := INR x * gridResolution - halfSize + gridResolution * r1 in
  r2 <- Math_random ;;
  let offsetZ := INR z * gridResolution - halfSize + gridResolution * r2 in
  let offsetLat := offsetZ / 111320 in
  let offsetLng :=
    offsetX / (111320 * Math_cos (Geo.latitude plot * Math_PI / 180)) in
  let distFromCenter :=
    Math_sqrt (offsetX * offsetX + offsetZ * offsetZ) / halfSize in
  r3 <- Math_random ;;
  let noise := r3 * 0.4 + 0.6 in
  let clumpProximity :=
    Math_sin (offsetX * 0.15) * Math_sin (offsetZ * 0.15) in
  let heightFactor :=
    Math_max 0.1
      ((1 - distFromCenter * 0.3) * noise * (0.8 + clumpProximity * 0.4)) in
  r4 <- Math_random ;;
  let pointHeight0 := baseHeight * heightFactor * (0.3 + r4 * 0.7) in
  ret {| pointLat := Geo.latitude plot + offsetLat;
         pointLng := Geo.longitude plot + offsetLng;
         pointHeight := pointHeight0;
         pointColor := colourOf (pointHeight0 / maxHeight) |}.

(** [for (let i = from; i < from + count; i++) body(i)], collecting what the
    bodies add to the viewer, in order. *)
Fixpoint forRange {A} (body : nat -> M (list A)) (from count : nat)
  : M (list A) :=
  match count with
  | O => ret []
  | S n =>
      l <- body from ;;
      rest <- forRange body (S from) n ;;
      ret (l ++ rest)
  end.

Definition addLidarPointCloud (plot : Geo.Plot) (year : R) : M (list Point) :=
  let baseHeight := Geo.baseHeight (Geo.progressOf year) in
  forRange
    (fun x =>
       forRange (fun z => p <- pointAt plot baseHeight x z ;; ret [p])
                0 (Z.to_nat numPoints))
    0 (Z.to_nat numPoints).

(** The stream [d] draws later. *)
Definition after (d : nat) (g : t) : t := fun n => g (d + n)%nat.

(** A computation that makes exactly [d] draws. *)
Definition draws {A} (d : nat) (m : M A) : Prop :=
  forall g n, snd (m g) n = after d g n.

(** What [addLidarPointCloud] guarantees of a point. *)
Definition pointInRange (plot : Geo.Plot) (year : R) (p : Point) : Prop :=
  Terrain.south (Terrain.boundaryOf plot) <= pointLat p
    < Terrain.north (Terrain.boundaryOf plot) /\
  0.03 * Geo.baseHeight (Geo.progressOf year) <= pointHeight p
    < 1.2 * Geo.baseHeight (Geo.progressOf year) /\
  0.015 < pointHeight p < 30.

End Lidar.

(** ** The component that drives the engine: [BambooSimulationComponent] *)

Module Driver.
Import JS Rng Schematic.

(** The remainder operator [a % b] on numbers: what is left of [a] after
    taking out [b] as often as the quotient, truncated towards zero,
    says. *)
Definition truncate (x : R) : Z := if Rlt_dec x 0 then Zceil x else Zfloor x.

Definition rem (a b : R) : R := a - b * IZR (truncate (a / b)).

(** What the component and the page that embeds it hold between two calls:
    the engine behind [simulationRef] (absent when it could not be built),
    the system random source, and the React state last set: [metrics],
    [currentYear] and [currentTimeValue] of the component and [year] of
    the page. *)
Record World : Type := {
  simulation : option BambooClump;
  source : Rng.t;
  metrics : Output;
  currentYear : R;
  currentTimeValue : R;
  pageYear : R }.

Definition setMetrics (m : Output) (w : World) : World :=
  {| simulation := simulation w;
     source := source w;
     metrics := m;
     currentYear := currentYear w;
     currentTimeValue := currentTimeValue w;
     pageYear := pageYear w |}.

Definition setCurrentYear (y : R) (w : World) : World :=
  {| simulation := simulation w;
     source := source w;
     metrics := metrics w;
     currentYear := y;
     currentTimeValue := currentTimeValue w;
     pageYear := pageYear w |}.

Definition setCurrentTimeValue (t : R) (w : World) : World :=
  {| simulation := simulation w;
     source := source w;
     metrics := metrics w;
     currentYear := currentYear w;
     currentTimeValue := t;
     pageYear := pageYear w |}.

Definition setPageYear (y : R) (w : World) : World :=
  {| simulation := simulation w;
     source := source w;
     metrics := metrics w;
     currentYear := currentYear w;
     currentTimeValue := currentTimeValue w;
     pageYear := y |}.

(** [simulationRef.current.update(progress)]: the clump of the engine and
    the random source move on; the metrics come back. *)
Definition engineUpdate (progress : R) (c : BambooClump) (w : World)
  : Output * World :=
  let r := update progress c (source w) in
  (fst (fst r),
   {| simulation := Some (snd (fst r));
      source := snd r;
      metrics := metrics w;
      currentYear := currentYear w;
      currentTimeValue := currentTimeValue w;
      pageYear := pageYear w |}).

(** A callback prop runs on the world when it is called, and may call back
    into the component; [None] stands for a call that does not return. *)
Definition Callback (A : Type) : Type := A -> World -> option World.

Record Props : Type := {
  onMetricsChange : option (Callback Output);
  onYearChange : option (Callback R) }.

(** [if (f) f(a)]. *)
Definition call {A : Type} (f : option (Callback A)) (a : A) (w : World)
  : option World :=
  match f with
  | Some k => k a w
  | None => Some w
  end.

(** The component used without callback props. *)
Definition plain : Props :=
  {| onMetricsChange := None; onYearChange := None |}.

(** [updateSimulation(progress)]: nothing without an engine; with one, a
    call of [update], [setMetrics], the callback [onMetricsChange] if it is
    given, [setCurrentYear(exactYear)] and the callback [onYearChange] if
    it is given, with the floor of [exactYear].  Each callback runs on the
    world as the statements before it left it.  ([exactYear] is computed
    over the reals here; the doubles of the code may round a value just
    below a whole year up to that year.) *)
Definition updateSimulation (props : Props) (progress : R) (w : World)
  : option World :=
  match simulation w with
  | None => Some w
  | Some c =>
      let updatedMetrics := fst (engineUpdate progress c w) in
      let w1 := setMetrics updatedMetrics (snd (engineUpdate progress c w)) in
      let exactYear := 2025 + progress * 10 in
      match call (onMetricsChange props) updatedMetrics w1 with
      | None => None
      | Some w2 =>
          let w3 := setCurrentYear exactYear w2 in
          call (onYearChange props) (IZR (Math_floor exactYear)) w3
      end
  end.

(** [setYear] of the imperative handle. *)
Definition setYear (props : Props) (year : R) (w : World) : option World :=
  let timeValue := year - 2025 in
  updateSimulation props (timeValue / 10) (setCurrentTimeValue timeValue w).

Definition handleTimelineChange (props : Props) (value : R) (w : World)
  : option World :=
  updateSimulation props (value / 10) (setCurrentTimeValue value w).

(** The two variables the animation loop keeps between frames. *)
Record Clock : Type := {
  time : R;
  lastTimestamp : R }.

Definition yearPerSecond : R := 1.0.

(** The clock arithmetic of [animate(timestamp)]. *)
Definition advance (k : Clock) (timestamp : R) : Clock :=
  let deltaTime := (timestamp - lastTimestamp k) / 1000 in
  let time1 := time k + deltaTime * yearPerSecond in
  let time2 := if geb time1 10 then rem time1 10 else time1 in
  {| time := time2; lastTimestamp := timestamp |}.

(** [animate(timestamp)]: advance the clock and update the simulation. *)
Definition animate (props : Props) (k : Clock) (timestamp : R) (w : World)
  : option (Clock * World) :=
  let k' := advance k timestamp in
  match updateSimulation props (time k' / 10)
          (setCurrentTimeValue (time k') w) with
  | None => None
  | Some w' => Some (k', w')
  end.

(** [handleYearChange] of the page [FarmerPlotView], which hands itself to
    the component as [onYearChange]; [attached] says whether the page's
    ref holds the component's handle.  [fuel] bounds the depth of the
    nested calls: [None] when the bound is reached. *)
Fixpoint handleYearChange (fuel : nat) (attached : bool) (newYear : R)
         (w : World) : option World :=
  match fuel with
  | O => None
  | S n =>
      let w1 := setPageYear newYear w in
      if attached
      then setYear {| onMetricsChange := None;
                      onYearChange := Some (handleYearChange n attached) |}
                   newYear w1
      else Some w1
  end.

(** The props the page gives the component. *)
Definition pageProps (fuel : nat) : Props :=
  {| onMetricsChange := None;
     onYearChange := Some (handleYearChange fuel true) |}.

(** A world to try the component on: the engine holds [sampleClump]. *)
Definition sampleWorld : World :=
  {| simulation := Some sampleClump;
     source := const 0;
     metrics := {| height := 0.5; poleCount := 5; carbon := 0 |};
     currentYear := 2025;
     currentTimeValue := 0;
     pageYear := 2026 |}.

End Driver.

(** ** Rational enclosures for [seededRandom]

    [seededRandom] takes the sine of angles of the order of a thousand
    million.  Its value at a given seed is enclosed with rational
    arithmetic: partial sums of the series of the arc tangent for [PI], and
    of the series of the sine. *)

Module Approx.

Fixpoint qpow (q : Q) (n : nat) : Q :=
  match n with
  | O => 1%Q
  | S n' => (q * qpow q n')%Q
  end.

Fixpoint sign (n : nat) : Q :=
  match n with
  | O => 1%Q
  | S n' => (- sign n')%Q
  end.

Fixpoint qsum (f : nat -> Q) (n : nat) : Q :=
  match n with
  | O => f O
  | S n' => (qsum f n' + f (S n'))%Q
  end.

Fixpoint zfact (n : nat) : Z :=
  match n with
  | O => 1%Z
  | S n' => (Z.of_nat (S n') * zfact n')%Z
  end.

Definition atanTerm (x : Q) (n : nat) : Q :=
  (qpow x (2 * n + 1) / inject_Z (Z.of_nat (2 * n + 1)))%Q.

(** The terms of [PI / 4 = 2 * atan (1 / 3) + atan (1 / 7)]. *)
Definition piTerm (n : nat) : Q :=
  (sign n * (2 * atanTerm (1 # 3) n + atanTerm (1 # 7) n))%Q.

Definition piLo : Q := 314159265358979323846 # 100000000000000000000.
Definition piHi : Q := 314159265358979323847 # 100000000000000000000.

Definition sinTerm (a : Q) (i : nat) : Q :=
  (sign i * (qpow a (2 * i + 1) / inject_Z (zfact (2 * i + 1))))%Q.

Definition sinLower (a : Q) : Q := qsum (sinTerm a) 7.
Definition sinUpper (a : Q) : Q := qsum (sinTerm a) 8.

(** [seededRandom(seed) < c] for a seed with [seed * 9999 = theta], decided
    from the whole number [j] of half turns to take out of [theta] and the
    floor [m] of [sin(theta) * 10000]: the angle [j * PI - theta] is
    enclosed between [lo] and [hi], within the first quarter turn, and its
    sine between the two partial sums. *)
Definition randomBelow (theta j m : Z) (c : Q) : bool :=
  let lo := (inject_Z j * piLo - inject_Z theta)%Q in
  let hi := (inject_Z j * piHi - inject_Z theta)%Q in
  let xl := if Z.even j then (- (10000 * sinUpper hi))%Q
            else (10000 * sinLower lo)%Q in
  let xu := if Z.even j then (- (10000 * sinLower lo))%Q
            else (10000 * sinUpper hi)%Q in
  (0 <=? j)%Z && Qle_bool 0 lo && Qle_bool hi (piLo / 2)
  && Qle_bool (inject_Z m) xl
  && negb (Qle_bool (inject_Z m + c) xu)
  && Qle_bool c 1.

End Approx.

(** * Verification *)

(** ** Comparisons *)

Section Comparisons.

Lemma ltb_true (x y : R) : x < y -> JS.ltb x y = true.
Proof.
  intros H. unfold JS.ltb. destruct (Rlt_dec x y); [reflexivity | lra].
Qed.

Lemma ltb_false (x y : R) : y <= x -> JS.ltb x y = false.
Proof.
  intros H. unfold JS.ltb. destruct (Rlt_dec x y); [lra | reflexivity].
Qed.

Lemma ltb_spec (x y : R) : JS.ltb x y = true <-> x < y.
Proof.
  unfold JS.ltb. destruct (Rlt_dec x y); split; intros H;
    try reflexivity; try assumption; try discriminate; lra.
Qed.

Lemma leb_spec (x y : R) : JS.leb x y = true <-> x <= y.
Proof.
  unfold JS.leb. destruct (Rle_dec x y); split; intros H;
    try reflexivity; try assumption; try discriminate; lra.
Qed.

Lemma leb_true (x y : R) : x <= y -> JS.leb x y = true.
Proof. apply leb_spec. Qed.

Lemma leb_false (x y : R) : y < x -> JS.leb x y = false.
Proof.
  intros H. unfold JS.leb. destruct (Rle_dec x y); [lra | reflexivity].
Qed.

End Comparisons.

(** ** Bounds on the exponential at the edges of the progress domain *)

Section ExpBounds.

Lemma exp_double_lb (x a : R) : 0 <= a -> a <= exp x -> a * a <= exp (x + x).
Proof.
  intros Ha Hx. rewrite exp_plus. nra.
Qed.

Lemma exp_double_ub (x b : R) : exp x <= b -> exp (x + x) <= b * b.
Proof.
  intros Hx. rewrite exp_plus. pose proof (exp_pos x). nra.
Qed.

Lemma exp_ub_small (x : R) : x < 1 -> exp x <= / (1 - x).
Proof.
  intros Hx.
  pose proof (exp_ineq1_le (- x)) as H.
  rewrite exp_Ropp in H.
  pose proof (exp_pos x) as Hp.
  assert (H1 : 0 < 1 - x) by lra.
  assert (H2 : 1 - x <= / exp x) by lra.
  rewrite <- (Rinv_inv (exp x)).
  apply Rinv_le_contravar; lra.
Qed.

Ltac double_to y :=
  match goal with
  | H : ?a <= exp ?x |- _ =>
      let H' := fresh "L" in
      assert (H' : a * a <= exp y)
        by (replace y with (x + x) by lra; apply exp_double_lb; lra);
      clear H
  | H : exp ?x <= ?b |- _ =>
      let H' := fresh "U" in
      assert (H' : exp y <= b * b)
        by (replace y with (x + x) by lra; apply exp_double_ub; lra);
      clear H
  end.

Lemma exp_4_5_lower : 52 < exp 4.5.
Proof.
  pose proof (exp_ineq1_le 0.28125) as H.
  double_to 0.5625. double_to 1.125. double_to 2.25. double_to 4.5.
  lra.
Qed.

Lemma exp_4_5_upper : exp 4.5 < 92.
Proof.
  assert (H : exp 0.0087890625 <= 1.008867)
    by (etransitivity; [apply exp_ub_small; lra | ];
        apply (Rmult_le_reg_l (1 - 0.0087890625)); [lra | ];
        rewrite Rinv_r by lra; lra).
  double_to 0.017578125.
  assert (H1 : exp 0.017578125 <= 1.017813) by lra; clear U.
  double_to 0.03515625.
  assert (H2 : exp 0.03515625 <= 1.035944) by lra; clear U.
  double_to 0.0703125.
  assert (H3 : exp 0.0703125 <= 1.07318) by lra; clear U.
  double_to 0.140625.
  assert (H4 : exp 0.140625 <= 1.15172) by lra; clear U.
  double_to 0.28125.
  assert (H5 : exp 0.28125 <= 1.32646) by lra; clear U.
  double_to 0.5625.
  assert (H6 : exp 0.5625 <= 1.7595) by lra; clear U.
  double_to 1.125.
  assert (H7 : exp 1.125 <= 3.09585) by lra; clear U.
  double_to 2.25.
  assert (H8 : exp 2.25 <= 9.5843) by lra; clear U.
  double_to 4.5.
  lra.
Qed.

Lemma exp_10_5_lower : 172 < exp 10.5.
Proof.
  pose proof (exp_ineq1_le 2.625) as H.
  double_to 5.25. double_to 10.5.
  lra.
Qed.

End ExpBounds.

(** ** The growth curve *)

Section GrowthCurve.

Lemma logistic_mono (lo hi k m p1 p2 : R) :
  lo <= hi -> 0 <= k -> p1 <= p2 ->
  Growth.logistic lo hi k m p1 <= Growth.logistic lo hi k m p2.
Proof.
  intros Hlh Hk Hp. unfold Growth.logistic, JS.Math_exp.
  set (e1 := exp (- k * (p1 - m))). set (e2 := exp (- k * (p2 - m))).
  assert (He : e2 <= e1).
  { subst e1 e2. destruct (Req_dec (- k * (p2 - m)) (- k * (p1 - m))) as [E|N].
    - rewrite E. lra.
    - left. apply exp_increasing. nra. }
  assert (P1 : 0 < e1) by apply exp_pos.
  assert (P2 : 0 < e2) by apply exp_pos.
  assert (Hi : / (1 + e1) <= / (1 + e2)) by (apply Rinv_le_contravar; lra).
  unfold Rdiv. nra.
Qed.

Lemma calculateHeight_logistic (p : R) :
  Schematic.calculateHeight p = Growth.logistic 0.5 2.55 15 0.3 p.
Proof. reflexivity. Qed.

Lemma calculatePoleCount_logistic (p : R) :
  Schematic.calculatePoleCount p =
  Zfloor (Growth.logistic 5 Schematic.maxPoles 15 0.3 p).
Proof. reflexivity. Qed.

Lemma baseHeight_logistic (p : R) :
  Geo.baseHeight p = Growth.logistic 0.5 25 15 0.3 p.
Proof. reflexivity. Qed.

Lemma poleCountPerClump_logistic (p : R) :
  Geo.poleCountPerClump p = Zfloor (Growth.logistic 5 50 15 0.3 p).
Proof. reflexivity. Qed.

Lemma clamp01_low (p : R) : p <= 0 -> Growth.clamp01 p = 0.
Proof.
  intros H. unfold Growth.clamp01, JS.Math_max, JS.Math_min.
  rewrite Rmin_right by lra. rewrite Rmax_left by lra. reflexivity.
Qed.

Lemma clamp01_high (p : R) : 1 <= p -> Growth.clamp01 p = 1.
Proof.
  intros H. unfold Growth.clamp01, JS.Math_max, JS.Math_min.
  rewrite Rmin_left by lra. rewrite Rmax_right by lra. reflexivity.
Qed.

Lemma clamp01_range (p : R) : 0 <= Growth.clamp01 p <= 1.
Proof.
  unfold Growth.clamp01, JS.Math_max, JS.Math_min.
  split.
  - apply Rmax_l.
  - apply Rmax_lub; [lra | apply Rmin_l].
Qed.

(** The logistic term at progress 0 and at progress 1. *)
Lemma logistic_at_0 (lo hi : R) :
  Growth.logistic lo hi 15 0.3 0 = lo + (hi - lo) / (1 + exp 4.5).
Proof.
  unfold Growth.logistic, JS.Math_exp.
  replace (- (15) * (0 - 0.3)) with 4.5 by lra. reflexivity.
Qed.

Lemma logistic_at_1 (lo hi : R) :
  Growth.logistic lo hi 15 0.3 1 = lo + (hi - lo) / (1 + / exp 10.5).
Proof.
  unfold Growth.logistic, JS.Math_exp.
  replace (- (15) * (1 - 0.3)) with (- (10.5)) by lra.
  rewrite exp_Ropp. reflexivity.
Qed.

Lemma frac_bounds (c d lo hi : R) :
  0 < d -> lo * d <= c -> c < hi * d -> lo <= c / d < hi.
Proof.
  intros Hd Hl Hh.
  assert (E : c / d * d = c) by (field; lra).
  split.
  - apply (Rmult_le_reg_r d); [exact Hd | lra].
  - apply (Rmult_lt_reg_r d); [exact Hd | lra].
Qed.

Lemma inv_exp_10_5 : 0 < / exp 10.5 < / 172.
Proof.
  pose proof exp_10_5_lower as H.
  split.
  - apply Rinv_0_lt_compat. lra.
  - apply Rinv_lt_contravar; [ | exact H].
    apply Rmult_lt_0_compat; lra.
Qed.

Lemma calculatePoleCount_0 : Schematic.calculatePoleCount 0 = 6%Z.
Proof.
  rewrite calculatePoleCount_logistic, logistic_at_0.
  unfold Schematic.maxPoles.
  pose proof exp_4_5_lower as L. pose proof exp_4_5_upper as U.
  apply Zfloor_eq.
  assert (B : 1 <= (100 - 5) / (1 + exp 4.5) < 2)
    by (apply frac_bounds; lra).
  lra.
Qed.

Lemma calculatePoleCount_1 : Schematic.calculatePoleCount 1 = 99%Z.
Proof.
  rewrite calculatePoleCount_logistic, logistic_at_1.
  unfold Schematic.maxPoles.
  pose proof inv_exp_10_5 as I.
  apply Zfloor_eq.
  assert (B : 94 <= (100 - 5) / (1 + / exp 10.5) < 95)
    by (apply frac_bounds; lra).
  lra.
Qed.

Lemma calculateHeight_0 : 0.52 <= Schematic.calculateHeight 0 < 0.55.
Proof.
  rewrite calculateHeight_logistic, logistic_at_0.
  pose proof exp_4_5_lower as L. pose proof exp_4_5_upper as U.
  assert (B : 0.02 <= (2.55 - 0.5) / (1 + exp 4.5) < 0.05)
    by (apply frac_bounds; lra).
  lra.
Qed.

Lemma calculateHeight_1 : 2.53 <= Schematic.calculateHeight 1 < 2.55.
Proof.
  rewrite calculateHeight_logistic, logistic_at_1.
  pose proof inv_exp_10_5 as I.
  assert (B : 2.03 <= (2.55 - 0.5) / (1 + / exp 10.5) < 2.05)
    by (apply frac_bounds; lra).
  lra.
Qed.

(** C3.  Growth is monotonic: for progress values [p1 < p2] in [[0, 1]] the
    height at [p2] is at least the height at [p1] and the pole count at [p2]
    is at least the pole count at [p1], in the schematic engine
    ([calculateHeight], [calculatePoleCount]) and in the geo-referenced one
    ([baseHeight], [poleCountPerClump]). *)
Theorem growth_monotonic (p1 p2 : R) :
  0 <= p1 -> p1 < p2 -> p2 <= 1 ->
  Schematic.calculateHeight p1 <= Schematic.calculateHeight p2 /\
  (Schematic.calculatePoleCount p1 <= Schematic.calculatePoleCount p2)%Z /\
  Geo.baseHeight p1 <= Geo.baseHeight p2 /\
  (Geo.poleCountPerClump p1 <= Geo.poleCountPerClump p2)%Z.
Proof.
  intros _ Hlt _.
  rewrite !calculateHeight_logistic, !calculatePoleCount_logistic,
    !baseHeight_logistic, !poleCountPerClump_logistic.
  unfold Schematic.maxPoles.
  repeat split; try apply Zfloor_le; apply logistic_mono; lra.
Qed.

Lemma growth_monotonic_witness :
  Schematic.calculateHeight 0 <= Schematic.calculateHeight 1 /\
  (Schematic.calculatePoleCount 0 <= Schematic.calculatePoleCount 1)%Z /\
  Geo.baseHeight 0 <= Geo.baseHeight 1 /\
  (Geo.poleCountPerClump 0 <= Geo.poleCountPerClump 1)%Z.
Proof.
  apply (growth_monotonic 0 1); lra.
Defined.

Lemma calculateHeight_floor (p : R) : 0.5 <= Schematic.calculateHeight p.
Proof.
  unfold Schematic.calculateHeight, JS.Math_exp.
  pose proof (exp_pos (- (15) * (p - 0.3))) as E.
  assert (0 <= (2.55 - 0.5) / (1 + exp (- (15) * (p - 0.3)))).
  { apply Rmult_le_pos; [lra | ]. left. apply Rinv_0_lt_compat. lra. }
  lra.
Qed.

End GrowthCurve.

(** ** Carbon and income figures *)

Section Derivations.
Import Economics.

Lemma toFixed1_nonneg (x : R) : 0 <= x -> 0 <= JS.toFixed1 x.
Proof.
  intros Hx. unfold JS.toFixed1.
  destruct (Rlt_dec x 0) as [H|_]; [lra | ].
  assert (Hz : (0 <= Zfloor (x * 10 + 1 / 2))%Z)
    by (apply Zfloor_lub; lra).
  apply IZR_le in Hz. lra.
Qed.

Lemma toFixed1_0 : JS.toFixed1 0 = 0.
Proof.
  unfold JS.toFixed1.
  destruct (Rlt_dec 0 0) as [H|_]; [lra | ].
  replace (Zfloor (0 * 10 + 1 / 2)) with 0%Z; [lra | ].
  symmetry. apply Zfloor_eq. lra.
Qed.

Lemma calculateCarbon_nonneg (h n : R) :
  0 <= h -> 0 <= n -> 0 <= Schematic.calculateCarbon h n.
Proof.
  intros Hh Hn. unfold Schematic.calculateCarbon.
  apply toFixed1_nonneg.
  assert (0 <= h / 27) by lra.
  assert (0 <= n / 90) by lra.
  assert (0 <= h / 27 * (n / 90)) by (apply Rmult_le_pos; assumption).
  lra.
Qed.

Lemma calculateCarbon_zero (h n : R) :
  h = 0 \/ n = 0 -> Schematic.calculateCarbon h n = 0.
Proof.
  intros H. unfold Schematic.calculateCarbon.
  replace (h / 27 * (n / 90) * 87.5) with 0; [apply toFixed1_0 | ].
  destruct H as [-> | ->]; lra.
Qed.

Lemma Math_round_0 : JS.Math_round 0 = 0%Z.
Proof. unfold JS.Math_round. apply Zfloor_eq. lra. Qed.

Lemma Math_round_nonneg (x : R) : 0 <= x -> (0 <= JS.Math_round x)%Z.
Proof. intros H. unfold JS.Math_round. apply Zfloor_lub. lra. Qed.

Lemma progress_range (plot : Geo.Plot) (year : R) :
  0 <= progress (figures plot year) <= 1.
Proof.
  simpl. unfold JS.Math_min, JS.Math_max. split.
  - apply Rmin_glb; [lra | ].
    pose proof (Rmax_l 0 (year - plantingYear)). lra.
  - apply Rmin_l.
Qed.

Lemma harvestablePoles_nonneg (plot : Geo.Plot) (year : R) :
  0 <= Geo.areaHectares plot ->
  (0 <= harvestablePolesPerYear (figures plot year))%Z.
Proof.
  intros Ha. simpl.
  destruct (JS.geb _ _); [ | lia].
  assert (0 <= JS.Math_round (Geo.areaHectares plot * clumpsPerHa))%Z.
  { apply Math_round_nonneg. unfold clumpsPerHa. lra. }
  unfold harvestablePolesPerClumpPerYear. lia.
Qed.

Lemma figures_incomes (plot : Geo.Plot) (year : R) :
  carbonIncome (figures plot year) =
    Geo.areaHectares plot
    * carbonRatePerHaPerYear (progress (figures plot year))
    * carbonPricePerTon /\
  harvestIncome (figures plot year) =
    IZR (harvestablePolesPerYear (figures plot year)) * polePrice.
Proof. split; reflexivity. Qed.

Lemma harvestable_before_threshold (plot : Geo.Plot) (year : R) :
  year < plantingYear + harvestStartYear ->
  canHarvest (figures plot year) = false /\
  harvestablePolesPerYear (figures plot year) = 0%Z.
Proof.
  intros Hy.
  assert (C : canHarvest (figures plot year) = false).
  { cbn [canHarvest figures]. unfold JS.geb. apply leb_false.
    unfold JS.Math_max, Rmax, harvestStartYear, plantingYear in *.
    destruct (Rle_dec 0 (year - 2026)); lra. }
  split; [exact C | ].
  cbn [canHarvest figures harvestablePolesPerYear] in *. rewrite C.
  reflexivity.
Qed.

(** C9.  The income figures follow the reference formulas, as functions of
    the plot and the year.  The growth progress is
    [min(1, max(0, year - 2026) / 6)]; the annual carbon income is
    [areaHectares * carbonRatePerHaPerYear(progress) * carbonPricePerTon],
    that is [areaHectares * (87.5 * progress) * 30]; the harvest income is
    [harvestablePolesPerYear * polePrice], where in every year before the
    harvest threshold year [plantingYear + harvestStartYear = 2031] no pole
    is harvestable and the harvest income is 0, and from that year on 20
    poles of each of the [round(areaHectares * 150)] clumps are, at a
    price of 10. *)
Theorem economics_reference_formulas (plot : Geo.Plot) (year : R) :
  progress (figures plot year) = Rmin 1 (Rmax 0 (year - 2026) / 6) /\
  carbonIncome (figures plot year) =
    Geo.areaHectares plot
    * carbonRatePerHaPerYear (Rmin 1 (Rmax 0 (year - 2026) / 6))
    * carbonPricePerTon /\
  carbonIncome (figures plot year) =
    Geo.areaHectares plot * (87.5 * Rmin 1 (Rmax 0 (year - 2026) / 6)) * 30 /\
  harvestIncome (figures plot year) =
    IZR (harvestablePolesPerYear (figures plot year)) * polePrice /\
  plantingYear + harvestStartYear = 2031 /\
  (year < plantingYear + harvestStartYear ->
   harvestablePolesPerYear (figures plot year) = 0%Z /\
   harvestIncome (figures plot year) = 0) /\
  (plantingYear + harvestStartYear <= year ->
   harvestablePolesPerYear (figures plot year)
   = (JS.Math_round (Geo.areaHectares plot * 150) * 20)%Z /\
   harvestIncome (figures plot year)
   = IZR (JS.Math_round (Geo.areaHectares plot * 150)) * 20 * 10).
Proof.
  destruct (figures_incomes plot year) as (Ec & Eh).
  assert (P : progress (figures plot year)
              = Rmin 1 (Rmax 0 (year - 2026) / 6)) by reflexivity.
  split; [exact P | ].
  split; [rewrite Ec, P; reflexivity | ].
  split.
  { rewrite Ec, P.
    unfold carbonRatePerHaPerYear, carbonRatePerHa, carbonPricePerTon.
    reflexivity. }
  split; [exact Eh | ].
  split; [unfold plantingYear, harvestStartYear; lra | ].
  split.
  - intros Hy.
    destruct (harvestable_before_threshold plot year Hy) as [_ H].
    split; [exact H | ]. rewrite Eh, H. unfold polePrice. lra.
  - intros Hy. unfold plantingYear, harvestStartYear in Hy.
    assert (C : canHarvest (figures plot year) = true).
    { cbn [canHarvest figures]. unfold JS.geb. apply leb_spec.
      unfold JS.Math_max, harvestStartYear, plantingYear.
      pose proof (Rmax_r 0 (year - 2026)). lra. }
    assert (H : harvestablePolesPerYear (figures plot year)
                = (JS.Math_round (Geo.areaHectares plot * 150) * 20)%Z).
    { cbn [canHarvest figures harvestablePolesPerYear] in *. rewrite C.
      reflexivity. }
    split; [exact H | ]. rewrite Eh, H, mult_IZR. unfold polePrice. lra.
Qed.

Lemma economics_reference_formulas_witness :
  carbonIncome (figures Terrain.hectarePlot 2029) = 1312.5 /\
  harvestIncome (figures Terrain.hectarePlot 2029) = 0 /\
  carbonIncome (figures Terrain.hectarePlot 2031) = 2187.5 /\
  harvestIncome (figures Terrain.hectarePlot 2031) = 30000.
Proof.
  destruct (economics_reference_formulas Terrain.hectarePlot 2029)
    as (_ & _ & C1 & _ & T & B1 & _).
  destruct (economics_reference_formulas Terrain.hectarePlot 2031)
    as (_ & _ & C2 & _ & _ & _ & A2).
  assert (R150 : JS.Math_round (1 * 150) = 150%Z)
    by (unfold JS.Math_round; apply Zfloor_eq; lra).
  cbn [Geo.areaHectares Terrain.hectarePlot] in *.
  split.
  { rewrite C1. rewrite (Rmax_right 0 (2029 - 2026)) by lra.
    rewrite Rmin_right by lra. lra. }
  split; [apply B1; lra | ].
  split.
  { rewrite C2. rewrite (Rmax_right 0 (2031 - 2026)) by lra.
    rewrite Rmin_right by lra. lra. }
  destruct A2 as [_ A2]; [lra | ]. rewrite A2, R150. lra.
Defined.

End Derivations.

(** ** The random source *)

Section RandomSource.
Import Rng.

Lemma valid_tail (g : Rng.t) : valid g -> valid (fun n => g (S n)).
Proof. intros H n. apply H. Qed.

Lemma valid_const (u : R) : 0 <= u < 1 -> valid (const u).
Proof. intros H n. exact H. Qed.

Lemma valid_prefixed (l : list R) (u : R) :
  Forall (fun x => 0 <= x < 1) l -> 0 <= u < 1 -> valid (prefixed l u).
Proof.
  intros Hl Hu. induction Hl as [ | x l Hx Hl IH]; simpl.
  - apply valid_const, Hu.
  - intros [ | n]; [exact Hx | apply IH].
Qed.

Lemma preserves_random : preserves Math_random.
Proof. intros g H. simpl. apply valid_tail, H. Qed.

Lemma preserves_ret {A} (a : A) : preserves (ret a).
Proof. intros g H. exact H. Qed.

Lemma preserves_bind {A B} (m : M A) (k : A -> M B) :
  preserves m -> (forall a, preserves (k a)) -> preserves (bind m k).
Proof.
  intros Hm Hk g Hg. unfold bind.
  specialize (Hm g Hg). destruct (m g) as [a g1]. apply Hk, Hm.
Qed.

Lemma random_range (g : Rng.t) : valid g -> 0 <= fst (Math_random g) < 1.
Proof. intros H. apply H. Qed.

End RandomSource.

Create HintDb rng.
#[local] Hint Resolve preserves_random preserves_ret preserves_bind : rng.

(** ** Stalk placement *)

Section Placement.
Import Rng Schematic.

Lemma drawCandidate_preserves : preserves drawCandidate.
Proof.
  unfold drawCandidate. repeat (apply preserves_bind; [auto with rng | intro]).
  auto with rng.
Qed.

Lemma drawCandidate_thickness (g : Rng.t) :
  valid g -> 0.06 <= cthickness (fst (drawCandidate g)) <= 0.18.
Proof.
  intros Hg. unfold drawCandidate, bind, Math_random, ret. simpl.
  pose proof (Hg 3%nat) as H3.
  match goal with |- context [if ?b then _ else _] => destruct b end; lra.
Qed.

Lemma createPole_preserves (c : Candidate) : preserves (createPole c).
Proof.
  unfold createPole. repeat (apply preserves_bind; [auto with rng | intro]).
  auto with rng.
Qed.

Lemma createPole_fields (c : Candidate) (g : Rng.t) :
  position_x (mesh (fst (createPole c g))) = cx c /\
  position_z (mesh (fst (createPole c g))) = cz c /\
  thickness (fst (createPole c g)) = cthickness c /\
  isHarvested (fst (createPole c g)) = false.
Proof. repeat split. Qed.

Lemma createPole_radiusBottom (c : Candidate) (g : Rng.t) :
  valid g -> 0 <= cthickness c ->
  cthickness c <= radiusBottom (mesh (fst (createPole c g))).
Proof.
  intros Hg Hc. unfold createPole, bind, Math_random, ret. simpl.
  pose proof (Hg 2%nat) as H2. nra.
Qed.

(** One unfolding of the [while] loop. *)
Lemma whileLoop_step (existing : list Footprint) (last : Candidate)
      (a : nat) (g : Rng.t) :
  whileLoop existing last a g =
  if lt_dec a maxAttempts
  then if validAgainst (fst (drawCandidate g)) existing
       then ({| validPosition := true;
                candidate := fst (drawCandidate g);
                attemptsCounter := S a |}, snd (drawCandidate g))
       else whileLoop existing (fst (drawCandidate g)) (S a)
              (snd (drawCandidate g))
  else ({| validPosition := false; candidate := last;
           attemptsCounter := a |}, g).
Proof.
  rewrite whileLoop_equation_1.
  destruct (lt_dec a maxAttempts); reflexivity.
Qed.

(** Induction on the budget the [while] loop has left. *)
Lemma budget_ind (P : nat -> Prop) :
  (forall a, (maxAttempts <= a)%nat -> P a) ->
  (forall a, (a < maxAttempts)%nat -> P (S a) -> P a) ->
  forall a, P a.
Proof.
  intros Hstop Hgo a.
  remember (maxAttempts - a)%nat as n eqn:En.
  revert a En. induction n as [ | n IH]; intros a En.
  - apply Hstop. lia.
  - apply Hgo; [lia | ]. apply IH. lia.
Qed.

(** What the [while] loop guarantees when it is left. *)
Lemma whileLoop_spec (existing : list Footprint) (a : nat) :
  forall (last : Candidate) (g : Rng.t),
  (valid g -> valid (snd (whileLoop existing last a g))) /\
  (a <= attemptsCounter (fst (whileLoop existing last a g)))%nat /\
  (attemptsCounter (fst (whileLoop existing last a g))
   <= Nat.max a maxAttempts)%nat /\
  (validPosition (fst (whileLoop existing last a g)) = true ->
   validAgainst (candidate (fst (whileLoop existing last a g))) existing
     = true /\
   (valid g ->
    0.06 <= cthickness (candidate (fst (whileLoop existing last a g)))
         <= 0.18)) /\
  (validPosition (fst (whileLoop existing last a g)) = false ->
   (maxAttempts <= attemptsCounter (fst (whileLoop existing last a g)))%nat).
Proof.
  induction a as [a Ha | a Ha IH] using budget_ind; intros last g;
    rewrite whileLoop_step.
  - destruct (lt_dec a maxAttempts) as [Hlt | _]; [lia | ]. simpl.
    refine (conj (fun H => H) (conj _ (conj _ (conj _ _)))); lia.
  - destruct (lt_dec a maxAttempts) as [_ | Hn]; [ | lia].
    destruct (validAgainst (fst (drawCandidate g)) existing) eqn:Ev.
    + simpl. refine (conj _ (conj _ (conj _ (conj _ _)))); try lia.
      * apply drawCandidate_preserves.
      * intros _. split; [exact Ev | apply drawCandidate_thickness].
    + specialize (IH (fst (drawCandidate g)) (snd (drawCandidate g))).
      destruct IH as (I1 & I2 & I3 & I4 & I5).
      refine (conj _ (conj _ (conj _ (conj _ I5)))); try lia.
      * intros Hg. apply I1, drawCandidate_preserves, Hg.
      * intros Hv. destruct (I4 Hv) as [V T]. split; [exact V | ].
        intros Hg. apply T, drawCandidate_preserves, Hg.
Qed.

(** One iteration of the [for] loop either skips the stalk, with the budget
    used up, or appends one pole built from a candidate that passed the
    overlap test. *)
Lemma placeOne_cases (st : Placing) (g : Rng.t) :
  (valid g -> valid (snd (placeOne st g))) /\
  (attempts st <= attempts (fst (placeOne st g)))%nat /\
  (attempts (fst (placeOne st g)) <= Nat.max (attempts st) maxAttempts)%nat /\
  ((placed (fst (placeOne st g)) = placed st /\
    existingPositions (fst (placeOne st g)) = existingPositions st /\
    (maxAttempts <= attempts (fst (placeOne st g)))%nat)
   \/
   (exists (c : Candidate) (pole : BambooPole),
      placed (fst (placeOne st g)) = placed st ++ [pole] /\
      existingPositions (fst (placeOne st g))
        = existingPositions st ++ [footprintOf c] /\
      validAgainst c (existingPositions st) = true /\
      position_x (mesh pole) = cx c /\
      position_z (mesh pole) = cz c /\
      thickness pole = cthickness c /\
      isHarvested pole = false /\
      (valid g ->
       0.06 <= cthickness c <= 0.18 /\
       cthickness c <= radiusBottom (mesh pole)))).
Proof.
  unfold placeOne, bind.
  pose proof (whileLoop_spec (existingPositions st) (attempts st)
                noCandidate g) as (W1 & W2 & W3 & W4 & W5).
  destruct (whileLoop (existingPositions st) noCandidate (attempts st) g)
    as [tried g1]. cbn [fst snd] in *.
  destruct (validPosition tried) eqn:Ev.
  - destruct (W4 eq_refl) as [V T].
    pose proof (createPole_preserves (candidate tried) g1) as C1.
    pose proof (createPole_radiusBottom (candidate tried) g1) as C2.
    pose proof (createPole_fields (candidate tried) g1) as (F1 & F2 & F3 & F4).
    destruct (createPole (candidate tried) g1) as [pole g2].
    cbn [fst snd ret attempts placed existingPositions] in *.
    refine (conj _ (conj W2 (conj W3 _))); [auto | ]. right.
    exists (candidate tried), pole.
    repeat (split; [first [reflexivity | assumption] | ]).
    intros Hg. specialize (T Hg). split; [exact T | ].
    apply C2; [auto | lra].
  - cbn [fst snd ret attempts placed existingPositions].
    refine (conj W1 (conj W2 (conj W3 _))). left.
    repeat split. apply W5. reflexivity.
Qed.

Lemma forLoop_invariant (I : Placing -> Rng.t -> Prop) :
  (forall st g, I st g -> I (fst (placeOne st g)) (snd (placeOne st g))) ->
  forall n st g, I st g -> I (fst (forLoop n st g)) (snd (forLoop n st g)).
Proof.
  intros Hstep n. induction n as [ | n IH]; intros st g H; simpl.
  - exact H.
  - unfold bind. specialize (Hstep st g H).
    destruct (placeOne st g) as [st' g']. apply IH, Hstep.
Qed.

Lemma forLoop_preserves (n : nat) (st : Placing) : preserves (forLoop n st).
Proof.
  intros g Hg.
  apply (forLoop_invariant (fun _ g => valid g)); [ | exact Hg].
  intros st0 g0 H. apply placeOne_cases, H.
Qed.

Lemma forLoop_attempts_mono (n : nat) (st : Placing) (g : Rng.t) :
  (attempts st <= attempts (fst (forLoop n st g)))%nat.
Proof.
  apply (forLoop_invariant (fun s _ => (attempts st <= attempts s)%nat));
    [ | lia ].
  intros s g0 Hs.
  pose proof (placeOne_cases s g0) as (_ & A1' & _). lia.
Qed.

(** The [for] loop only appends poles, all of them not harvested, at most
    one per iteration; and it places every stalk unless the budget ran
    out. *)
Lemma forLoop_appends (n : nat) :
  forall (st : Placing) (g : Rng.t),
  (attempts st <= maxAttempts)%nat ->
  (attempts (fst (forLoop n st g)) <= maxAttempts)%nat /\
  exists l : list BambooPole,
    placed (fst (forLoop n st g)) = placed st ++ l /\
    Forall (fun pole => isHarvested pole = false) l /\
    (length l <= n)%nat /\
    ((attempts (fst (forLoop n st g)) < maxAttempts)%nat -> length l = n).
Proof.
  induction n as [ | n IH]; intros st g Ha; simpl.
  - split; [exact Ha | ]. exists []. rewrite app_nil_r.
    repeat split; auto.
  - unfold bind.
    pose proof (placeOne_cases st g) as (_ & A1 & A2 & C).
    destruct (placeOne st g) as [st' g']. cbn [fst snd] in *.
    assert (Ha' : (attempts st' <= maxAttempts)%nat) by lia.
    destruct (IH st' g' Ha') as (B & l & E & F & L & K).
    pose proof (forLoop_attempts_mono n st' g') as M.
    split; [exact B | ].
    destruct C as [(P & _ & X) | (c & pole & P & _ & _ & _ & _ & _ & H & _)].
    + exists l. rewrite E, P.
      split; [reflexivity | ]. split; [exact F | ].
      split; [lia | ]. intros Hb. lia.
    + exists (pole :: l). rewrite E, P, <- app_assoc. simpl.
      split; [reflexivity | ].
      split; [constructor; assumption | ].
      split; [lia | ].
      intros Hb. f_equal. apply K, Hb.
Qed.

Lemma addNewPoles_poles (count : Z) (c : BambooClump) (g : Rng.t) :
  poles (fst (addNewPoles count c g))
  = placed (fst (forLoop (Z.to_nat count) (startPlacing c) g)).
Proof.
  unfold addNewPoles, bind.
  destruct (forLoop (Z.to_nat count) (startPlacing c) g). reflexivity.
Qed.

Lemma addNewPoles_counters (count : Z) (c : BambooClump) (g : Rng.t) :
  currentPoles (fst (addNewPoles count c g)) = (currentPoles c + count)%Z /\
  harvestedPoles (fst (addNewPoles count c g)) = harvestedPoles c.
Proof.
  unfold addNewPoles, bind.
  destruct (forLoop (Z.to_nat count) (startPlacing c) g). split; reflexivity.
Qed.

Lemma addNewPoles_preserves (count : Z) (c : BambooClump) :
  preserves (addNewPoles count c).
Proof.
  unfold addNewPoles. apply preserves_bind.
  - apply forLoop_preserves.
  - intros a. apply preserves_ret.
Qed.

(** C8.  Placement always returns, within its retry budget: one call of
    [addNewPoles] makes at most 100 candidate draws, it only appends poles,
    at most [count] of them, and whenever it appends fewer than [count] the
    budget of 100 attempts is used up: the stalks that found no position
    are skipped. *)
Theorem placement_within_budget (count : Z) (c : BambooClump) (g : Rng.t) :
  (attempts (fst (forLoop (Z.to_nat count) (startPlacing c) g)) <= 100)%nat /\
  exists l : list BambooPole,
    poles (fst (addNewPoles count c g)) = poles c ++ l /\
    (length l <= Z.to_nat count)%nat /\
    ((length l < Z.to_nat count)%nat ->
     attempts (fst (forLoop (Z.to_nat count) (startPlacing c) g)) = 100%nat).
Proof.
  destruct (forLoop_appends (Z.to_nat count) (startPlacing c) g)
    as (B & l & E & _ & L & K).
  { unfold startPlacing, maxAttempts. simpl. lia. }
  unfold maxAttempts in *. split; [exact B | ].
  exists l. rewrite addNewPoles_poles, E.
  split; [reflexivity | ]. split; [exact L | ].
  intros Hshort.
  destruct (Nat.eq_dec
              (attempts (fst (forLoop (Z.to_nat count) (startPlacing c) g)))
              100) as [Heq | Hne]; [exact Heq | ].
  assert (length l = Z.to_nat count) by (apply K; lia). lia.
Qed.

End Placement.

(** ** Runs on a constant stream of draws *)

Section ConstantStream.
Import Rng Schematic.

Lemma drawCandidate_const_stream (u : R) :
  snd (drawCandidate (const u)) = const u.
Proof. reflexivity. Qed.

Lemma createPole_const_stream (c : Candidate) (u : R) :
  snd (createPole c (const u)) = const u.
Proof. reflexivity. Qed.

(** A candidate overlaps the footprint of a stalk standing where it is. *)
Lemma overlaps_same_place (c : Candidate) (f : Footprint) :
  fp_x f = cx c -> fp_z f = cz c -> 0 < cthickness c + fp_radius f ->
  overlaps c f = true.
Proof.
  intros Hx Hz Hr. unfold overlaps. rewrite Hx, Hz.
  apply ltb_true. unfold JS.Math_sqrt.
  replace ((cx c - cx c) * (cx c - cx c) + (cz c - cz c) * (cz c - cz c))
    with 0 by ring.
  rewrite sqrt_0. exact Hr.
Qed.

(** On a stream that [drawCandidate] leaves as it was, every attempt draws
    the same candidate; once it is rejected the loop runs until the budget
    is used up. *)
Lemma whileLoop_fixed_rejects (existing : list Footprint) (g : Rng.t)
      (a : nat) :
  forall last : Candidate,
  snd (drawCandidate g) = g ->
  validAgainst (fst (drawCandidate g)) existing = false ->
  validPosition (fst (whileLoop existing last a g)) = false /\
  attemptsCounter (fst (whileLoop existing last a g))
    = Nat.max a maxAttempts /\
  snd (whileLoop existing last a g) = g.
Proof.
  induction a as [a Ha | a Ha IH] using budget_ind; intros last Hfix Hrej;
    rewrite whileLoop_step.
  - destruct (lt_dec a maxAttempts) as [Hlt | _]; [lia | ]. simpl.
    repeat split. lia.
  - destruct (lt_dec a maxAttempts) as [_ | Hn]; [ | lia].
    rewrite Hrej, Hfix.
    destruct (IH (fst (drawCandidate g)) Hfix Hrej) as (I1 & I2 & I3).
    repeat split; try assumption. lia.
Qed.

Lemma whileLoop_const_rejects (existing : list Footprint) (u : R) (a : nat)
      (last : Candidate) :
  validAgainst (fst (drawCandidate (const u))) existing = false ->
  validPosition (fst (whileLoop existing last a (const u))) = false /\
  attemptsCounter (fst (whileLoop existing last a (const u)))
    = Nat.max a maxAttempts /\
  snd (whileLoop existing last a (const u)) = const u.
Proof.
  apply whileLoop_fixed_rejects. reflexivity.
Qed.

Lemma placeOne_const_rejects (st : Placing) (u : R) :
  validAgainst (fst (drawCandidate (const u))) (existingPositions st) = false ->
  placed (fst (placeOne st (const u))) = placed st /\
  existingPositions (fst (placeOne st (const u))) = existingPositions st /\
  attempts (fst (placeOne st (const u))) = Nat.max (attempts st) maxAttempts /\
  snd (placeOne st (const u)) = const u.
Proof.
  intros Hrej. unfold placeOne, bind.
  destruct (whileLoop_const_rejects (existingPositions st) u (attempts st)
              noCandidate Hrej) as (W1 & W2 & W3).
  destruct (whileLoop (existingPositions st) noCandidate (attempts st)
              (const u)) as [tried g1]. cbn [fst snd] in *.
  rewrite W1. subst g1. cbn. auto.
Qed.

Lemma forLoop_const_rejects (n : nat) (u : R) :
  forall st : Placing,
  validAgainst (fst (drawCandidate (const u))) (existingPositions st) = false ->
  placed (fst (forLoop n st (const u))) = placed st /\
  snd (forLoop n st (const u)) = const u.
Proof.
  induction n as [ | n IH]; intros st Hrej; simpl.
  - auto.
  - unfold bind.
    destruct (placeOne_const_rejects st u Hrej) as (P1 & P2 & _ & P4).
    destruct (placeOne st (const u)) as [st' g']. cbn [fst snd] in *.
    subst g'. rewrite <- P2 in Hrej.
    destruct (IH st' Hrej) as [Q1 Q2]. rewrite Q1, Q2, P1. auto.
Qed.

End ConstantStream.

(** ** The harvest scheduler *)

Section Harvest.
Import Schematic.

Lemma mature_spec (pole : BambooPole) :
  mature pole = true <-> 3 <= ageInYears pole /\ isHarvested pole = false.
Proof.
  unfold mature, JS.geb. rewrite andb_true_iff, leb_spec, negb_true_iff.
  tauto.
Qed.

Lemma In_combine_seq (ps : list BambooPole) :
  forall (s i : nat) (p : BambooPole),
  In (i, p) (combine (seq s (length ps)) ps) <->
  (s <= i)%nat /\ nth_error ps (i - s) = Some p.
Proof.
  induction ps as [ | q ps IH]; intros s i p; simpl.
  - split; [tauto | ]. intros [_ H]. destruct (i - s)%nat; discriminate.
  - split.
    + intros [E | H].
      * inversion E; subst. split; [lia | ].
        rewrite Nat.sub_diag. reflexivity.
      * apply IH in H. destruct H as [H1 H2]. split; [lia | ].
        replace (i - s)%nat with (S (i - S s)) by lia. exact H2.
    + intros [H1 H2]. destruct (Nat.eq_dec i s) as [-> | Hne].
      * rewrite Nat.sub_diag in H2. inversion H2. left. reflexivity.
      * right. apply IH. split; [lia | ].
        replace (i - s)%nat with (S (i - S s)) in H2 by lia. exact H2.
Qed.

Lemma map_fst_combine_seq (ps : list BambooPole) (s : nat) :
  map fst (combine (seq s (length ps)) ps) = seq s (length ps).
Proof.
  revert s. induction ps as [ | q ps IH]; intros s; simpl.
  - reflexivity.
  - f_equal. apply IH.
Qed.

Lemma NoDup_map_filter {A B} (f : A -> B) (g : A -> bool) (l : list A) :
  NoDup (map f l) -> NoDup (map f (filter g l)).
Proof.
  induction l as [ | a l IH]; simpl; intros H.
  - constructor.
  - inversion H as [ | x l0 Hn Hd]; subst.
    destruct (g a); simpl; [ | apply IH, Hd].
    constructor; [ | apply IH, Hd].
    intros Hin. apply Hn. apply in_map_iff in Hin.
    destruct Hin as (y & Ey & Hy). apply filter_In in Hy.
    apply in_map_iff. exists y. tauto.
Qed.

Lemma maturePoles_spec (ps : list BambooPole) (i : nat) (pole : BambooPole) :
  In (i, pole) (maturePoles ps) <->
  nth_error ps i = Some pole /\
  3 <= ageInYears pole /\ isHarvested pole = false.
Proof.
  unfold maturePoles. rewrite filter_In, In_combine_seq, Nat.sub_0_r. simpl.
  rewrite mature_spec. intuition lia.
Qed.

Lemma maturePoles_NoDup (ps : list BambooPole) :
  NoDup (map fst (maturePoles ps)).
Proof.
  unfold maturePoles. apply NoDup_map_filter.
  rewrite map_fst_combine_seq. apply seq_NoDup.
Qed.

Lemma insertByAge_perm (a : nat * BambooPole) (l : list (nat * BambooPole)) :
  Permutation (insertByAge a l) (a :: l).
Proof.
  induction l as [ | b l IH]; simpl.
  - apply Permutation_refl.
  - destruct (JS.leb _ _).
    + apply Permutation_refl.
    + apply perm_trans with (b :: a :: l).
      * apply perm_skip, IH.
      * apply perm_swap.
Qed.

Lemma sortByAge_perm (l : list (nat * BambooPole)) :
  Permutation (sortByAge l) l.
Proof.
  induction l as [ | a l IH]; simpl.
  - apply perm_nil.
  - apply perm_trans with (a :: sortByAge l).
    + apply insertByAge_perm.
    + apply perm_skip, IH.
Qed.

Lemma insertByAge_sorted (a : nat * BambooPole)
      (l : list (nat * BambooPole)) :
  StronglySorted olderFirst l -> StronglySorted olderFirst (insertByAge a l).
Proof.
  induction l as [ | b l IH]; simpl; intros H.
  - constructor; constructor.
  - inversion H as [ | x l0 Hs Hf]; subst.
    destruct (JS.leb (ageInYears (snd b) - ageInYears (snd a)) 0) eqn:E.
    + apply leb_spec in E.
      constructor; [exact H | ].
      constructor; [unfold olderFirst; lra | ].
      eapply Forall_impl; [ | exact Hf].
      unfold olderFirst. intros x Hx. lra.
    + assert (Hlt : ageInYears (snd a) < ageInYears (snd b)).
      { destruct (Rle_dec (ageInYears (snd b) - ageInYears (snd a)) 0)
          as [Hle | Hgt].
        - apply leb_spec in Hle. congruence.
        - lra. }
      constructor; [apply IH, Hs | ].
      eapply Permutation_Forall.
      * apply Permutation_sym, insertByAge_perm.
      * constructor; [unfold olderFirst; lra | exact Hf].
Qed.

Lemma sortByAge_sorted (l : list (nat * BambooPole)) :
  StronglySorted olderFirst (sortByAge l).
Proof.
  induction l as [ | a l IH]; simpl.
  - constructor.
  - apply insertByAge_sorted, IH.
Qed.

Lemma StronglySorted_app_cross {A} (R : A -> A -> Prop) (l1 l2 : list A) :
  StronglySorted R (l1 ++ l2) ->
  forall x y, In x l1 -> In y l2 -> R x y.
Proof.
  induction l1 as [ | a l1 IH]; simpl; intros H x y Hx Hy.
  - contradiction.
  - inversion H as [ | a0 l0 Hs Hf]; subst.
    destruct Hx as [-> | Hx].
    + rewrite Forall_forall in Hf. apply Hf, in_or_app. right. exact Hy.
    + apply IH; assumption.
Qed.

(** [Math.ceil(n * 0.2)] for a count [n]. *)
Lemma ceil_fifth (n : nat) :
  JS.Math_ceil (INR n * 0.2) = Z.of_nat ((n + 4) / 5).
Proof.
  unfold JS.Math_ceil. apply Zceil_eq.
  pose proof (Nat.div_mod_eq (n + 4) 5) as E.
  pose proof (Nat.mod_upper_bound (n + 4) 5 ltac:(lia)) as B.
  set (q := ((n + 4) / 5)%nat) in *. set (r := ((n + 4) mod 5)%nat) in *.
  rewrite <- INR_IZR_INZ.
  assert (En : INR n + 4 = 5 * INR q + INR r).
  { replace 4 with (INR 4) by (simpl; lra).
    replace 5 with (INR 5) by (simpl; lra).
    rewrite <- plus_INR, <- mult_INR, <- plus_INR. f_equal. exact E. }
  assert (Br : 0 <= INR r <= 4).
  { split; [apply pos_INR | ].
    replace 4 with (INR 4) by (simpl; lra). apply le_INR. lia. }
  lra.
Qed.

Lemma toHarvest_length (ps : list BambooPole) :
  length (toHarvest ps) = ((length (maturePoles ps) + 4) / 5)%nat.
Proof.
  unfold toHarvest. rewrite ceil_fifth, Nat2Z.id.
  rewrite length_firstn.
  assert (L : length (sortByAge (maturePoles ps)) = length (maturePoles ps))
    by (apply Permutation_length, sortByAge_perm).
  rewrite L.
  assert (((length (maturePoles ps) + 4) / 5 <= length (maturePoles ps))%nat).
  { set (n := length (maturePoles ps)).
    destruct (Nat.eq_dec n 0) as [-> | Hn]; [reflexivity | ].
    apply Nat.Div0.div_le_upper_bound. lia. }
  lia.
Qed.

Lemma toHarvest_prefix (ps : list BambooPole) :
  exists rest, sortByAge (maturePoles ps) = toHarvest ps ++ rest.
Proof.
  unfold toHarvest. eexists. symmetry. apply firstn_skipn.
Qed.

Lemma toHarvest_incl (ps : list BambooPole) (h : nat * BambooPole) :
  In h (toHarvest ps) -> In h (maturePoles ps).
Proof.
  intros H. destruct (toHarvest_prefix ps) as [rest E].
  apply (Permutation_in h (sortByAge_perm (maturePoles ps))).
  rewrite E. apply in_or_app. left. exact H.
Qed.

Lemma toHarvest_NoDup (ps : list BambooPole) :
  NoDup (map fst (toHarvest ps)).
Proof.
  destruct (toHarvest_prefix ps) as [rest E].
  assert (N : NoDup (map fst (sortByAge (maturePoles ps)))).
  { eapply Permutation_NoDup; [ | apply maturePoles_NoDup].
    apply Permutation_map, Permutation_sym, sortByAge_perm. }
  rewrite E, map_app in N. apply NoDup_app_remove_r in N. exact N.
Qed.

Lemma toHarvest_oldest (ps : list BambooPole) (h e : nat * BambooPole) :
  In h (toHarvest ps) -> In e (maturePoles ps) -> ~ In e (toHarvest ps) ->
  ageInYears (snd e) <= ageInYears (snd h).
Proof.
  intros Hh He Hn. destruct (toHarvest_prefix ps) as [rest E].
  pose proof (sortByAge_sorted (maturePoles ps)) as S. rewrite E in S.
  apply (StronglySorted_app_cross _ _ _ S h e Hh).
  apply (Permutation_in e (Permutation_sym (sortByAge_perm (maturePoles ps))))
    in He.
  rewrite E in He. apply in_app_or in He. tauto.
Qed.

Lemma markHarvested_length (i : nat) (ps : list BambooPole) :
  length (markHarvested i ps) = length ps.
Proof.
  revert i. induction ps as [ | q ps IH]; intros [ | i]; simpl; auto.
Qed.

Lemma markHarvested_nth (i j : nat) (ps : list BambooPole) :
  nth_error (markHarvested i ps) j =
  if Nat.eqb j i then option_map setHarvested (nth_error ps j)
  else nth_error ps j.
Proof.
  revert i j. induction ps as [ | q ps IH]; intros i j.
  - destruct i, j; simpl; try reflexivity;
      destruct (Nat.eqb _ _); reflexivity.
  - destruct i as [ | i], j as [ | j]; simpl; try reflexivity.
    apply IH.
Qed.

Lemma setHarvested_idem (p : BambooPole) :
  setHarvested (setHarvested p) = setHarvested p.
Proof. reflexivity. Qed.

(** The poles after the marking loop: exactly the listed references are
    set, every other pole is left as it was. *)
Lemma fold_markHarvested_nth (l : list (nat * BambooPole)) :
  forall (ps : list BambooPole) (j : nat),
  nth_error (fold_left (fun ps ip => markHarvested (fst ip) ps) l ps) j =
  if existsb (Nat.eqb j) (map fst l)
  then option_map setHarvested (nth_error ps j)
  else nth_error ps j.
Proof.
  induction l as [ | [i p] l IH]; intros ps j; simpl.
  - reflexivity.
  - rewrite IH, markHarvested_nth.
    destruct (Nat.eqb j i); simpl.
    + destruct (nth_error ps j); simpl;
        destruct (existsb _ _); reflexivity.
    + reflexivity.
Qed.

Lemma harvestedCount_mark (i : nat) (ps : list BambooPole) (p : BambooPole) :
  nth_error ps i = Some p -> isHarvested p = false ->
  harvestedCount (markHarvested i ps) = S (harvestedCount ps).
Proof.
  unfold harvestedCount. revert i.
  induction ps as [ | q ps IH]; intros [ | i] Hn Hp; simpl in *;
    try discriminate.
  - inversion Hn; subst. rewrite Hp. reflexivity.
  - destruct (isHarvested q); simpl; rewrite (IH i Hn Hp); reflexivity.
Qed.

Lemma fold_markHarvested_count (l : list (nat * BambooPole)) :
  forall ps : list BambooPole,
  NoDup (map fst l) ->
  (forall i p, In (i, p) l ->
     exists q, nth_error ps i = Some q /\ isHarvested q = false) ->
  harvestedCount (fold_left (fun ps ip => markHarvested (fst ip) ps) l ps)
  = (harvestedCount ps + length l)%nat.
Proof.
  induction l as [ | [i p] l IH]; intros ps Hd Hl; simpl.
  - lia.
  - inversion Hd as [ | x l0 Hni Hd']; subst.
    destruct (Hl i p (or_introl eq_refl)) as (q & Hq & Hh).
    rewrite IH.
    + rewrite (harvestedCount_mark i ps q Hq Hh). lia.
    + exact Hd'.
    + intros j p' Hj.
      destruct (Hl j p' (or_intror Hj)) as (q' & Hq' & Hh').
      exists q'. split; [ | exact Hh'].
      rewrite markHarvested_nth.
      destruct (Nat.eqb j i) eqn:E; [ | exact Hq'].
      apply Nat.eqb_eq in E. subst j. exfalso. apply Hni.
      apply in_map_iff. exists (i, p'). auto.
Qed.

Lemma harvest_fields (p : R) (c : BambooClump) :
  0.3 <= p ->
  poles (harvestMaturePoles p c) =
    fold_left (fun ps ip => markHarvested (fst ip) ps)
              (toHarvest (poles c)) (poles c) /\
  harvestedPoles (harvestMaturePoles p c) =
    (harvestedPoles c + Z.of_nat (length (toHarvest (poles c))))%Z /\
  currentPoles (harvestMaturePoles p c) = currentPoles c /\
  clumpTargetHeight (harvestMaturePoles p c) = clumpTargetHeight c /\
  growthProgress (harvestMaturePoles p c) = growthProgress c.
Proof.
  intros Hp. unfold harvestMaturePoles.
  rewrite ltb_false by exact Hp.
  destruct (Z.eqb_spec
              (JS.Math_ceil (INR (length (maturePoles (poles c))) * 0.2)) 0)
    as [E | _].
  - unfold toHarvest. rewrite E. simpl.
    repeat split. lia.
  - simpl. repeat split.
Qed.

(** Below the threshold the scheduler returns at once. *)
Lemma harvest_below_threshold (p : R) (c : BambooClump) :
  p < 0.3 -> harvestMaturePoles p c = c.
Proof.
  intros Hp. unfold harvestMaturePoles. rewrite ltb_true by exact Hp.
  reflexivity.
Qed.

Lemma harvest_count (p : R) (c : BambooClump) :
  0.3 <= p ->
  harvestedCount (poles (harvestMaturePoles p c)) =
  (harvestedCount (poles c) + length (toHarvest (poles c)))%nat.
Proof.
  intros Hp. destruct (harvest_fields p c Hp) as (E & _). rewrite E.
  apply fold_markHarvested_count.
  - apply toHarvest_NoDup.
  - intros i q Hi. apply toHarvest_incl, maturePoles_spec in Hi.
    exists q. tauto.
Qed.

(** *** The scheduler on the sample clump *)

Ltac decide_cmp :=
  repeat match goal with
    | |- context [JS.leb ?a ?b] =>
        first [rewrite (leb_true a b) by lra | rewrite (leb_false a b) by lra]
    | |- context [JS.ltb ?a ?b] =>
        first [rewrite (ltb_true a b) by lra | rewrite (ltb_false a b) by lra]
    end.

Lemma sample_maturePoles :
  maturePoles (poles sampleClump) =
  [(0%nat, poleOfAge 4 false); (2%nat, poleOfAge 6 false);
   (4%nat, poleOfAge 5 false); (5%nat, poleOfAge 7 false);
   (6%nat, poleOfAge 3 false); (7%nat, poleOfAge 3.5 false)].
Proof.
  unfold maturePoles, sampleClump, mature, JS.geb.
  cbn [poles length seq combine filter snd ageInYears isHarvested poleOfAge
       negb andb].
  decide_cmp. cbn [andb negb]. reflexivity.
Qed.

Lemma sample_sorted :
  sortByAge (maturePoles (poles sampleClump)) =
  [(5%nat, poleOfAge 7 false); (2%nat, poleOfAge 6 false);
   (4%nat, poleOfAge 5 false); (0%nat, poleOfAge 4 false);
   (7%nat, poleOfAge 3.5 false); (6%nat, poleOfAge 3 false)].
Proof.
  rewrite sample_maturePoles. unfold sortByAge.
  repeat (progress (cbn [fold_right insertByAge snd ageInYears poleOfAge];
                    decide_cmp)).
  reflexivity.
Qed.

(** The scheduler on the sample clump: of the six eligible poles the two
    oldest, at 5 and at 2, are harvested. *)
Example harvest_sample :
  map isHarvested (poles (harvestMaturePoles 0.7 sampleClump)) =
  [false; false; true; true; false; true; false; false] /\
  harvestedPoles (harvestMaturePoles 0.7 sampleClump) = 3%Z.
Proof.
  destruct (harvest_fields 0.7 sampleClump) as (E & H & _); [lra | ].
  assert (T : toHarvest (poles sampleClump) =
              [(5%nat, poleOfAge 7 false); (2%nat, poleOfAge 6 false)]).
  { unfold toHarvest. rewrite ceil_fifth, Nat2Z.id, sample_sorted.
    rewrite sample_maturePoles. reflexivity. }
  rewrite E, H, T. split; reflexivity.
Qed.

(** C5.  A harvest invocation that passes the progress threshold acts
    exactly on the eligible set.  The eligible stalks are those of age at
    least 3 that are not yet harvested; they are put in descending order of
    age; the first [ceil(20%)] of that order are the stalks harvested, so
    none of the eligible stalks left out is older than a harvested one;
    exactly these stalks have their flag set, every other pole is left as
    it was, and [harvestedPoles] grows by their number. *)
Theorem harvest_exactly_eligible (p : R) (c : BambooClump) :
  0.3 <= p ->
  (forall i pole,
     In (i, pole) (maturePoles (poles c)) <->
     nth_error (poles c) i = Some pole /\
     3 <= ageInYears pole /\ isHarvested pole = false) /\
  Permutation (sortByAge (maturePoles (poles c))) (maturePoles (poles c)) /\
  StronglySorted olderFirst (sortByAge (maturePoles (poles c))) /\
  (exists rest,
     sortByAge (maturePoles (poles c)) = toHarvest (poles c) ++ rest) /\
  Z.of_nat (length (toHarvest (poles c))) =
    Zceil (INR (length (maturePoles (poles c))) * 0.2) /\
  NoDup (map fst (toHarvest (poles c))) /\
  (forall h e,
     In h (toHarvest (poles c)) -> In e (maturePoles (poles c)) ->
     ~ In e (toHarvest (poles c)) ->
     ageInYears (snd e) <= ageInYears (snd h)) /\
  (forall j,
     nth_error (poles (harvestMaturePoles p c)) j =
     if existsb (Nat.eqb j) (map fst (toHarvest (poles c)))
     then option_map setHarvested (nth_error (poles c) j)
     else nth_error (poles c) j) /\
  harvestedPoles (harvestMaturePoles p c) =
    (harvestedPoles c + Z.of_nat (length (toHarvest (poles c))))%Z /\
  harvestedCount (poles (harvestMaturePoles p c)) =
    (harvestedCount (poles c) + length (toHarvest (poles c)))%nat.
Proof.
  intros Hp.
  destruct (harvest_fields p c Hp) as (E & Hh & _).
  split; [intros i pole; apply maturePoles_spec | ].
  split; [apply sortByAge_perm | ].
  split; [apply sortByAge_sorted | ].
  split; [apply toHarvest_prefix | ].
  split.
  { rewrite toHarvest_length. symmetry. apply ceil_fifth. }
  split; [apply toHarvest_NoDup | ].
  split; [apply toHarvest_oldest | ].
  split; [intros j; rewrite E; apply fold_markHarvested_nth | ].
  split; [exact Hh | apply harvest_count, Hp].
Qed.

Lemma harvest_exactly_eligible_witness :
  Z.of_nat (length (toHarvest (poles sampleClump))) =
    Zceil (INR (length (maturePoles (poles sampleClump))) * 0.2) /\
  harvestedPoles (harvestMaturePoles 0.7 sampleClump) =
    (harvestedPoles sampleClump
     + Z.of_nat (length (toHarvest (poles sampleClump))))%Z.
Proof.
  pose proof (harvest_exactly_eligible 0.7 sampleClump ltac:(lra)) as H.
  split; [apply H | apply H].
Defined.

End Harvest.

(** ** How one step changes the poles *)

Section Evolution.
Import Rng Schematic.

Lemma evolves_refl (p : BambooPole) : evolves p p.
Proof. unfold evolves. tauto. Qed.

Lemma evolves_trans (p q r : BambooPole) :
  evolves p q -> evolves q r -> evolves p r.
Proof.
  unfold evolves. intros (A1 & A2 & A3 & A4 & A5) (B1 & B2 & B3 & B4 & B5).
  repeat split; try congruence. auto.
Qed.

Lemma Forall2_evolves_refl (ps : list BambooPole) : Forall2 evolves ps ps.
Proof.
  induction ps; constructor; [apply evolves_refl | assumption].
Qed.

Lemma Forall2_evolves_trans (l1 l2 l3 : list BambooPole) :
  Forall2 evolves l1 l2 -> Forall2 evolves l2 l3 -> Forall2 evolves l1 l3.
Proof.
  intros H. revert l3. induction H as [ | p q l1 l2 Hpq H IH]; intros l3 H3.
  - inversion H3. constructor.
  - inversion H3 as [ | q' r l2' l3' Hqr H3']; subst.
    constructor; [eapply evolves_trans; eassumption | apply IH, H3'].
Qed.

Lemma Forall2_nth_l {A B} {R : A -> B -> Prop} {l : list A} {l' : list B} :
  Forall2 R l l' ->
  forall i x, nth_error l i = Some x ->
  exists y, nth_error l' i = Some y /\ R x y.
Proof.
  intros H. induction H as [ | a b l l' Hab H IH]; intros [ | i] x Hx;
    simpl in *; try discriminate.
  - inversion Hx; subst. eauto.
  - apply IH, Hx.
Qed.

Lemma Forall2_nth_r {A B} {R : A -> B -> Prop} {l : list A} {l' : list B} :
  Forall2 R l l' ->
  forall i y, nth_error l' i = Some y ->
  exists x, nth_error l i = Some x /\ R x y.
Proof.
  intros H. induction H as [ | a b l l' Hab H IH]; intros [ | i] y Hy;
    simpl in *; try discriminate.
  - inversion Hy; subst. eauto.
  - apply IH, Hy.
Qed.

Lemma setHarvested_evolves (p : BambooPole) : evolves p (setHarvested p).
Proof. unfold evolves. simpl. tauto. Qed.

Lemma markHarvested_evolves (i : nat) (ps : list BambooPole) :
  Forall2 evolves ps (markHarvested i ps).
Proof.
  revert i. induction ps as [ | q ps IH]; intros [ | i]; simpl.
  - constructor.
  - constructor.
  - constructor; [apply setHarvested_evolves | apply Forall2_evolves_refl].
  - constructor; [apply evolves_refl | apply IH].
Qed.

Lemma fold_markHarvested_evolves (l : list (nat * BambooPole)) :
  forall ps : list BambooPole,
  Forall2 evolves ps
    (fold_left (fun ps ip => markHarvested (fst ip) ps) l ps).
Proof.
  induction l as [ | [i p] l IH]; intros ps; simpl.
  - apply Forall2_evolves_refl.
  - eapply Forall2_evolves_trans; [apply markHarvested_evolves | apply IH].
Qed.

(** Harvesting moves no pole and resets no flag. *)
Lemma harvest_evolves (p : R) (c : BambooClump) :
  Forall2 evolves (poles c) (poles (harvestMaturePoles p c)).
Proof.
  destruct (Rlt_dec p 0.3) as [Hlt | Hge].
  - rewrite harvest_below_threshold by exact Hlt. apply Forall2_evolves_refl.
  - destruct (harvest_fields p c) as (E & _); [lra | ].
    rewrite E. apply fold_markHarvested_evolves.
Qed.

Lemma harvest_counters (p : R) (c : BambooClump) :
  (harvestedPoles c <= harvestedPoles (harvestMaturePoles p c))%Z /\
  currentPoles (harvestMaturePoles p c) = currentPoles c /\
  (harvestedPoles c = Z.of_nat (harvestedCount (poles c)) ->
   harvestedPoles (harvestMaturePoles p c) =
   Z.of_nat (harvestedCount (poles (harvestMaturePoles p c)))).
Proof.
  destruct (Rlt_dec p 0.3) as [Hlt | Hge].
  - rewrite harvest_below_threshold by exact Hlt.
    split; [lia | split; [reflexivity | auto] ].
  - destruct (harvest_fields p c) as (_ & H & C & _); [lra | ].
    rewrite H, C, harvest_count by lra.
    split; [lia | split; [reflexivity | ] ]. intros I. rewrite I. lia.
Qed.

Lemma growPole_evolves (progress target : R) (p : BambooPole) (g : Rng.t) :
  evolves p (fst (growPole progress target p g)) /\
  isHarvested (fst (growPole progress target p g)) = isHarvested p.
Proof.
  unfold growPole, evolves.
  destruct (isHarvested p) eqn:E; simpl; rewrite ?E; tauto.
Qed.

Lemma growPole_preserves (progress target : R) (p : BambooPole) :
  preserves (growPole progress target p).
Proof.
  unfold growPole. destruct (isHarvested p).
  - apply preserves_ret.
  - repeat (apply preserves_bind; [auto with rng | intro]). auto with rng.
Qed.

Lemma forEach_growPole (progress target : R) (ps : list BambooPole) :
  forall g : Rng.t,
  Forall2 (fun p q => evolves p q /\ isHarvested q = isHarvested p)
          ps (fst (forEach (growPole progress target) ps g)).
Proof.
  induction ps as [ | p ps IH]; intros g; simpl.
  - constructor.
  - unfold bind.
    pose proof (growPole_evolves progress target p g) as H.
    destruct (growPole progress target p g) as [q g1].
    specialize (IH g1).
    destruct (forEach (growPole progress target) ps g1) as [qs g2].
    simpl in *. constructor; assumption.
Qed.

Lemma forEach_preserves (progress target : R) (ps : list BambooPole) :
  preserves (forEach (growPole progress target) ps).
Proof.
  induction ps as [ | p ps IH]; simpl.
  - apply preserves_ret.
  - apply preserves_bind; [apply growPole_preserves | intros q].
    apply preserves_bind; [exact IH | intros qs]. apply preserves_ret.
Qed.

(** The stages of [update], named. *)
Lemma update_stages (p : R) (c : BambooClump) (g : Rng.t) :
  exists (c1 : BambooClump) (g1 : Rng.t) (ps : list BambooPole) (g3 : Rng.t),
    (if (calculatePoleCount (Growth.clamp01 p) >? currentPoles c)%Z
     then addNewPoles (calculatePoleCount (Growth.clamp01 p) - currentPoles c)
            (setGrowth (Growth.clamp01 p)
                       (calculateHeight (Growth.clamp01 p)) c)
     else ret (setGrowth (Growth.clamp01 p)
                         (calculateHeight (Growth.clamp01 p)) c)) g
    = (c1, g1) /\
    forEach (growPole (Growth.clamp01 p) (calculateHeight (Growth.clamp01 p)))
      (poles (if JS.ltb (g1 0%nat) 0.02 && JS.gtb (Growth.clamp01 p) 0.5
              then harvestMaturePoles (Growth.clamp01 p) c1 else c1))
      (fun n => g1 (S n))
    = (ps, g3) /\
    update p c g =
    ((report
        (setPoles ps
           (if JS.ltb (g1 0%nat) 0.02 && JS.gtb (Growth.clamp01 p) 0.5
            then harvestMaturePoles (Growth.clamp01 p) c1 else c1)),
      setPoles ps
        (if JS.ltb (g1 0%nat) 0.02 && JS.gtb (Growth.clamp01 p) 0.5
         then harvestMaturePoles (Growth.clamp01 p) c1 else c1)),
     g3).
Proof.
  unfold update, bind, Math_random. fold (Growth.clamp01 p).
  cbn [currentPoles setGrowth].
  match goal with
  | |- context [ (if ?b then ?x else ?y) g ] =>
      destruct ((if b then x else y) g) as [c1 g1]
  end.
  match goal with
  | |- context [ forEach ?f ?l ?g0 ] =>
      destruct (forEach f l g0) as [ps g3] eqn:E
  end.
  exists c1, g1, ps, g3. auto.
Qed.

End Evolution.

(** ** The non-overlap invariant of [addNewPoles] *)

Section NonOverlap.
Import Rng Schematic.

Lemma covered_start (ps : list BambooPole) :
  wellFormed ps -> covered ps (existingOf ps).
Proof.
  intros W p Hp Hl. unfold existingOf.
  exists {| fp_x := position_x (mesh p);
            fp_z := position_z (mesh p);
            fp_radius := radiusBottom (mesh p) * 1.2 |}.
  split.
  - apply in_map_iff. exists p. split; [reflexivity | ].
    apply filter_In. split; [exact Hp | ]. unfold live. rewrite Hl. reflexivity.
  - simpl. repeat split.
    unfold wellFormed in W. rewrite Forall_forall in W.
    specialize (W p Hp). lra.
Qed.

Lemma validAgainst_all (c : Candidate) (ex : list Footprint) (f : Footprint) :
  validAgainst c ex = true -> In f ex -> overlaps c f = false.
Proof.
  unfold validAgainst. rewrite negb_true_iff. intros H Hf.
  destruct (overlaps c f) eqn:E; [ | reflexivity].
  assert (X : existsb (overlaps c) ex = true)
    by (apply existsb_exists; exists f; auto).
  congruence.
Qed.

Lemma not_overlaps (c : Candidate) (f : Footprint) :
  overlaps c f = false ->
  cthickness c + fp_radius f <=
  sqrt ((cx c - fp_x f) * (cx c - fp_x f) + (cz c - fp_z f) * (cz c - fp_z f)).
Proof.
  unfold overlaps, JS.Math_sqrt, JS.ltb.
  destruct (Rlt_dec _ _) as [H | H]; [discriminate | ]. intros _. lra.
Qed.

Lemma nth_error_snoc {A} (l : list A) (a : A) (i : nat) (x : A) :
  nth_error (l ++ [a]) i = Some x ->
  ((i < length l)%nat /\ nth_error l i = Some x) \/
  (i = length l /\ x = a).
Proof.
  intros H. destruct (Nat.lt_ge_cases i (length l)) as [Hlt | Hge].
  - left. rewrite nth_error_app1 in H by exact Hlt. auto.
  - right. rewrite nth_error_app2 in H by exact Hge.
    destruct (i - length l)%nat as [ | k] eqn:E; simpl in H.
    + inversion H. split; [lia | reflexivity].
    + destruct k; discriminate.
Qed.

Lemma placeOne_layout (st : Placing) (g : Rng.t) :
  valid g ->
  wellFormed (placed st) -> nonOverlapping (placed st) ->
  covered (placed st) (existingPositions st) ->
  wellFormed (placed (fst (placeOne st g))) /\
  nonOverlapping (placed (fst (placeOne st g))) /\
  covered (placed (fst (placeOne st g)))
          (existingPositions (fst (placeOne st g))).
Proof.
  intros Hg W N C.
  destruct (placeOne_cases st g) as (_ & _ & _ & [(P & E & _) | H]).
  - rewrite P, E. auto.
  - destruct H as (c & pole & P & E & V & X & Z & T & L & B).
    destruct (B Hg) as [Bt Br]. rewrite P, E.
    split; [ | split].
    + unfold wellFormed in *. apply Forall_app. split; [exact W | ].
      constructor; [ | constructor]. rewrite T. lra.
    + intros i j p q Hij Hi Hj Lp Lq.
      apply nth_error_snoc in Hj. destruct Hj as [[Hj Hq] | [Hj ->]].
      * rewrite nth_error_app1 in Hi by lia.
        apply (N i j p q Hij Hi Hq Lp Lq).
      * rewrite nth_error_app1 in Hi by lia.
        destruct (C p (nth_error_In _ _ Hi) Lp) as (f & Hf & Fx & Fz & Fr).
        pose proof (not_overlaps c f (validAgainst_all c _ f V Hf)) as D.
        unfold distance, JS.Math_sqrt. rewrite X, Z, T, <- Fx, <- Fz. lra.
    + intros p Hp Lp. apply in_app_or in Hp. destruct Hp as [Hp | Hp].
      * destruct (C p Hp Lp) as (f & Hf & R).
        exists f. split; [apply in_or_app; left; exact Hf | exact R].
      * destruct Hp as [<- | []].
        exists (footprintOf c). split; [apply in_or_app; right; simpl; auto | ].
        simpl. rewrite X, Z, T. repeat split; lra.
Qed.

Lemma addNewPoles_layout (count : Z) (c : BambooClump) (g : Rng.t) :
  valid g ->
  wellFormed (poles c) -> nonOverlapping (poles c) ->
  wellFormed (poles (fst (addNewPoles count c g))) /\
  nonOverlapping (poles (fst (addNewPoles count c g))).
Proof.
  intros Hg W N. rewrite addNewPoles_poles.
  pose proof (forLoop_invariant
    (fun st g0 => valid g0 /\ wellFormed (placed st) /\
                  nonOverlapping (placed st) /\
                  covered (placed st) (existingPositions st))) as I.
  destruct (I ltac:(
      intros st g0 (H1 & H2 & H3 & H4);
      split; [apply placeOne_cases, H1 | apply placeOne_layout; assumption])
    (Z.to_nat count) (startPlacing c) g) as (_ & W' & N' & _).
  - split; [exact Hg | ]. split; [exact W | ]. split; [exact N | ].
    apply covered_start, W.
  - auto.
Qed.

Lemma evolves_layout (ps ps' : list BambooPole) :
  Forall2 evolves ps ps' ->
  wellFormed ps -> nonOverlapping ps ->
  wellFormed ps' /\ nonOverlapping ps'.
Proof.
  intros F W N. split.
  - unfold wellFormed in *. rewrite Forall_forall in *.
    intros q Hq. apply In_nth_error in Hq. destruct Hq as [i Hi].
    destruct (Forall2_nth_r F i q Hi) as (p & Hp & (_ & _ & R & T & _)).
    specialize (W p (nth_error_In _ _ Hp)). rewrite R, T. exact W.
  - intros i j p' q' Hij Hi Hj Lp Lq.
    destruct (Forall2_nth_r F i p' Hi) as (p & Hp & (X1 & Z1 & _ & T1 & K1)).
    destruct (Forall2_nth_r F j q' Hj) as (q & Hq & (X2 & Z2 & _ & T2 & K2)).
    assert (Lp0 : isHarvested p = false)
      by (destruct (isHarvested p); [rewrite K1 in Lp by reflexivity;
                                     discriminate | reflexivity]).
    assert (Lq0 : isHarvested q = false)
      by (destruct (isHarvested q); [rewrite K2 in Lq by reflexivity;
                                     discriminate | reflexivity]).
    pose proof (N i j p q Hij Hp Hq Lp0 Lq0) as D.
    unfold distance in *. rewrite X1, Z1, X2, Z2, T1, T2. exact D.
Qed.

End NonOverlap.

(** ** Histories of a clump *)

Section Histories.
Import Rng Schematic.

Lemma harvestedCount_app (ps l : list BambooPole) :
  Forall (fun pole => isHarvested pole = false) l ->
  harvestedCount (ps ++ l) = harvestedCount ps.
Proof.
  intros H. unfold harvestedCount. rewrite filter_app, length_app.
  replace (filter isHarvested l) with (@nil BambooPole); [simpl; lia | ].
  induction H as [ | q l Hq H IH]; simpl; [reflexivity | ].
  rewrite Hq. exact IH.
Qed.

Lemma harvestedCount_same_flags (ps ps' : list BambooPole) :
  Forall2 (fun p q => evolves p q /\ isHarvested q = isHarvested p) ps ps' ->
  harvestedCount ps' = harvestedCount ps.
Proof.
  unfold harvestedCount.
  induction 1 as [ | p q ps ps' [_ Hq] H IH]; simpl; [reflexivity | ].
  rewrite Hq. destruct (isHarvested p); simpl; rewrite IH; reflexivity.
Qed.

Lemma harvestedCount_le_length (ps : list BambooPole) :
  (harvestedCount ps <= length ps)%nat.
Proof. unfold harvestedCount. apply filter_length_le. Qed.

Lemma addNewPoles_appends (count : Z) (c : BambooClump) (g : Rng.t) :
  exists l : list BambooPole,
    poles (fst (addNewPoles count c g)) = poles c ++ l /\
    Forall (fun pole => isHarvested pole = false) l.
Proof.
  destruct (forLoop_appends (Z.to_nat count) (startPlacing c) g)
    as (_ & l & E & F & _).
  { unfold startPlacing, maxAttempts. simpl. lia. }
  exists l. rewrite addNewPoles_poles, E. auto.
Qed.

(** The first stage of [update]: new poles when the target asks for them. *)
Lemma grow_stage (p : R) (c c1 : BambooClump) (g g1 : Rng.t) :
  (if (calculatePoleCount (Growth.clamp01 p) >? currentPoles c)%Z
   then addNewPoles (calculatePoleCount (Growth.clamp01 p) - currentPoles c)
          (setGrowth (Growth.clamp01 p)
                     (calculateHeight (Growth.clamp01 p)) c)
   else ret (setGrowth (Growth.clamp01 p)
                       (calculateHeight (Growth.clamp01 p)) c)) g
  = (c1, g1) ->
  (exists l, poles c1 = poles c ++ l /\
             Forall (fun pole => isHarvested pole = false) l) /\
  harvestedPoles c1 = harvestedPoles c /\
  currentPoles c1 =
    Z.max (currentPoles c) (calculatePoleCount (Growth.clamp01 p)) /\
  clumpTargetHeight c1 = calculateHeight (Growth.clamp01 p) /\
  (valid g -> valid g1) /\
  (valid g -> wellFormed (poles c) -> nonOverlapping (poles c) ->
   wellFormed (poles c1) /\ nonOverlapping (poles c1)).
Proof.
  set (c0 := setGrowth (Growth.clamp01 p)
                       (calculateHeight (Growth.clamp01 p)) c).
  destruct (Z.gtb_spec (calculatePoleCount (Growth.clamp01 p))
                       (currentPoles c)) as [Hgt | Hle]; intros E.
  - assert (E1 : c1 = fst (addNewPoles
                   (calculatePoleCount (Growth.clamp01 p) - currentPoles c)
                   c0 g)) by (rewrite E; reflexivity).
    assert (E2 : g1 = snd (addNewPoles
                   (calculatePoleCount (Growth.clamp01 p) - currentPoles c)
                   c0 g)) by (rewrite E; reflexivity).
    clear E. subst c1 g1.
    destruct (addNewPoles_counters
                (calculatePoleCount (Growth.clamp01 p) - currentPoles c)
                c0 g) as [C H].
    split; [apply (addNewPoles_appends _ c0 g) | ].
    split; [exact H | ].
    split; [rewrite C; simpl; lia | ].
    split.
    { unfold addNewPoles, bind. destruct (forLoop _ _ _). reflexivity. }
    split; [apply addNewPoles_preserves | ].
    intros Hg W N. apply addNewPoles_layout; assumption.
  - inversion E; subst c1 g1. simpl.
    split; [exists []; rewrite app_nil_r; auto | ].
    split; [reflexivity | ].
    split; [lia | ].
    split; [reflexivity | auto].
Qed.

(** What one [update] does to the clump. *)
Lemma update_effect (p : R) (c : BambooClump) (g : Rng.t) :
  fst (fst (update p c g)) = report (snd (fst (update p c g))) /\
  (exists l, Forall (fun pole => isHarvested pole = false) l /\
             Forall2 evolves (poles c ++ l)
                     (poles (snd (fst (update p c g))))) /\
  (harvestedPoles c <= harvestedPoles (snd (fst (update p c g))))%Z /\
  (harvestedPoles c = Z.of_nat (harvestedCount (poles c)) ->
   harvestedPoles (snd (fst (update p c g))) =
   Z.of_nat (harvestedCount (poles (snd (fst (update p c g)))))) /\
  currentPoles (snd (fst (update p c g))) =
    Z.max (currentPoles c) (calculatePoleCount (Growth.clamp01 p)) /\
  clumpTargetHeight (snd (fst (update p c g))) =
    calculateHeight (Growth.clamp01 p) /\
  (valid g -> valid (snd (update p c g))) /\
  (valid g -> wellFormed (poles c) -> nonOverlapping (poles c) ->
   wellFormed (poles (snd (fst (update p c g)))) /\
   nonOverlapping (poles (snd (fst (update p c g))))).
Proof.
  destruct (update_stages p c g) as (c1 & g1 & ps & g3 & E1 & E3 & EU).
  rewrite EU. cbn [fst snd].
  destruct (grow_stage p c c1 g g1 E1)
    as ((l & Pl & Fl) & H1 & C1 & T1 & V1 & L1).
  set (c2 := if JS.ltb (g1 0%nat) 0.02 && JS.gtb (Growth.clamp01 p) 0.5
             then harvestMaturePoles (Growth.clamp01 p) c1 else c1) in *.
  assert (S2 : Forall2 evolves (poles c1) (poles c2) /\
               (harvestedPoles c1 <= harvestedPoles c2)%Z /\
               currentPoles c2 = currentPoles c1 /\
               clumpTargetHeight c2 = clumpTargetHeight c1 /\
               (harvestedPoles c1 = Z.of_nat (harvestedCount (poles c1)) ->
                harvestedPoles c2 = Z.of_nat (harvestedCount (poles c2)))).
  { subst c2.
    destruct (JS.ltb (g1 0%nat) 0.02 && JS.gtb (Growth.clamp01 p) 0.5).
    - destruct (harvest_counters (Growth.clamp01 p) c1) as (A & B & C).
      split; [apply harvest_evolves | ].
      split; [exact A | ]. split; [exact B | ]. split; [ | exact C].
      destruct (Rlt_dec (Growth.clamp01 p) 0.3) as [Hlt | Hge].
      + rewrite harvest_below_threshold by exact Hlt. reflexivity.
      + apply harvest_fields. lra.
    - split; [apply Forall2_evolves_refl | ].
      split; [lia | ]. repeat split. auto. }
  destruct S2 as (F2 & H2 & C2 & T2 & I2).
  pose proof (forEach_growPole (Growth.clamp01 p)
                (calculateHeight (Growth.clamp01 p)) (poles c2)
                (fun n => g1 (S n))) as F3.
  pose proof (forEach_preserves (Growth.clamp01 p)
                (calculateHeight (Growth.clamp01 p)) (poles c2)
                (fun n => g1 (S n))) as V3.
  rewrite E3 in F3, V3. cbn [fst snd] in F3, V3.
  assert (F3' : Forall2 evolves (poles c2) ps)
    by (eapply Forall2_impl; [ | exact F3]; intros a b [H _]; exact H).
  cbn [poles setPoles harvestedPoles currentPoles clumpTargetHeight].
  split; [reflexivity | ].
  split.
  { exists l. split; [exact Fl | ]. rewrite <- Pl.
    eapply Forall2_evolves_trans; eassumption. }
  split; [lia | ].
  split.
  { intros I. rewrite (harvestedCount_same_flags _ _ F3). apply I2.
    rewrite H1, Pl, harvestedCount_app by exact Fl. exact I. }
  split; [congruence | ].
  split; [congruence | ].
  split.
  { intros Hg. apply V3, valid_tail, V1, Hg. }
  intros Hg W N. destruct (L1 Hg W N) as [W1 N1].
  destruct (evolves_layout _ _ F2 W1 N1) as [W2 N2].
  apply (evolves_layout _ _ F3' W2 N2).
Qed.


Lemma Forall2_evolves_app (l1 l2 l : list BambooPole) :
  Forall2 evolves l1 l2 -> Forall2 evolves (l1 ++ l) (l2 ++ l).
Proof.
  intros H. apply Forall2_app; [exact H | apply Forall2_evolves_refl].
Qed.

(** What one step of a history does. *)
Lemma step_effect (s s' : BambooClump * Rng.t) :
  step s s' ->
  (harvestedPoles (fst s) <= harvestedPoles (fst s'))%Z /\
  (exists l, Forall2 evolves (poles (fst s) ++ l) (poles (fst s'))) /\
  (harvestedPoles (fst s) = Z.of_nat (harvestedCount (poles (fst s))) ->
   harvestedPoles (fst s') = Z.of_nat (harvestedCount (poles (fst s')))) /\
  (valid (snd s) -> valid (snd s')) /\
  (valid (snd s) ->
   wellFormed (poles (fst s)) -> nonOverlapping (poles (fst s)) ->
   wellFormed (poles (fst s')) /\ nonOverlapping (poles (fst s'))).
Proof.
  intros [p c g | p c g]; cbn [fst snd].
  - destruct (update_effect p c g)
      as (_ & (l & _ & F) & H & I & _ & _ & V & L).
    split; [exact H | ]. split; [exists l; exact F | ]. auto.
  - destruct (harvest_counters p c) as (H & _ & I).
    split; [exact H | ].
    split; [exists []; rewrite app_nil_r; apply harvest_evolves | ].
    split; [exact I | ]. split; [auto | ].
    intros _ W N. apply (evolves_layout _ _ (harvest_evolves p c) W N).
Qed.

Lemma steps_effect (s s' : BambooClump * Rng.t) :
  steps s s' ->
  (harvestedPoles (fst s) <= harvestedPoles (fst s'))%Z /\
  (exists l, Forall2 evolves (poles (fst s) ++ l) (poles (fst s'))) /\
  (harvestedPoles (fst s) = Z.of_nat (harvestedCount (poles (fst s))) ->
   harvestedPoles (fst s') = Z.of_nat (harvestedCount (poles (fst s')))) /\
  (valid (snd s) -> valid (snd s')) /\
  (valid (snd s) ->
   wellFormed (poles (fst s)) -> nonOverlapping (poles (fst s)) ->
   wellFormed (poles (fst s')) /\ nonOverlapping (poles (fst s'))).
Proof.
  induction 1 as [s | s1 s2 s3 H12 IH H23].
  - split; [lia | ].
    split; [exists []; rewrite app_nil_r; apply Forall2_evolves_refl | ].
    auto.
  - destruct IH as (H & (l & F) & I & V & L).
    destruct (step_effect s2 s3 H23) as (H' & (l' & F') & I' & V' & L').
    split; [lia | ].
    split.
    { exists (l ++ l'). rewrite app_assoc.
      eapply Forall2_evolves_trans; [ | exact F'].
      apply Forall2_evolves_app, F. }
    split; [auto | ]. split; [auto | ].
    intros Hv W N. destruct (L Hv W N) as [W2 N2]. apply L'; auto.
Qed.

(** The clump the constructor leaves. *)
Lemma newBambooClump_sound (g0 : Rng.t) :
  harvestedPoles (fst (newBambooClump g0))
  = Z.of_nat (harvestedCount (poles (fst (newBambooClump g0)))) /\
  (valid g0 -> valid (snd (newBambooClump g0))) /\
  (valid g0 ->
   wellFormed (poles (fst (newBambooClump g0))) /\
   nonOverlapping (poles (fst (newBambooClump g0)))).
Proof.
  unfold newBambooClump.
  destruct (addNewPoles_counters 5 emptyClump g0) as [_ H].
  destruct (addNewPoles_appends 5 emptyClump g0) as (l & E & F).
  split.
  - rewrite H, E, harvestedCount_app by exact F. reflexivity.
  - split; [apply addNewPoles_preserves | ].
    intros Hg. apply addNewPoles_layout; [exact Hg | constructor | ].
    intros i j p q _ Hi. destruct i; discriminate.
Qed.

Lemma reachable_sound (g0 : Rng.t) (s : BambooClump * Rng.t) :
  reachable g0 s ->
  harvestedPoles (fst s) = Z.of_nat (harvestedCount (poles (fst s))) /\
  (valid g0 ->
   valid (snd s) /\
   wellFormed (poles (fst s)) /\ nonOverlapping (poles (fst s))).
Proof.
  intros R. unfold reachable in R.
  destruct (steps_effect _ _ R) as (_ & _ & I & V & L).
  destruct (newBambooClump_sound g0) as (I0 & V0 & L0).
  split; [auto | ].
  intros Hg. destruct (L0 Hg) as [W N]. split; [auto | ]. apply L; auto.
Qed.

Lemma distance_sym (p q : BambooPole) : distance p q = distance q p.
Proof. unfold distance. f_equal. ring. Qed.

(** C6.  Harvesting is irreversible and monotonic.  Along every history of
    a clump, through [update] and through the harvest scheduler,
    [harvestedPoles] never decreases, a pole that is harvested stays in the
    clump and stays harvested, and [harvestedPoles] never exceeds the number
    of poles ever created. *)
Theorem harvest_irreversible (g0 : Rng.t) (s s' : BambooClump * Rng.t) :
  reachable g0 s -> steps s s' ->
  (harvestedPoles (fst s) <= harvestedPoles (fst s'))%Z /\
  (forall i pole,
     nth_error (poles (fst s)) i = Some pole -> isHarvested pole = true ->
     exists pole',
       nth_error (poles (fst s')) i = Some pole' /\
       isHarvested pole' = true) /\
  (harvestedPoles (fst s') <= Z.of_nat (length (poles (fst s'))))%Z.
Proof.
  intros R S.
  destruct (reachable_sound g0 s R) as [I _].
  destruct (steps_effect s s' S) as (H & (l & F) & I' & _).
  split; [exact H | ]. split.
  - intros i pole Hi Hh.
    assert (Hi' : nth_error (poles (fst s) ++ l) i = Some pole).
    { rewrite nth_error_app1; [exact Hi | ].
      apply nth_error_Some. congruence. }
    destruct (Forall2_nth_l F i pole Hi') as (pole' & Hp & E).
    exists pole'. split; [exact Hp | ]. apply E, Hh.
  - rewrite (I' I). apply inj_le, harvestedCount_le_length.
Qed.

Lemma harvest_irreversible_witness :
  (harvestedPoles (fst (newBambooClump (const 0)))
   <= harvestedPoles
        (snd (fst (update 0.6 (fst (newBambooClump (const 0)))
                          (snd (newBambooClump (const 0)))))))%Z.
Proof.
  apply (harvest_irreversible (const 0)
           (fst (newBambooClump (const 0)), snd (newBambooClump (const 0)))
           (snd (fst (update 0.6 (fst (newBambooClump (const 0)))
                             (snd (newBambooClump (const 0))))),
            snd (update 0.6 (fst (newBambooClump (const 0)))
                        (snd (newBambooClump (const 0)))))).
  - unfold reachable. rewrite <- surjective_pairing. apply steps_refl.
  - eapply steps_next; [apply steps_refl | apply step_update].
Defined.

(** C4, as the code has it, for the schematic engine.  Under the contract
    of [Math.random], in every state a clump can reach through the
    constructor, [update] and the harvest scheduler, no two live stalks
    stand in each other: the distance between the centres of two distinct
    live stalks is at least the sum of their thicknesses. *)
Theorem stalks_never_overlap (g0 : Rng.t) (s : BambooClump * Rng.t) :
  valid g0 -> reachable g0 s ->
  forall (i j : nat) (p q : BambooPole),
    i <> j ->
    nth_error (poles (fst s)) i = Some p ->
    nth_error (poles (fst s)) j = Some q ->
    isHarvested p = false -> isHarvested q = false ->
    thickness p + thickness q <= distance p q.
Proof.
  intros Hg R.
  destruct (reachable_sound g0 s R) as [_ H].
  destruct (H Hg) as (_ & W & N).
  intros i j p q Hij Hi Hj Lp Lq.
  unfold wellFormed in W. rewrite Forall_forall in W.
  pose proof (W p (nth_error_In _ _ Hi)) as Wp.
  pose proof (W q (nth_error_In _ _ Hj)) as Wq.
  destruct (Nat.lt_total i j) as [Hlt | [Heq | Hgt]]; [ | contradiction | ].
  - pose proof (N i j p q Hlt Hi Hj Lp Lq). lra.
  - pose proof (N j i q p Hgt Hj Hi Lq Lp) as D.
    rewrite distance_sym in D. lra.
Qed.

End Histories.

(** ** The edges of the progress domain *)

Section Edges.
Import Schematic.

Lemma update_height (p : R) (c : BambooClump) (g : Rng.t) :
  height (fst (fst (update p c g))) = calculateHeight (Growth.clamp01 p).
Proof.
  destruct (update_effect p c g) as (E & _ & _ & _ & _ & T & _).
  rewrite E. unfold report. cbn [height]. rewrite T.
  unfold JS.Math_max. apply Rmax_right, calculateHeight_floor.
Qed.

Lemma update_currentPoles (p : R) (c : BambooClump) (g : Rng.t) :
  currentPoles (snd (fst (update p c g))) =
  Z.max (currentPoles c) (calculatePoleCount (Growth.clamp01 p)).
Proof. apply update_effect. Qed.

(** C2 as stated fails at progress 0: the pole count there is not the
    minimum 5, and the height there is not the minimum 0.5. *)
Lemma growth_edges_counterexample :
  calculateHeight (Growth.clamp01 0) <> 0.5 /\
  calculatePoleCount (Growth.clamp01 0) <> 5%Z.
Proof.
  rewrite clamp01_low by lra. rewrite calculatePoleCount_0.
  pose proof calculateHeight_0 as H.
  split; [lra | discriminate].
Qed.

End Edges.

(** ** Two concrete runs of the schematic engine *)

Section ConcreteRuns.
Import Rng Schematic.

(** An attempt that is accepted at once. *)
Lemma placeOne_accepts (st : Placing) (g : Rng.t) :
  (attempts st < maxAttempts)%nat ->
  validAgainst (fst (drawCandidate g)) (existingPositions st) = true ->
  placeOne st g =
  ({| attempts := S (attempts st);
      existingPositions :=
        existingPositions st ++ [footprintOf (fst (drawCandidate g))];
      placed :=
        placed st ++
        [fst (createPole (fst (drawCandidate g)) (snd (drawCandidate g)))] |},
   snd (createPole (fst (drawCandidate g)) (snd (drawCandidate g)))).
Proof.
  intros Ha Hv. unfold placeOne, bind. rewrite whileLoop_step.
  destruct (lt_dec (attempts st) maxAttempts) as [_ | Hn]; [ | lia].
  rewrite Hv. cbn [validPosition candidate attemptsCounter].
  destruct (createPole (fst (drawCandidate g)) (snd (drawCandidate g)))
    as [pole g2]. reflexivity.
Qed.

Lemma candidate_rejects_itself (u : R) (f : Footprint) :
  0 <= u < 1 ->
  fp_x f = cx (fst (drawCandidate (const u))) ->
  fp_z f = cz (fst (drawCandidate (const u))) ->
  0 <= fp_radius f ->
  validAgainst (fst (drawCandidate (const u))) [f] = false.
Proof.
  intros Hu Hx Hz Hr. unfold validAgainst. cbn [existsb].
  rewrite overlaps_same_place; [reflexivity | exact Hx | exact Hz | ].
  pose proof (drawCandidate_thickness (const u) (valid_const u Hu)). lra.
Qed.

(** On a constant stream the constructor places one pole and then spends
    its whole budget on candidates that fall on that pole. *)
Lemma newBambooClump_const (u : R) :
  0 <= u < 1 ->
  poles (fst (newBambooClump (const u))) = [onlyPole u] /\
  currentPoles (fst (newBambooClump (const u))) = 5%Z /\
  harvestedPoles (fst (newBambooClump (const u))) = 0%Z /\
  snd (newBambooClump (const u)) = const u.
Proof.
  intros Hu. unfold newBambooClump, addNewPoles, bind.
  change (Z.to_nat 5) with 5%nat.
  change (forLoop 5 (startPlacing emptyClump) (const u))
    with (let (st', g') := placeOne (startPlacing emptyClump) (const u) in
          forLoop 4 st' g').
  rewrite placeOne_accepts;
    [ | unfold startPlacing, maxAttempts; simpl; lia | reflexivity].
  change (snd (drawCandidate (const u))) with (const u).
  change (snd (createPole (fst (drawCandidate (const u))) (const u)))
    with (const u).
  match goal with
  | |- context [forLoop 4 ?st (const u)] =>
      destruct (forLoop_const_rejects 4 u st) as [P G]
  end.
  { cbn [existingPositions startPlacing existingOf poles emptyClump
         filter map app].
    apply candidate_rejects_itself; try reflexivity; [exact Hu | ].
    unfold footprintOf. cbn [fp_radius].
    pose proof (drawCandidate_thickness (const u) (valid_const u Hu)). lra. }
  destruct (forLoop 4 _ (const u)) as [st g']. cbn [fst snd] in *.
  subst g'. rewrite P. cbn. auto.
Qed.

Lemma existingOf_onlyPole (u : R) :
  existingOf [onlyPole u] =
  [{| fp_x := position_x (mesh (onlyPole u));
      fp_z := position_z (mesh (onlyPole u));
      fp_radius := radiusBottom (mesh (onlyPole u)) * 1.2 |}].
Proof. reflexivity. Qed.

(** A clump that holds only that pole takes no further pole on the same
    stream. *)
Lemma addNewPoles_const_full (u : R) (count : Z) (c : BambooClump) :
  0 <= u < 1 ->
  poles c = [onlyPole u] ->
  poles (fst (addNewPoles count c (const u))) = [onlyPole u] /\
  snd (addNewPoles count c (const u)) = const u.
Proof.
  intros Hu Hc. unfold addNewPoles, bind.
  destruct (forLoop_const_rejects (Z.to_nat count) u (startPlacing c))
    as [P G].
  { unfold startPlacing. cbn [existingPositions]. rewrite Hc.
    rewrite existingOf_onlyPole.
    apply candidate_rejects_itself; try reflexivity; [exact Hu | ].
    cbn [fp_radius].
    pose proof (drawCandidate_thickness (const u) (valid_const u Hu)) as T.
    pose proof (createPole_radiusBottom (fst (drawCandidate (const u)))
                  (const u) (valid_const u Hu)) as B.
    fold (onlyPole u) in B. lra. }
  destruct (forLoop (Z.to_nat count) (startPlacing c) (const u)) as [st g'].
  cbn [fst snd] in *. rewrite P. unfold startPlacing. cbn. auto.
Qed.

Lemma drawCandidate_const_0 :
  cx (fst (drawCandidate (const 0))) = 0 /\
  cz (fst (drawCandidate (const 0))) = 0 /\
  cthickness (fst (drawCandidate (const 0))) = 0.06.
Proof.
  unfold drawCandidate, bind, Math_random, ret, const. cbn [fst snd].
  rewrite (ltb_true 0 0.3) by lra.
  rewrite (ltb_true (0 * 0.6) 0.6) by lra.
  cbn [cx cz cthickness]. split; [ring | split; [ring | lra] ].
Qed.

Lemma drawCandidate_const_half :
  cthickness (fst (drawCandidate (const (1 / 2)))) = 0.15.
Proof.
  unfold drawCandidate, bind, Math_random, ret, const. cbn [fst snd].
  rewrite (ltb_false (1 / 2) 0.3) by lra.
  rewrite (ltb_false (0.8 + 1 / 2 * 1.0) 0.6) by lra.
  cbn [cthickness]. lra.
Qed.

(** [update(0)] on the clump the constructor built from the all-zero
    stream. *)
Lemma update_0_after_const_0 :
  poleCount (fst (fst (update 0 (fst (newBambooClump (const 0))) (const 0))))
  = 6%Z /\
  length (poles (snd (fst (update 0 (fst (newBambooClump (const 0)))
                                  (const 0)))))
  = 1%nat.
Proof.
  assert (Hu : 0 <= 0 < 1) by lra.
  destruct (newBambooClump_const 0 Hu) as (P0 & C0 & H0 & _).
  set (c := fst (newBambooClump (const 0))) in *.
  destruct (update_stages 0 c (const 0))
    as (c1 & g1 & ps & g3 & E1 & E3 & EU).
  rewrite EU. cbn [fst snd].
  rewrite (clamp01_low 0) in * by lra.
  rewrite calculatePoleCount_0, C0 in E1. cbn [Z.gtb Z.compare Pos.compare
    Pos.compare_cont] in E1.
  assert (A : poles c1 = [onlyPole 0] /\ g1 = const 0 /\
              currentPoles c1 = 6%Z /\ harvestedPoles c1 = 0%Z).
  { destruct (addNewPoles_const_full 0 (6 - 5)
                (setGrowth 0 (calculateHeight 0) c) Hu P0) as [A1 A2].
    destruct (addNewPoles_counters (6 - 5)
                (setGrowth 0 (calculateHeight 0) c) (const 0)) as [A3 A4].
    rewrite E1 in A1, A2, A3, A4. cbn [fst snd] in *.
    cbn [currentPoles harvestedPoles setGrowth] in A3, A4.
    rewrite C0 in A3. rewrite H0 in A4. auto. }
  destruct A as (P1 & G1 & C1 & H1).
  assert (B : JS.ltb (g1 0%nat) 0.02 && JS.gtb 0 0.5 = false).
  { unfold JS.gtb. rewrite (ltb_false 0.5 0) by lra. apply andb_false_r. }
  rewrite B in *.
  pose proof (forEach_growPole 0 (calculateHeight 0) (poles c1)
                (fun n => g1 (S n))) as F.
  rewrite E3 in F. cbn [fst] in F. apply Forall2_length in F.
  rewrite P1 in F.
  unfold report. cbn [poleCount poles setPoles currentPoles harvestedPoles].
  rewrite C1, H1. split; [reflexivity | ]. rewrite <- F. reflexivity.
Qed.

(** C10.  [addNewPoles(count)] adds the whole of [count] to [currentPoles],
    whatever the placement loop managed to place; the pole count [update]
    returns is [max(5, currentPoles - harvestedPoles)]; and that count can
    exceed the pole records that exist: on the all-zero stream of draws the
    constructor counts 5 poles and holds one record, and [update(0)] then
    reports 6 poles while the clump still holds one record. *)
Theorem poleCount_counts_requests :
  (forall (count : Z) (c : BambooClump) (g : Rng.t),
     currentPoles (fst (addNewPoles count c g)) = (currentPoles c + count)%Z) /\
  (forall (p : R) (c : BambooClump) (g : Rng.t),
     poleCount (fst (fst (update p c g))) =
     Z.max 5 (currentPoles (snd (fst (update p c g)))
              - harvestedPoles (snd (fst (update p c g))))) /\
  (currentPoles (fst (newBambooClump (const 0))) = 5%Z /\
   length (poles (fst (newBambooClump (const 0)))) = 1%nat) /\
  (poleCount (fst (fst (update 0 (fst (newBambooClump (const 0)))
                               (snd (newBambooClump (const 0))))))
   = 6%Z /\
   length (poles (snd (fst (update 0 (fst (newBambooClump (const 0)))
                                   (snd (newBambooClump (const 0)))))))
   = 1%nat).
Proof.
  assert (Hu : 0 <= 0 < 1) by lra.
  destruct (newBambooClump_const 0 Hu) as (P0 & C0 & H0 & G0).
  split; [intros count c g; apply addNewPoles_counters | ].
  split.
  { intros p c g. destruct (update_effect p c g) as (E & _).
    rewrite E. reflexivity. }
  split; [rewrite P0; auto | ].
  rewrite G0. apply update_0_after_const_0.
Qed.

End ConcreteRuns.

(** ** Two stalks closer than their footprints *)

Section CloseStalks.
Import Rng Schematic.

Lemma drawCandidate_prefixed (a b c d : R) (rest : list R) (u : R) :
  fst (drawCandidate (prefixed (a :: b :: c :: d :: rest) u)) =
  {| cx := cos (c * PI * 2) * (if JS.ltb a 0.3 then b * 0.6 else 0.8 + b * 1.0);
     cz := sin (c * PI * 2) * (if JS.ltb a 0.3 then b * 0.6 else 0.8 + b * 1.0);
     cthickness :=
       if JS.ltb (if JS.ltb a 0.3 then b * 0.6 else 0.8 + b * 1.0) 0.6
       then 0.06 + d * 0.04 else 0.12 + d * 0.06 |} /\
  snd (drawCandidate (prefixed (a :: b :: c :: d :: rest) u))
  = prefixed rest u.
Proof. split; reflexivity. Qed.

Lemma createPole_radiusBottom_eq (c : Candidate) (g : Rng.t) :
  radiusBottom (mesh (fst (createPole c g)))
  = cthickness c * (1.1 + g 2%nat * 0.2).
Proof. reflexivity. Qed.

Lemma closeDraws_valid : valid closeDraws.
Proof.
  apply valid_prefixed; [ | lra].
  repeat (constructor; [lra | ]). constructor.
Qed.

Lemma first_candidate :
  cx firstClose = 0 /\ cz firstClose = 0 /\ cthickness firstClose = 0.06.
Proof.
  unfold firstClose, closeDraws. cbn [app].
  rewrite (proj1 (drawCandidate_prefixed _ _ _ _ _ _)).
  rewrite (ltb_true 0 0.3) by lra.
  rewrite (ltb_true (0 * 0.6) 0.6) by lra.
  cbn [cx cz cthickness]. split; [ring | split; [ring | lra] ].
Qed.

Lemma second_candidate :
  cx secondClose = 0.135 /\ cz secondClose = 0 /\ cthickness secondClose = 0.06.
Proof.
  unfold secondClose, laterDraws. cbn [app].
  rewrite (proj1 (drawCandidate_prefixed _ _ _ _ _ _)).
  rewrite (ltb_true 0 0.3) by lra.
  rewrite (ltb_true (0.225 * 0.6) 0.6) by lra.
  replace (0 * PI * 2) with 0 by ring. rewrite cos_0, sin_0.
  cbn [cx cz cthickness]. split; [lra | split; [ring | lra] ].
Qed.

Lemma second_clears_first :
  validAgainst secondClose [footprintOf firstClose] = true.
Proof.
  destruct first_candidate as (X1 & Z1 & T1).
  destruct second_candidate as (X2 & Z2 & T2).
  unfold validAgainst, overlaps, footprintOf, JS.Math_sqrt.
  cbn [existsb fp_x fp_z fp_radius].
  rewrite X1, Z1, T1, X2, Z2, T2.
  replace ((0.135 - 0) * (0.135 - 0) + (0 - 0) * (0 - 0))
    with (0.135 * 0.135) by ring.
  rewrite sqrt_square by lra.
  rewrite ltb_false by lra. reflexivity.
Qed.

Lemma third_hits_first :
  validAgainst (fst (drawCandidate (const 0)))
               [footprintOf firstClose; footprintOf secondClose] = false.
Proof.
  destruct first_candidate as (X1 & Z1 & T1).
  destruct drawCandidate_const_0 as (X0 & Z0 & T0).
  unfold validAgainst. cbn [existsb].
  rewrite overlaps_same_place; [reflexivity | | | ].
  - cbn [fp_x footprintOf]. congruence.
  - cbn [fp_z footprintOf]. congruence.
  - cbn [fp_radius footprintOf]. rewrite T0, T1. lra.
Qed.

(** On [closeDraws] the constructor places the two close stalks and then
    uses up its budget. *)
Lemma newBambooClump_closeDraws :
  poles (fst (newBambooClump closeDraws)) =
  [fst (createPole firstClose (snd (drawCandidate closeDraws)));
   fst (createPole secondClose (snd (drawCandidate laterDraws)))].
Proof.
  unfold newBambooClump, addNewPoles, bind.
  change (Z.to_nat 5) with 5%nat.
  change (forLoop 5 (startPlacing emptyClump) closeDraws)
    with (let (st', g') := placeOne (startPlacing emptyClump) closeDraws in
          forLoop 4 st' g').
  rewrite placeOne_accepts;
    [ | unfold startPlacing, maxAttempts; simpl; lia | reflexivity].
  fold firstClose.
  change (snd (createPole firstClose (snd (drawCandidate closeDraws))))
    with laterDraws.
  set (p1 := fst (createPole firstClose (snd (drawCandidate closeDraws)))).
  cbn [attempts existingPositions placed startPlacing existingOf poles
       emptyClump filter map app].
  match goal with
  | |- context [forLoop 4 ?st laterDraws] =>
      change (forLoop 4 st laterDraws)
        with (let (st', g') := placeOne st laterDraws in forLoop 3 st' g')
  end.
  rewrite placeOne_accepts;
    [ | unfold maxAttempts; simpl; lia | apply second_clears_first].
  fold secondClose.
  change (snd (createPole secondClose (snd (drawCandidate laterDraws))))
    with (const 0).
  set (p2 := fst (createPole secondClose (snd (drawCandidate laterDraws)))).
  cbn [attempts existingPositions placed app].
  match goal with
  | |- context [forLoop 3 ?st (const 0)] =>
      destruct (forLoop_const_rejects 3 0 st) as [P G]
  end.
  { cbn [existingPositions]. apply third_hits_first. }
  destruct (forLoop 3 _ (const 0)) as [st g']. cbn [fst snd] in *.
  rewrite P. reflexivity.
Qed.

(** On [closeDraws], draws that [Math.random] can return, the constructor
    leaves two live stalks 0.135 apart whose footprints, as the code
    records them (1.2 times the thickness), are 0.072 each, and whose base
    radii are 0.072 each. *)
Lemma close_stalks_overlap :
  valid closeDraws /\
  exists p q : BambooPole,
    nth_error (poles (fst (newBambooClump closeDraws))) 0 = Some p /\
    nth_error (poles (fst (newBambooClump closeDraws))) 1 = Some q /\
    isHarvested p = false /\ isHarvested q = false /\
    distance p q = 0.135 /\
    thickness p * 1.2 + thickness q * 1.2 = 0.144 /\
    radiusBottom (mesh p) + radiusBottom (mesh q) = 0.144.
Proof.
  split; [apply closeDraws_valid | ].
  rewrite newBambooClump_closeDraws.
  destruct first_candidate as (X1 & Z1 & T1).
  destruct second_candidate as (X2 & Z2 & T2).
  eexists _, _. split; [reflexivity | ]. split; [reflexivity | ].
  destruct (createPole_fields firstClose (snd (drawCandidate closeDraws)))
    as (Px & Pz & Pt & Ph).
  destruct (createPole_fields secondClose (snd (drawCandidate laterDraws)))
    as (Qx & Qz & Qt & Qh).
  split; [exact Ph | ]. split; [exact Qh | ].
  split.
  { unfold distance, JS.Math_sqrt. rewrite Px, Pz, Qx, Qz, X1, Z1, X2, Z2.
    replace ((0.135 - 0) * (0.135 - 0) + (0 - 0) * (0 - 0))
      with (0.135 * 0.135) by ring.
    apply sqrt_square. lra. }
  split; [rewrite Pt, Qt, T1, T2; lra | ].
  rewrite !createPole_radiusBottom_eq, T1, T2.
  change (snd (drawCandidate closeDraws) 2%nat) with (1 / 2).
  change (snd (drawCandidate laterDraws) 2%nat) with (1 / 2).
  lra.
Qed.

Lemma stalks_never_overlap_witness :
  exists p q : BambooPole,
    nth_error (poles (fst (newBambooClump closeDraws))) 0 = Some p /\
    nth_error (poles (fst (newBambooClump closeDraws))) 1 = Some q /\
    isHarvested p = false /\ isHarvested q = false /\
    distance p q = 0.135 /\
    thickness p + thickness q <= distance p q.
Proof.
  destruct close_stalks_overlap as (V & p & q & Hp & Hq & Lp & Lq & D & _).
  exists p, q.
  split; [exact Hp | ]. split; [exact Hq | ].
  split; [exact Lp | ]. split; [exact Lq | ]. split; [exact D | ].
  apply (stalks_never_overlap closeDraws
           (fst (newBambooClump closeDraws), snd (newBambooClump closeDraws))
           V) with (i := 0%nat) (j := 1%nat);
    [ | lia | assumption ..].
  unfold reachable. rewrite <- surjective_pairing. apply steps_refl.
Defined.

End CloseStalks.

(** ** Reproducibility of the layout *)

Section Reproducibility.
Import Rng.

Lemma onlyPole_thickness (u : R) :
  Schematic.thickness (Schematic.onlyPole u)
  = Schematic.cthickness (fst (Schematic.drawCandidate (const u))).
Proof. reflexivity. Qed.

(** C1 as stated fails on the schematic engine: two runs of the constructor
    that receive different draws from [Math.random] lay out different
    stalks (a thickness of 0.06 against one of 0.15). *)
Lemma schematic_layout_counterexample :
  Schematic.stalkLayout (fst (Schematic.newBambooClump (const 0))) <>
  Schematic.stalkLayout (fst (Schematic.newBambooClump (const (1 / 2)))).
Proof.
  unfold Schematic.stalkLayout.
  destruct (newBambooClump_const 0) as (P0 & _); [lra | ].
  destruct (newBambooClump_const (1 / 2)) as (P1 & _); [lra | ].
  rewrite P0, P1. cbn [map]. intros H.
  assert (T : Schematic.thickness (Schematic.onlyPole 0)
              = Schematic.thickness (Schematic.onlyPole (1 / 2)))
    by congruence.
  clear H. rewrite !onlyPole_thickness in T.
  destruct drawCandidate_const_0 as (_ & _ & T0).
  rewrite T0, drawCandidate_const_half in T. lra.
Qed.

Lemma stalkAt_thickness (progress clumpSeed cLat cLng : R) (p : nat) :
  Geo.thickness (Geo.stalkAt progress clumpSeed cLat cLng p) =
  0.06 + Geo.seededRandom (clumpSeed + INR p * 10 + 4) * 0.08
  + progress * 0.06.
Proof. reflexivity. Qed.

Lemma layout_thicknesses (plot : Geo.Plot) (year : R) :
  Geo.thicknesses (Geo.layout plot year) =
  map (fun i =>
         map (fun p =>
                0.06
                + Geo.seededRandom
                    (Geo.plotSeedOf plot + INR i * 100 + INR p * 10 + 4)
                  * 0.08
                + Geo.progressOf year * 0.06)
             (seq 0 (Z.to_nat
                       (Z.min (Geo.poleCountPerClump (Geo.progressOf year))
                              12))))
      (seq 0 (Z.to_nat
                (Z.min
                   (JS.Math_floor
                      (JS.Math_sqrt (Geo.areaHectares plot * 10000) / 8)
                    * JS.Math_floor
                        (JS.Math_sqrt (Geo.areaHectares plot * 10000) / 8))
                   (JS.Math_round (Geo.areaHectares plot * 150))))).
Proof.
  unfold Geo.thicknesses, Geo.layout. rewrite map_map.
  apply map_ext. intros i. unfold Geo.clumpAt. cbn [Geo.stalks].
  rewrite map_map. apply map_ext. intros p. apply stalkAt_thickness.
Qed.

Lemma layout_as_map (plot : Geo.Plot) (year : R) :
  exists (n : nat) (g : Z),
    n = length (Geo.layout plot year) /\
    Geo.layout plot year
    = map (Geo.clumpAt plot (Geo.progressOf year) (Geo.plotSeedOf plot) g)
          (seq 0 n) /\
    forall plot' : Geo.Plot,
      Geo.plotSeedOf plot = Geo.plotSeedOf plot' ->
      Geo.areaHectares plot = Geo.areaHectares plot' ->
      Geo.layout plot' year
      = map (Geo.clumpAt plot' (Geo.progressOf year) (Geo.plotSeedOf plot) g)
            (seq 0 n).
Proof.
  eexists _, _. split; [ | split; [reflexivity | ] ].
  - unfold Geo.layout. rewrite length_map, length_seq. reflexivity.
  - intros plot' Hs Ha. unfold Geo.layout. rewrite <- Hs, <- Ha. reflexivity.
Qed.

Lemma clumpAt_northShape (plot plot' : Geo.Plot) (progress seed : R) (g : Z)
      (i : nat) :
  (Geo.clumpLat (Geo.clumpAt plot progress seed g i) - Geo.latitude plot,
   map (fun s => (Geo.poleLat s - Geo.latitude plot,
                  Geo.poleHeight s, Geo.thickness s))
       (Geo.stalks (Geo.clumpAt plot progress seed g i)))
  = (Geo.clumpLat (Geo.clumpAt plot' progress seed g i) - Geo.latitude plot',
     map (fun s => (Geo.poleLat s - Geo.latitude plot',
                    Geo.poleHeight s, Geo.thickness s))
         (Geo.stalks (Geo.clumpAt plot' progress seed g i))).
Proof.
  unfold Geo.clumpAt. cbn [Geo.clumpLat Geo.stalks].
  f_equal; [ring | ].
  rewrite !map_map. apply map_ext. intros p.
  unfold Geo.stalkAt. cbn [Geo.poleLat Geo.poleHeight Geo.thickness].
  f_equal. f_equal. ring.
Qed.

Lemma clumpAt_shape (plot plot' : Geo.Plot) (progress seed : R) (g : Z)
      (i : nat) :
  Geo.latitude plot = Geo.latitude plot' ->
  (Geo.clumpLat (Geo.clumpAt plot progress seed g i) - Geo.latitude plot,
   Geo.clumpLng (Geo.clumpAt plot progress seed g i) - Geo.longitude plot,
   map (Terrain.stalkShape plot)
       (Geo.stalks (Geo.clumpAt plot progress seed g i)))
  = (Geo.clumpLat (Geo.clumpAt plot' progress seed g i) - Geo.latitude plot',
     Geo.clumpLng (Geo.clumpAt plot' progress seed g i) - Geo.longitude plot',
     map (Terrain.stalkShape plot')
         (Geo.stalks (Geo.clumpAt plot' progress seed g i))).
Proof.
  intros HL. unfold Geo.clumpAt. cbn [Geo.clumpLat Geo.clumpLng Geo.stalks].
  rewrite <- HL.
  f_equal; [f_equal; ring | ].
  rewrite !map_map. apply map_ext. intros p.
  unfold Terrain.stalkShape, Geo.stalkAt.
  cbn [Geo.poleLat Geo.poleLng Geo.poleHeight Geo.thickness].
  rewrite <- HL. f_equal. f_equal. f_equal; ring.
Qed.

(** C1, as the code has it.  The geo-referenced layout is a function of the
    plot seed, the area and the year, laid around the position of the
    plot.  For two plots with the same seed and the same area, in the same
    year, [addBambooPlants] draws the same number of clumps with the same
    numbers of stalks, every clump and stalk at the same offset to the
    north of the plot's position, every stalk with the same height and
    thickness; when the plots also share their latitude, the offsets to
    the east are the same too.  Its own code takes no draw from the system
    random source, so two invocations for one plot and year place the same
    stalks whatever that source returns. *)
Theorem geo_layout_deterministic (plot plot' : Geo.Plot) (year : R) :
  Geo.plotSeedOf plot = Geo.plotSeedOf plot' ->
  Geo.areaHectares plot = Geo.areaHectares plot' ->
  length (Geo.layout plot year) = length (Geo.layout plot' year) /\
  Terrain.northShape plot (Geo.layout plot year)
  = Terrain.northShape plot' (Geo.layout plot' year) /\
  Geo.thicknesses (Geo.layout plot year)
  = Geo.thicknesses (Geo.layout plot' year) /\
  (Geo.latitude plot = Geo.latitude plot' ->
   Terrain.shape plot (Geo.layout plot year)
   = Terrain.shape plot' (Geo.layout plot' year)) /\
  (forall g1 g2 : Rng.t,
     fst (Geo.addBambooPlants plot year g1) = Geo.layout plot year /\
     fst (Geo.addBambooPlants plot year g2) = Geo.layout plot year /\
     snd (Geo.addBambooPlants plot year g1) = g1).
Proof.
  intros Hs Ha.
  destruct (layout_as_map plot year) as (n & g & _ & E & E').
  specialize (E' plot' Hs Ha).
  split; [rewrite E, E', !length_map; reflexivity | ].
  split.
  { unfold Terrain.northShape. rewrite E, E', !map_map.
    apply map_ext. intros i. apply clumpAt_northShape. }
  split.
  { rewrite !layout_thicknesses, Hs, Ha. reflexivity. }
  split.
  { intros HL. unfold Terrain.shape. rewrite E, E', !map_map.
    apply map_ext. intros i. apply clumpAt_shape, HL. }
  intros g1 g2. repeat split.
Qed.

Lemma geo_layout_deterministic_witness :
  Terrain.northShape
    {| Geo.latitude := 1; Geo.longitude := 2; Geo.areaHectares := 1 |}
    (Geo.layout
       {| Geo.latitude := 1; Geo.longitude := 2; Geo.areaHectares := 1 |}
       2030)
  = Terrain.northShape
      {| Geo.latitude := 2; Geo.longitude := 1; Geo.areaHectares := 1 |}
      (Geo.layout
         {| Geo.latitude := 2; Geo.longitude := 1; Geo.areaHectares := 1 |}
         2030) /\
  Terrain.shape
    {| Geo.latitude := 1; Geo.longitude := 2; Geo.areaHectares := 1 |}
    (Geo.layout
       {| Geo.latitude := 1; Geo.longitude := 2; Geo.areaHectares := 1 |}
       2030)
  = Terrain.shape
      {| Geo.latitude := 1; Geo.longitude := -4; Geo.areaHectares := 1 |}
      (Geo.layout
         {| Geo.latitude := 1; Geo.longitude := -4; Geo.areaHectares := 1 |}
         2030).
Proof.
  split.
  - apply (geo_layout_deterministic
             {| Geo.latitude := 1; Geo.longitude := 2;
                Geo.areaHectares := 1 |}
             {| Geo.latitude := 2; Geo.longitude := 1;
                Geo.areaHectares := 1 |} 2030).
    + unfold Geo.plotSeedOf. cbn [Geo.latitude Geo.longitude].
      f_equal. lra.
    + reflexivity.
  - apply (geo_layout_deterministic
             {| Geo.latitude := 1; Geo.longitude := 2;
                Geo.areaHectares := 1 |}
             {| Geo.latitude := 1; Geo.longitude := -4;
                Geo.areaHectares := 1 |} 2030).
    + unfold Geo.plotSeedOf, JS.Math_abs.
      cbn [Geo.latitude Geo.longitude].
      unfold Rabs.
      destruct (Rcase_abs (1 * 1000 + 2 * 1000)),
               (Rcase_abs (1 * 1000 + -4 * 1000)); lra.
    + reflexivity.
    + reflexivity.
Defined.

End Reproducibility.

(** ** Degenerate inputs of the derivations *)

Section DegenerateInputs.
Import Economics.

Lemma update_carbon_nonneg (p : R) (c : Schematic.BambooClump) (g : Rng.t) :
  0 <= Schematic.carbon (fst (fst (Schematic.update p c g))).
Proof.
  destruct (update_effect p c g) as (E & _). rewrite E.
  unfold Schematic.report. cbn [Schematic.carbon].
  unfold JS.Math_max. apply Rmax_l.
Qed.

Lemma incomes_nonneg (plot : Geo.Plot) (year : R) :
  0 <= Geo.areaHectares plot ->
  0 <= carbonIncome (figures plot year) /\
  0 <= harvestIncome (figures plot year).
Proof.
  intros Ha.
  pose proof (progress_range plot year) as [P0 P1].
  pose proof (harvestablePoles_nonneg plot year Ha) as Hh.
  destruct (figures_incomes plot year) as (Ec & Eh).
  rewrite Ec, Eh. unfold carbonRatePerHaPerYear, carbonRatePerHa,
    carbonPricePerTon, polePrice.
  apply IZR_le in Hh. split.
  - assert (0 <= Geo.areaHectares plot * progress (figures plot year))
      by (apply Rmult_le_pos; assumption).
    nra.
  - lra.
Qed.

Lemma incomes_zero_area (plot : Geo.Plot) (year : R) :
  Geo.areaHectares plot = 0 ->
  carbonIncome (figures plot year) = 0 /\
  harvestIncome (figures plot year) = 0.
Proof.
  intros Ha. simpl. rewrite Ha. split; [ring | ].
  replace (0 * clumpsPerHa) with 0 by ring. rewrite Math_round_0.
  destruct (JS.geb _ _); simpl; ring.
Qed.

(** C7, as the code has it.  The carbon figure is 0 for height 0 and pole
    count 0, and whenever either of them is 0; it is non-negative for
    non-negative inputs, and the carbon [update] returns is never negative.
    The income figures are 0 for a plot of area 0 and non-negative for a
    plot of non-negative area. *)
Theorem derivations_on_degenerate_inputs :
  Schematic.calculateCarbon 0 0 = 0 /\
  (forall h n : R, h = 0 \/ n = 0 -> Schematic.calculateCarbon h n = 0) /\
  (forall h n : R, 0 <= h -> 0 <= n -> 0 <= Schematic.calculateCarbon h n) /\
  (forall (p : R) (c : Schematic.BambooClump) (g : Rng.t),
     0 <= Schematic.carbon (fst (fst (Schematic.update p c g)))) /\
  (forall (plot : Geo.Plot) (year : R),
     Geo.areaHectares plot = 0 ->
     carbonIncome (figures plot year) = 0 /\
     harvestIncome (figures plot year) = 0) /\
  (forall (plot : Geo.Plot) (year : R),
     0 <= Geo.areaHectares plot ->
     0 <= carbonIncome (figures plot year) /\
     0 <= harvestIncome (figures plot year)).
Proof.
  split; [apply calculateCarbon_zero; left; reflexivity | ].
  split; [apply calculateCarbon_zero | ].
  split; [apply calculateCarbon_nonneg | ].
  split; [apply update_carbon_nonneg | ].
  split; [apply incomes_zero_area | apply incomes_nonneg].
Qed.

Lemma derivations_on_degenerate_inputs_witness :
  carbonIncome
    (figures {| Geo.latitude := 8; Geo.longitude := 124;
                Geo.areaHectares := 0 |} 2032) = 0 /\
  harvestIncome
    (figures {| Geo.latitude := 8; Geo.longitude := 124;
                Geo.areaHectares := 0 |} 2032) = 0.
Proof.
  apply (proj1 (proj2 (proj2 (proj2 (proj2
           derivations_on_degenerate_inputs))))).
  reflexivity.
Defined.

(** C7 as stated fails for a negative plot area: for a plot of -1 ha in
    2032 the card shows a carbon income of -2625 and a harvest income of
    -30000, not 0. *)
Lemma negative_area_counterexample :
  carbonIncome
    (figures {| Geo.latitude := 8; Geo.longitude := 124;
                Geo.areaHectares := -1 |} 2032) = -2625 /\
  harvestIncome
    (figures {| Geo.latitude := 8; Geo.longitude := 124;
                Geo.areaHectares := -1 |} 2032) = -30000.
Proof.
  cbn [figures carbonIncome harvestIncome Geo.areaHectares].
  unfold plantingYear, harvestStartYear, carbonRatePerHa, carbonPricePerTon,
    clumpsPerHa, harvestablePolesPerClumpPerYear, polePrice.
  assert (Y : JS.Math_max 0 (2032 - 2026) = 6)
    by (unfold JS.Math_max; rewrite Rmax_right by lra; lra).
  rewrite Y.
  assert (P : JS.Math_min 1 (6 / 6) = 1)
    by (unfold JS.Math_min; rewrite Rmin_left by lra; lra).
  rewrite P.
  assert (H : JS.geb 6 5 = true) by (apply leb_spec; lra).
  rewrite H.
  assert (C : JS.Math_round (-1 * 150) = (-150)%Z)
    by (unfold JS.Math_round; apply Zfloor_eq; lra).
  rewrite C. split; [lra | ].
  change (-150 * 20)%Z with (-3000)%Z. lra.
Qed.

End DegenerateInputs.

(** * Further properties of the code *)

(** ** Attribute ranges of the poles *)

Section PoleRanges.
Import Rng Schematic Ranges.

Lemma sqrt_polar (a r : R) :
  0 <= r -> sqrt (cos a * r * (cos a * r) + sin a * r * (sin a * r)) = r.
Proof.
  intros Hr.
  replace (cos a * r * (cos a * r) + sin a * r * (sin a * r))
    with ((Rsqr (sin a) + Rsqr (cos a)) * (r * r)) by (unfold Rsqr; ring).
  rewrite sin2_cos2, Rmult_1_l. apply sqrt_square, Hr.
Qed.

Lemma drawCandidate_bucketed (g : Rng.t) :
  valid g ->
  bucketed (candidateFromCentre (fst (drawCandidate g)))
           (cthickness (fst (drawCandidate g))).
Proof.
  intros Hg.
  pose proof (Hg 0%nat) as H0. pose proof (Hg 1%nat) as H1.
  pose proof (Hg 3%nat) as H3.
  unfold drawCandidate, bind, Math_random, ret, candidateFromCentre,
    JS.Math_sqrt, JS.Math_cos, JS.Math_sin. cbn [fst snd cx cz cthickness].
  destruct (JS.ltb (g 0%nat) 0.3).
  - rewrite sqrt_polar by lra.
    rewrite (ltb_true (g 1%nat * 0.6) 0.6) by lra.
    left. lra.
  - rewrite sqrt_polar by lra.
    rewrite (ltb_false (0.8 + g 1%nat * 1.0) 0.6) by lra.
    right. lra.
Qed.

(** A property of every drawn candidate holds for the candidate the retry
    loop accepts. *)
Lemma whileLoop_candidate (P : Candidate -> Prop) (existing : list Footprint)
      (a : nat) :
  (forall g, valid g -> P (fst (drawCandidate g))) ->
  forall (last : Candidate) (g : Rng.t),
  valid g ->
  validPosition (fst (whileLoop existing last a g)) = true ->
  P (candidate (fst (whileLoop existing last a g))).
Proof.
  intros HP.
  induction a as [a Ha | a Ha IH] using budget_ind; intros last g Hg;
    rewrite whileLoop_step.
  - destruct (lt_dec a maxAttempts) as [Hlt | _]; [lia | ].
    cbn. discriminate.
  - destruct (lt_dec a maxAttempts) as [_ | Hn]; [ | lia].
    destruct (validAgainst (fst (drawCandidate g)) existing).
    + cbn. intros _. apply HP, Hg.
    + apply IH, drawCandidate_preserves, Hg.
Qed.

(** A property that every freshly built pole has is kept by one iteration of
    the placement loop, and so by [addNewPoles]. *)
Lemma placeOne_Forall (P : Candidate -> Prop) (Q : BambooPole -> Prop)
      (st : Placing) (g : Rng.t) :
  (forall g, valid g -> P (fst (drawCandidate g))) ->
  (forall c g, valid g -> P c -> Q (fst (createPole c g))) ->
  valid g -> Forall Q (placed st) ->
  Forall Q (placed (fst (placeOne st g))).
Proof.
  intros HP HQ Hg F. unfold placeOne, bind.
  pose proof (whileLoop_candidate P (existingPositions st) (attempts st) HP
                noCandidate g Hg) as C.
  pose proof (whileLoop_spec (existingPositions st) (attempts st)
                noCandidate g) as (V & _).
  destruct (whileLoop (existingPositions st) noCandidate (attempts st) g)
    as [tried g1]. cbn [fst snd] in *.
  destruct (validPosition tried).
  - specialize (HQ (candidate tried) g1 (V Hg) (C eq_refl)).
    destruct (createPole (candidate tried) g1) as [pole g2].
    cbn [fst snd ret placed] in *.
    apply Forall_app. split; [exact F | constructor; [exact HQ | constructor] ].
  - cbn [fst ret placed]. exact F.
Qed.

Lemma addNewPoles_Forall (P : Candidate -> Prop) (Q : BambooPole -> Prop)
      (count : Z) (c : BambooClump) (g : Rng.t) :
  (forall g, valid g -> P (fst (drawCandidate g))) ->
  (forall c g, valid g -> P c -> Q (fst (createPole c g))) ->
  valid g -> Forall Q (poles c) ->
  Forall Q (poles (fst (addNewPoles count c g))).
Proof.
  intros HP HQ Hg F. rewrite addNewPoles_poles.
  apply (forLoop_invariant (fun st g0 => valid g0 /\ Forall Q (placed st)));
    [ | split; [exact Hg | exact F] ].
  intros st g0 [Hv Hf]. split.
  - apply placeOne_cases, Hv.
  - apply (placeOne_Forall P Q); assumption.
Qed.


Lemma markHarvested_Forall (Q : BambooPole -> Prop) (i : nat)
      (ps : list BambooPole) :
  (forall p, Q p -> Q (setHarvested p)) ->
  Forall Q ps -> Forall Q (markHarvested i ps).
Proof.
  intros HS F. revert i.
  induction F as [ | p ps Hp F IH]; intros [ | i]; simpl;
    constructor; auto.
Qed.

Lemma harvest_Forall (Q : BambooPole -> Prop) (p : R) (c : BambooClump) :
  (forall q, Q q -> Q (setHarvested q)) ->
  Forall Q (poles c) -> Forall Q (poles (harvestMaturePoles p c)).
Proof.
  intros HS F. destruct (Rlt_dec p 0.3) as [Hlt | Hge].
  - rewrite harvest_below_threshold by exact Hlt. exact F.
  - destruct (harvest_fields p c) as (E & _); [lra | ]. rewrite E.
    generalize (toHarvest (poles c)). intros l. revert F.
    generalize (poles c). induction l as [ | ip l IH]; intros ps F; simpl.
    + exact F.
    + apply IH, markHarvested_Forall; assumption.
Qed.

Lemma forEach_Forall (Q : BambooPole -> Prop) (progress target : R)
      (ps : list BambooPole) :
  (forall q g, Q q -> Q (fst (growPole progress target q g))) ->
  forall g : Rng.t,
  Forall Q ps -> Forall Q (fst (forEach (growPole progress target) ps g)).
Proof.
  intros HG. induction ps as [ | q ps IH]; intros g F; simpl.
  - constructor.
  - inversion F as [ | q0 ps0 Hq Hps]; subst. unfold bind.
    specialize (HG q g Hq).
    destruct (growPole progress target q g) as [q' g1].
    specialize (IH g1 Hps).
    destruct (forEach (growPole progress target) ps g1) as [qs g2].
    cbn [fst ret] in *. constructor; assumption.
Qed.

(** The proof principle for attributes of poles: what every freshly built
    pole has, and what harvesting and growing keep, holds for every pole of
    every state a clump can reach. *)
Lemma reachable_Forall (P : Candidate -> Prop) (Q : BambooPole -> Prop) :
  (forall g, valid g -> P (fst (drawCandidate g))) ->
  (forall c g, valid g -> P c -> Q (fst (createPole c g))) ->
  (forall q, Q q -> Q (setHarvested q)) ->
  (forall progress target q g,
     Q q -> Q (fst (growPole progress target q g))) ->
  forall (g0 : Rng.t) (s : BambooClump * Rng.t),
  valid g0 -> reachable g0 s ->
  valid (snd s) /\ Forall Q (poles (fst s)).
Proof.
  intros HP HQ HS HG g0 s Hg Hr. unfold reachable in Hr.
  assert (I0 : valid (snd (newBambooClump g0)) /\
               Forall Q (poles (fst (newBambooClump g0)))).
  { unfold newBambooClump.
    split; [apply (addNewPoles_preserves 5 emptyClump g0 Hg) | ].
    apply (addNewPoles_Forall P Q); try assumption. constructor. }
  revert Hr I0. generalize (newBambooClump g0) as s0. intros s0 Hr I0.
  induction Hr as [ | s1 s2 s3 R12 IH S23]; [exact I0 | ].
  destruct (IH I0) as [V F]. clear IH.
  destruct S23 as [p c g | p c g]; cbn [fst snd] in *.
  - destruct (update_effect p c g) as (_ & _ & _ & _ & _ & _ & V' & _).
    split; [apply V', V | ].
    destruct (update_stages p c g) as (c1 & g1 & ps & g3 & E1 & E3 & EU).
    rewrite EU. cbn [fst snd poles setPoles].
    assert (F1 : Forall Q (poles c1)).
    { destruct (calculatePoleCount (Growth.clamp01 p) >? currentPoles c)%Z.
      - replace c1 with (fst (addNewPoles
            (calculatePoleCount (Growth.clamp01 p) - currentPoles c)
            (setGrowth (Growth.clamp01 p)
               (calculateHeight (Growth.clamp01 p)) c) g))
          by (rewrite E1; reflexivity).
        apply (addNewPoles_Forall P Q); assumption.
      - inversion E1; subst. exact F. }
    replace ps with (fst (forEach
        (growPole (Growth.clamp01 p) (calculateHeight (Growth.clamp01 p)))
        (poles (if JS.ltb (g1 0%nat) 0.02 && JS.gtb (Growth.clamp01 p) 0.5
                then harvestMaturePoles (Growth.clamp01 p) c1 else c1))
        (fun n => g1 (S n)))) by (rewrite E3; reflexivity).
    apply forEach_Forall; [apply HG | ].
    destruct (JS.ltb (g1 0%nat) 0.02 && JS.gtb (Growth.clamp01 p) 0.5);
      [apply harvest_Forall; assumption | exact F1].
  - split; [exact V | apply harvest_Forall; assumption].
Qed.

Lemma createPole_inRange (c : Candidate) (g : Rng.t) :
  valid g ->
  bucketed (candidateFromCentre c) (cthickness c) ->
  inRange (fst (createPole c g)).
Proof.
  intros Hg B.
  pose proof (Hg 0%nat) as H0. pose proof (Hg 1%nat) as H1.
  pose proof (Hg 2%nat) as H2. pose proof (Hg 10%nat) as H10.
  assert (T : 0.06 <= cthickness c < 0.18) by (destruct B; lra).
  unfold inRange, fromCentre, createPole, bind, Math_random, ret.
  cbn [fst snd mesh position_x position_z radiusTop radiusBottom thickness
       targetHeight growthFactor].
  split; [exact B | ].
  split; [lra | ]. split; [lra | ]. split; nra.
Qed.

(** X1.  Under the contract of [Math.random], in every state a clump can
    reach every pole is either a thin shoot (thickness 0.06 to 0.10) within
    0.6 of the centre, or a thick cane (thickness 0.12 to 0.18) in the ring
    from 0.8 to 1.8; its target height lies between 30 and 55, its growth
    factor between 1.2 and 1.6, and its base and top radii between 1.1 and
    1.3 times and between 0.7 and 1.1 times its thickness. *)
Theorem poles_in_range (g0 : Rng.t) (s : BambooClump * Rng.t) :
  valid g0 -> reachable g0 s -> Forall inRange (poles (fst s)).
Proof.
  intros Hg Hr.
  apply (reachable_Forall
           (fun c => bucketed (candidateFromCentre c) (cthickness c))
           inRange) with (g0 := g0); try assumption.
  - apply drawCandidate_bucketed.
  - intros c g V B. apply createPole_inRange; assumption.
  - intros q H. exact H.
  - intros progress target q g H. unfold growPole.
    destruct (isHarvested q); exact H.
Qed.

Lemma poles_in_range_witness :
  Forall inRange (poles (fst (newBambooClump (const 0)))).
Proof.
  apply (poles_in_range (const 0)
           (fst (newBambooClump (const 0)), snd (newBambooClump (const 0)))).
  - apply valid_const. lra.
  - unfold reachable. rewrite <- surjective_pairing. apply steps_refl.
Defined.

End PoleRanges.

(** ** What [update] reports and what it leaves in the clump *)

Section UpdateRanges.
Import Rng Schematic Ranges.

Lemma calculateHeight_clamped (p : R) :
  0.52 <= calculateHeight (Growth.clamp01 p) < 2.55.
Proof.
  destruct (clamp01_range p) as [H0 H1].
  pose proof calculateHeight_0 as [L _]. pose proof calculateHeight_1 as [_ U].
  rewrite !calculateHeight_logistic in *.
  pose proof (logistic_mono 0.5 2.55 15 0.3 0 (Growth.clamp01 p)
                ltac:(lra) ltac:(lra) H0).
  pose proof (logistic_mono 0.5 2.55 15 0.3 (Growth.clamp01 p) 1
                ltac:(lra) ltac:(lra) H1).
  lra.
Qed.

Lemma calculatePoleCount_clamped (p : R) :
  (6 <= calculatePoleCount (Growth.clamp01 p) <= 99)%Z.
Proof.
  destruct (clamp01_range p) as [H0 H1].
  rewrite <- calculatePoleCount_0 at 1. rewrite <- calculatePoleCount_1.
  rewrite !calculatePoleCount_logistic. unfold maxPoles.
  split; apply Zfloor_le, logistic_mono; lra.
Qed.

Lemma addNewPoles_length (count : Z) (c : BambooClump) (g : Rng.t) :
  (length (poles c) <= length (poles (fst (addNewPoles count c g)))
   <= length (poles c) + Z.to_nat count)%nat.
Proof.
  destruct (forLoop_appends (Z.to_nat count) (startPlacing c) g)
    as (_ & l & E & _ & L & _).
  { unfold startPlacing, maxAttempts. simpl. lia. }
  rewrite addNewPoles_poles, E, length_app. cbn [placed startPlacing]. lia.
Qed.

Lemma forEach_length (progress target : R) (ps : list BambooPole)
      (g : Rng.t) :
  length (fst (forEach (growPole progress target) ps g)) = length ps.
Proof.
  symmetry. eapply Forall2_length. apply forEach_growPole.
Qed.

Lemma harvest_length (p : R) (c : BambooClump) :
  length (poles (harvestMaturePoles p c)) = length (poles c).
Proof.
  symmetry. eapply Forall2_length. apply harvest_evolves.
Qed.

(** The counters of a clump. *)
Lemma update_counters (p : R) (c : BambooClump) (g : Rng.t) :
  (5 <= currentPoles c <= 99)%Z ->
  (Z.of_nat (length (poles c)) <= currentPoles c)%Z ->
  (5 <= currentPoles (snd (fst (update p c g))) <= 99)%Z /\
  (Z.of_nat (length (poles (snd (fst (update p c g)))))
   <= currentPoles (snd (fst (update p c g))))%Z.
Proof.
  intros B L.
  destruct (update_effect p c g) as (_ & _ & _ & _ & C & _).
  pose proof (calculatePoleCount_clamped p) as T.
  split; [rewrite C; lia | ].
  destruct (update_stages p c g) as (c1 & g1 & ps & g3 & E1 & E3 & EU).
  rewrite EU in *. cbn [fst snd poles setPoles currentPoles] in *.
  assert (L1 : (Z.of_nat (length (poles c1)) <= currentPoles c1)%Z).
  { destruct (Z.gtb_spec (calculatePoleCount (Growth.clamp01 p))
                         (currentPoles c)) as [Hgt | Hle].
    - pose proof (addNewPoles_length
                    (calculatePoleCount (Growth.clamp01 p) - currentPoles c)
                    (setGrowth (Growth.clamp01 p)
                       (calculateHeight (Growth.clamp01 p)) c) g) as N.
      pose proof (addNewPoles_counters
                    (calculatePoleCount (Growth.clamp01 p) - currentPoles c)
                    (setGrowth (Growth.clamp01 p)
                       (calculateHeight (Growth.clamp01 p)) c) g) as [K _].
      rewrite E1 in N, K. cbn [fst poles setGrowth currentPoles] in N, K.
      rewrite K. lia.
    - inversion E1; subst. exact L. }
  assert (E : length ps =
              length (poles (if JS.ltb (g1 0%nat) 0.02
                                && JS.gtb (Growth.clamp01 p) 0.5
                             then harvestMaturePoles (Growth.clamp01 p) c1
                             else c1))).
  { pose proof (forEach_length (Growth.clamp01 p)
                  (calculateHeight (Growth.clamp01 p))
                  (poles (if JS.ltb (g1 0%nat) 0.02
                             && JS.gtb (Growth.clamp01 p) 0.5
                          then harvestMaturePoles (Growth.clamp01 p) c1
                          else c1)) (fun n => g1 (S n))) as F.
    rewrite E3 in F. exact F. }
  rewrite E.
  destruct (JS.ltb (g1 0%nat) 0.02 && JS.gtb (Growth.clamp01 p) 0.5).
  - rewrite harvest_length.
    destruct (harvest_counters (Growth.clamp01 p) c1) as (_ & K & _).
    rewrite K. exact L1.
  - exact L1.
Qed.

Lemma reachable_counters (g0 : Rng.t) (s : BambooClump * Rng.t) :
  reachable g0 s ->
  (5 <= currentPoles (fst s) <= 99)%Z /\
  (Z.of_nat (length (poles (fst s))) <= currentPoles (fst s))%Z.
Proof.
  intros Hr. unfold reachable in Hr.
  assert (I0 : (5 <= currentPoles (fst (newBambooClump g0)) <= 99)%Z /\
               (Z.of_nat (length (poles (fst (newBambooClump g0))))
                <= currentPoles (fst (newBambooClump g0)))%Z).
  { unfold newBambooClump.
    destruct (addNewPoles_counters 5 emptyClump g0) as [K _].
    pose proof (addNewPoles_length 5 emptyClump g0) as N.
    rewrite K. cbn [currentPoles emptyClump poles length] in *.
    change (Z.to_nat 5) with 5%nat in N. lia. }
  revert Hr I0. generalize (newBambooClump g0) as s0. intros s0 Hr I0.
  induction Hr as [ | s1 s2 s3 R12 IH S23]; [exact I0 | ].
  destruct (IH I0) as [B L]. clear IH.
  destruct S23 as [p c g | p c g]; cbn [fst snd] in *.
  - apply update_counters; assumption.
  - rewrite harvest_length.
    destruct (harvest_counters p c) as (_ & K & _). rewrite K. auto.
Qed.


Lemma toFixed1_upper (x : R) (k : Z) :
  0 <= x -> x * 10 + 1 / 2 < IZR k + 1 -> JS.toFixed1 x <= IZR k / 10.
Proof.
  intros H0 Hk. unfold JS.toFixed1.
  destruct (Rlt_dec x 0) as [H | _]; [lra | ].
  assert (Hz : (Zfloor (x * 10 + 1 / 2) <= k)%Z).
  { pose proof (Zfloor_bound (x * 10 + 1 / 2)) as [B _].
    assert (IZR (Zfloor (x * 10 + 1 / 2)) < IZR (k + 1))
      by (rewrite plus_IZR; lra).
    apply lt_IZR in H. lia. }
  apply IZR_le in Hz. lra.
Qed.

(** X2.  Whatever progress is passed, the metrics [update] returns for a
    clump in a reachable state stay in fixed ranges: the height lies between
    0.52 and 2.55 (the floor [Math.max(0.5, ...)] never binds), the pole
    count between 5 and 99, and the carbon figure between 0 and 9.1. *)
Theorem update_reports_in_range (g0 : Rng.t) (c : BambooClump) (g : Rng.t)
        (p : R) :
  reachable g0 (c, g) ->
  0.52 <= height (fst (fst (update p c g))) < 2.55 /\
  (5 <= poleCount (fst (fst (update p c g))) <= 99)%Z /\
  0 <= carbon (fst (fst (update p c g))) <= 9.1.
Proof.
  intros Hr.
  assert (Hr' : reachable g0 (snd (fst (update p c g)), snd (update p c g)))
    by (eapply steps_next; [exact Hr | apply step_update]).
  destruct (reachable_counters g0 _ Hr') as [B _].
  destruct (reachable_sound g0 _ Hr') as [I _].
  cbn [fst snd] in B, I.
  destruct (update_effect p c g) as (E & _ & _ & _ & _ & T & _).
  pose proof (calculateHeight_clamped p) as Hh.
  rewrite E. unfold report. cbn [height poleCount carbon]. rewrite T.
  set (c' := snd (fst (update p c g))) in *.
  assert (Hm : JS.Math_max 0.5 (calculateHeight (Growth.clamp01 p))
               = calculateHeight (Growth.clamp01 p))
    by (unfold JS.Math_max; apply Rmax_right; lra).
  rewrite Hm.
  assert (Hn : (5 <= Z.max 5 (currentPoles c' - harvestedPoles c') <= 99)%Z)
    by lia.
  split; [exact Hh | ]. split; [exact Hn | ].
  split; [unfold JS.Math_max; apply Rmax_l | ].
  unfold JS.Math_max. apply Rmax_lub; [lra | ].
  destruct Hn as [N5 N99]. apply IZR_le in N5, N99.
  set (n := IZR (Z.max 5 (currentPoles c' - harvestedPoles c'))) in *.
  set (h := calculateHeight (Growth.clamp01 p)) in *.
  unfold calculateCarbon.
  assert (P : 0 <= h * n <= 2.55 * 99) by nra.
  replace 9.1 with (IZR 91 / 10) by lra.
  apply toFixed1_upper; lra.
Qed.

Lemma update_reports_in_range_witness :
  (5 <= poleCount (fst (fst (update (7 / 10)
                              (fst (newBambooClump (const 0)))
                              (snd (newBambooClump (const 0))))))
   <= 99)%Z.
Proof.
  apply (update_reports_in_range (const 0)
           (fst (newBambooClump (const 0)))
           (snd (newBambooClump (const 0))) (7 / 10)).
  unfold reachable. rewrite <- surjective_pairing. apply steps_refl.
Defined.

(** X3.  The pole counter of a clump never decreases and never leaves the
    range from 5 to 99: [update] raises it to the target of the clamped
    progress when that is larger and leaves it alone otherwise, so running
    the progress backwards (the animation wraps from 1 to 0) removes no
    pole; and the clump never holds more pole records than the counter
    says. *)
Theorem currentPoles_ratchet (g0 : Rng.t) (c : BambooClump) (g : Rng.t)
        (p : R) :
  reachable g0 (c, g) ->
  currentPoles (snd (fst (update p c g)))
  = Z.max (currentPoles c) (calculatePoleCount (Growth.clamp01 p)) /\
  (currentPoles c <= currentPoles (snd (fst (update p c g))) <= 99)%Z /\
  (5 <= currentPoles c)%Z /\
  (length (poles c) <= length (poles (snd (fst (update p c g)))))%nat /\
  (Z.of_nat (length (poles (snd (fst (update p c g)))))
   <= currentPoles (snd (fst (update p c g))))%Z.
Proof.
  intros Hr.
  assert (Hr' : reachable g0 (snd (fst (update p c g)), snd (update p c g)))
    by (eapply steps_next; [exact Hr | apply step_update]).
  destruct (reachable_counters g0 _ Hr) as [B L].
  destruct (reachable_counters g0 _ Hr') as [B' L'].
  cbn [fst snd] in *.
  destruct (update_effect p c g) as (_ & (l & _ & F) & _ & _ & C & _).
  apply Forall2_length in F. rewrite length_app in F.
  split; [exact C | ]. split; [lia | ]. split; [lia | ].
  split; [lia | exact L'].
Qed.

Lemma currentPoles_ratchet_witness :
  (5 <= currentPoles (fst (newBambooClump (const 0))))%Z.
Proof.
  apply (currentPoles_ratchet (const 0)
           (fst (newBambooClump (const 0)))
           (snd (newBambooClump (const 0))) 0).
  unfold reachable. rewrite <- surjective_pairing. apply steps_refl.
Defined.

End UpdateRanges.

(** ** What [update] does to each pole *)

Section PoleGrowth.
Import Rng Schematic Ranges.

Lemma forEach_Forall2 (Rel : BambooPole -> BambooPole -> Prop)
      (progress target : R) (ps : list BambooPole) :
  (forall q g, Rel q (fst (growPole progress target q g))) ->
  forall g : Rng.t,
  Forall2 Rel ps (fst (forEach (growPole progress target) ps g)).
Proof.
  intros HR. induction ps as [ | q ps IH]; intros g; simpl.
  - constructor.
  - unfold bind. specialize (HR q g).
    destruct (growPole progress target q g) as [q' g1].
    specialize (IH g1).
    destruct (forEach (growPole progress target) ps g1) as [qs g2].
    cbn [fst ret] in *. constructor; assumption.
Qed.

(** The callback of [forEach] on one pole. *)
Lemma growPole_result (progress target : R) (q : BambooPole) (g : Rng.t) :
  ageInYears (fst (growPole progress target q g)) = progress * 10 /\
  isHarvested (fst (growPole progress target q g)) = isHarvested q /\
  targetHeight (fst (growPole progress target q g)) = targetHeight q /\
  growthFactor (fst (growPole progress target q g)) = growthFactor q /\
  (isHarvested q = true ->
   currentHeight (fst (growPole progress target q g)) = currentHeight q /\
   scale_y (mesh (fst (growPole progress target q g))) = scale_y (mesh q)) /\
  (isHarvested q = false ->
   scale_y (mesh (fst (growPole progress target q g))) =
     Rmin 0.99
       (Rmax 0.01
          ((target - 0.5) / (4.5 - 0.5)
           * (if Req_dec_T (growthFactor q) 0 then 1.0 else growthFactor q)
           * 0.99 + 0.01)) /\
   currentHeight (fst (growPole progress target q g)) =
     targetHeight q * scale_y (mesh (fst (growPole progress target q g)))).
Proof.
  unfold growPole. destruct (isHarvested q) eqn:E; cbn;
    repeat split; intros; try reflexivity; discriminate.
Qed.

(** What [update] leaves of every pole. *)
Lemma pole_after_update (g0 : Rng.t) (c : BambooClump) (g : Rng.t)
        (p : R) (q : BambooPole) :
  valid g0 -> reachable g0 (c, g) ->
  In q (poles (snd (fst (update p c g)))) ->
  ageInYears q = Growth.clamp01 p * 10 /\
  (isHarvested q = false ->
   0.015 < scale_y (mesh q) < 0.83 /\
   currentHeight q = targetHeight q * scale_y (mesh q) /\
   0.45 < currentHeight q < 46).
Proof.
  intros Hg Hr Hq.
  assert (Hr' : reachable g0 (snd (fst (update p c g)), snd (update p c g)))
    by (eapply steps_next; [exact Hr | apply step_update]).
  assert (HQ : Forall (fun q => 30 <= targetHeight q < 55 /\
                                1.2 <= growthFactor q < 1.6)
                      (poles (snd (fst (update p c g))))).
  { refine (proj2 (reachable_Forall
             (fun c => 0.06 <= cthickness c <= 0.18)
             (fun q => 30 <= targetHeight q < 55 /\
                       1.2 <= growthFactor q < 1.6)
             _ _ _ _ g0 _ Hg Hr')).
    - apply drawCandidate_thickness.
    - intros c0 g1 V _.
      pose proof (V 0%nat). pose proof (V 10%nat).
      unfold createPole, bind, Math_random, ret.
      cbn [fst snd targetHeight growthFactor]. lra.
    - intros q0 H. exact H.
    - intros progress target q0 g1 H.
      destruct (growPole_result progress target q0 g1)
        as (_ & _ & T & G & _).
      rewrite T, G. exact H. }
  rewrite Forall_forall in HQ. destruct (HQ q Hq) as [HT HF].
  destruct (update_stages p c g) as (c1 & g1 & ps & g3 & E1 & E3 & EU).
  rewrite EU in Hq. cbn [fst snd poles setPoles] in Hq.
  pose proof (forEach_Forall2
    (fun a b =>
       ageInYears b = Growth.clamp01 p * 10 /\
       (isHarvested b = false ->
        scale_y (mesh b) =
          Rmin 0.99
            (Rmax 0.01
               ((calculateHeight (Growth.clamp01 p) - 0.5) / (4.5 - 0.5)
                * (if Req_dec_T (growthFactor b) 0 then 1.0
                   else growthFactor b)
                * 0.99 + 0.01)) /\
        currentHeight b = targetHeight b * scale_y (mesh b)))
    (Growth.clamp01 p) (calculateHeight (Growth.clamp01 p))
    (poles (if JS.ltb (g1 0%nat) 0.02 && JS.gtb (Growth.clamp01 p) 0.5
            then harvestMaturePoles (Growth.clamp01 p) c1 else c1))) as F.
  assert (F' := F ltac:(
    intros a g2;
    destruct (growPole_result (Growth.clamp01 p)
                (calculateHeight (Growth.clamp01 p)) a g2)
      as (A & H & T & G & _ & L);
    split; [exact A | ];
    rewrite H, G, T; exact L) (fun n => g1 (S n))).
  clear F. rewrite E3 in F'. cbn [fst] in F'.
  apply In_nth_error in Hq. destruct Hq as [i Hi].
  destruct (Forall2_nth_r F' i q Hi) as (a & _ & A & L).
  split; [exact A | ]. intros Hl. destruct (L Hl) as [S C].
  pose proof (calculateHeight_clamped p) as Hh.
  destruct (Req_dec_T (growthFactor q) 0) as [Z | _]; [lra | ].
  set (h := calculateHeight (Growth.clamp01 p)) in *.
  set (x := (h - 0.5) / (4.5 - 0.5) * growthFactor q * 0.99 + 0.01) in *.
  assert (X : 0.015 < x < 0.83).
  { subst x.
    assert (N : 0.005 <= (h - 0.5) / (4.5 - 0.5) < 0.5125) by lra.
    split; nra. }
  assert (Sx : scale_y (mesh q) = x).
  { rewrite S. rewrite Rmax_right by lra. rewrite Rmin_right by lra.
    reflexivity. }
  rewrite Sx in *. split; [exact X | ]. split; [exact C | ].
  rewrite C. split; nra.
Qed.

(** X4.  After [update(p)] on a clump in a reachable state, under the
    contract of [Math.random]: every pole, harvested or not, old or new, has
    the same age, ten times the clamped progress; every live pole has a
    current height of its target height times its vertical scale, and that
    scale lies strictly between 0.015 and 0.83, so no pole ever stands at
    its full target height. *)
Theorem poles_after_update (g0 : Rng.t) (c : BambooClump) (g : Rng.t)
        (p : R) :
  valid g0 -> reachable g0 (c, g) ->
  Forall
    (fun q : BambooPole =>
       ageInYears q = Growth.clamp01 p * 10 /\
       (isHarvested q = false ->
        0.015 < scale_y (mesh q) < 0.83 /\
        currentHeight q = targetHeight q * scale_y (mesh q) /\
        0.45 < currentHeight q < 46))
    (poles (snd (fst (update p c g)))).
Proof.
  intros Hg Hr. apply Forall_forall. intros q Hq.
  exact (pole_after_update g0 c g p q Hg Hr Hq).
Qed.

Lemma poles_after_update_witness :
  Forall
    (fun q : BambooPole =>
       ageInYears q = Growth.clamp01 (7 / 10) * 10 /\
       (isHarvested q = false ->
        0.015 < scale_y (mesh q) < 0.83 /\
        currentHeight q = targetHeight q * scale_y (mesh q) /\
        0.45 < currentHeight q < 46))
    (poles (snd (fst (update (7 / 10)
                        (fst (newBambooClump (const 0)))
                        (snd (newBambooClump (const 0))))))).
Proof.
  apply (poles_after_update (const 0)
           (fst (newBambooClump (const 0)))
           (snd (newBambooClump (const 0))) (7 / 10)).
  - apply valid_const. lra.
  - unfold reachable. rewrite <- surjective_pairing. apply steps_refl.
Defined.

End PoleGrowth.

(** ** When and what [update] harvests *)

Section HarvestGate.
Import Rng Schematic.

Lemma harvestedCount_evolves_same (ps ps' : list BambooPole) :
  Forall2 (fun p q => isHarvested q = isHarvested p) ps ps' ->
  harvestedCount ps' = harvestedCount ps.
Proof.
  unfold harvestedCount.
  induction 1 as [ | p q ps ps' Hq H IH]; simpl; [reflexivity | ].
  rewrite Hq. destruct (isHarvested p); simpl; rewrite IH; reflexivity.
Qed.

(** X5.  In the first half of the horizon [update] harvests nothing: for
    every progress of at most 0.5, whatever [Math.random] returns,
    [harvestedPoles] and the number of harvested poles are what they were,
    and every pole the clump held keeps its flag. *)
Theorem no_harvest_in_first_half (p : R) (c : BambooClump) (g : Rng.t) :
  p <= 0.5 ->
  harvestedPoles (snd (fst (update p c g))) = harvestedPoles c /\
  harvestedCount (poles (snd (fst (update p c g))))
  = harvestedCount (poles c) /\
  forall i q,
    nth_error (poles c) i = Some q ->
    exists q', nth_error (poles (snd (fst (update p c g)))) i = Some q' /\
               isHarvested q' = isHarvested q.
Proof.
  intros Hp.
  assert (Hc : Growth.clamp01 p <= 0.5).
  { unfold Growth.clamp01, JS.Math_max, JS.Math_min.
    apply Rmax_lub; [lra | ].
    eapply Rle_trans; [apply Rmin_r | exact Hp]. }
  destruct (update_stages p c g) as (c1 & g1 & ps & g3 & E1 & E3 & EU).
  rewrite EU. cbn [fst snd poles setPoles harvestedPoles].
  assert (G : JS.ltb (g1 0%nat) 0.02 && JS.gtb (Growth.clamp01 p) 0.5
              = false).
  { unfold JS.gtb. rewrite (ltb_false 0.5 (Growth.clamp01 p)) by exact Hc.
    apply andb_false_r. }
  rewrite G in *.
  destruct (grow_stage p c c1 g g1 E1) as ((l & Pl & Fl) & H1 & _).
  pose proof (forEach_growPole (Growth.clamp01 p)
                (calculateHeight (Growth.clamp01 p)) (poles c1)
                (fun n => g1 (S n))) as F.
  rewrite E3 in F. cbn [fst] in F.
  assert (F' : Forall2 (fun a b => isHarvested b = isHarvested a)
                       (poles c1) ps)
    by (eapply Forall2_impl; [ | exact F]; intros a b [_ H]; exact H).
  split; [exact H1 | ]. split.
  - rewrite (harvestedCount_evolves_same _ _ F'), Pl.
    apply harvestedCount_app, Fl.
  - intros i q Hi.
    assert (Hi' : nth_error (poles c1) i = Some q).
    { rewrite Pl, nth_error_app1; [exact Hi | ].
      apply nth_error_Some. congruence. }
    destruct (Forall2_nth_l F' i q Hi') as (q' & Hq' & E).
    exists q'. auto.
Qed.

Lemma no_harvest_in_first_half_witness :
  harvestedPoles (snd (fst (update 0.4 sampleClump (const (1 / 100)))))
  = harvestedPoles sampleClump.
Proof.
  apply (no_harvest_in_first_half 0.4 sampleClump (const (1 / 100))). lra.
Defined.


Lemma placeOne_shape (st : Placing) (g : Rng.t) :
  placed (fst (placeOne st g)) = placed st \/
  exists c g1,
    placed (fst (placeOne st g)) = placed st ++ [fst (createPole c g1)].
Proof.
  unfold placeOne, bind.
  destruct (whileLoop (existingPositions st) noCandidate (attempts st) g)
    as [tried g1].
  destruct (validPosition tried).
  - right. exists (candidate tried), g1.
    destruct (createPole (candidate tried) g1) as [pole g2]. reflexivity.
  - left. reflexivity.
Qed.

(** The poles a call of [addNewPoles] appends are all fresh: age 0 and not
    harvested. *)
Lemma forLoop_fresh (n : nat) :
  forall (st : Placing) (g : Rng.t),
  exists l,
    placed (fst (forLoop n st g)) = placed st ++ l /\
    Forall (fun q => ageInYears q = 0 /\ isHarvested q = false) l.
Proof.
  induction n as [ | n IH]; intros st g; simpl.
  - exists []. rewrite app_nil_r. split; [reflexivity | constructor].
  - unfold bind. pose proof (placeOne_shape st g) as S.
    destruct (placeOne st g) as [st' g']. cbn [fst] in S.
    destruct (IH st' g') as (l & E & F).
    destruct S as [S | (c & g1 & S)]; rewrite E, S.
    + exists l. auto.
    + exists (fst (createPole c g1) :: l). rewrite <- app_assoc.
      split; [reflexivity | ]. constructor; [ | exact F].
      split; reflexivity.
Qed.

Lemma grow_stage_fresh (p : R) (c c1 : BambooClump) (g g1 : Rng.t) :
  (if (calculatePoleCount (Growth.clamp01 p) >? currentPoles c)%Z
   then addNewPoles (calculatePoleCount (Growth.clamp01 p) - currentPoles c)
          (setGrowth (Growth.clamp01 p)
                     (calculateHeight (Growth.clamp01 p)) c)
   else ret (setGrowth (Growth.clamp01 p)
                       (calculateHeight (Growth.clamp01 p)) c)) g
  = (c1, g1) ->
  exists l,
    poles c1 = poles c ++ l /\
    Forall (fun q => ageInYears q = 0 /\ isHarvested q = false) l.
Proof.
  destruct (calculatePoleCount (Growth.clamp01 p) >? currentPoles c)%Z;
    intros E.
  - replace c1 with (fst (addNewPoles
        (calculatePoleCount (Growth.clamp01 p) - currentPoles c)
        (setGrowth (Growth.clamp01 p)
           (calculateHeight (Growth.clamp01 p)) c) g))
      by (rewrite E; reflexivity).
    rewrite addNewPoles_poles. apply forLoop_fresh.
  - inversion E; subst. exists []. rewrite app_nil_r.
    split; [reflexivity | constructor].
Qed.

(** A pole that is not eligible is left alone by the scheduler. *)
Lemma harvest_skips (p : R) (c : BambooClump) (i : nat) (q : BambooPole) :
  nth_error (poles c) i = Some q ->
  ageInYears q < 3 \/ isHarvested q = true ->
  nth_error (poles (harvestMaturePoles p c)) i = Some q.
Proof.
  intros Hi Hq. destruct (Rlt_dec p 0.3) as [Hlt | Hge].
  - rewrite harvest_below_threshold by exact Hlt. exact Hi.
  - destruct (harvest_fields p c) as (E & _); [lra | ].
    rewrite E, fold_markHarvested_nth.
    destruct (existsb (Nat.eqb i) (map fst (toHarvest (poles c)))) eqn:X;
      [ | exact Hi].
    exfalso. apply existsb_exists in X. destruct X as (j & Hj & Ej).
    apply Nat.eqb_eq in Ej. subst j.
    apply in_map_iff in Hj. destruct Hj as ([i' x] & Ei & Hx).
    cbn in Ei. subst i'.
    apply toHarvest_incl, maturePoles_spec in Hx.
    destruct Hx as (Hn & Ha & Hh).
    rewrite Hi in Hn. inversion Hn; subst x.
    destruct Hq as [Hq | Hq]; [lra | congruence].
Qed.

(** A pole [update] appended in this call is live when the call returns. *)
Lemma new_pole_live (p : R) (c : BambooClump) (g : Rng.t)
        (i : nat) (q : BambooPole) :
  (length (poles c) <= i)%nat ->
  nth_error (poles (snd (fst (update p c g)))) i = Some q ->
  isHarvested q = false.
Proof.
  intros Hi Hq.
  destruct (update_stages p c g) as (c1 & g1 & ps & g3 & E1 & E3 & EU).
  rewrite EU in Hq. cbn [fst snd poles setPoles] in Hq.
  destruct (grow_stage_fresh p c c1 g g1 E1) as (l & Pl & Fl).
  pose proof (forEach_growPole (Growth.clamp01 p)
                (calculateHeight (Growth.clamp01 p))
                (poles (if JS.ltb (g1 0%nat) 0.02
                           && JS.gtb (Growth.clamp01 p) 0.5
                        then harvestMaturePoles (Growth.clamp01 p) c1
                        else c1))
                (fun n => g1 (S n))) as F.
  rewrite E3 in F. cbn [fst] in F.
  destruct (Forall2_nth_r F i q Hq) as (a & Ha & _ & Hf).
  rewrite Hf. clear Hf F.
  assert (H1 : exists b, nth_error (poles c1) i = Some b /\
                         ageInYears b = 0 /\ isHarvested b = false).
  { assert (Hlen : (i < length (poles c1))%nat).
    { destruct (JS.ltb (g1 0%nat) 0.02 && JS.gtb (Growth.clamp01 p) 0.5).
      - rewrite <- (harvest_length (Growth.clamp01 p) c1).
        apply nth_error_Some. congruence.
      - apply nth_error_Some. congruence. }
    destruct (nth_error (poles c1) i) as [b | ] eqn:Eb;
      [ | apply nth_error_None in Eb; lia].
    exists b. split; [reflexivity | ].
    rewrite Pl, nth_error_app2 in Eb by exact Hi.
    rewrite Forall_forall in Fl. apply Fl. eapply nth_error_In, Eb. }
  destruct H1 as (b & Hb & Age & Live).
  destruct (JS.ltb (g1 0%nat) 0.02 && JS.gtb (Growth.clamp01 p) 0.5).
  - rewrite (harvest_skips (Growth.clamp01 p) c1 i b Hb) in Ha
      by (left; lra).
    inversion Ha; subst. exact Live.
  - rewrite Hb in Ha. inversion Ha; subst. exact Live.
Qed.

(** X6.  [update] never harvests a pole in the call that created it: the
    poles beyond the ones the clump held before the call are all live when
    the call returns, whatever the progress and the draws. *)
Theorem new_poles_stay_live (p : R) (c : BambooClump) (g : Rng.t) :
  Forall (fun q : BambooPole => isHarvested q = false)
         (skipn (length (poles c)) (poles (snd (fst (update p c g))))).
Proof.
  apply Forall_forall. intros q Hq.
  apply In_nth_error in Hq. destruct Hq as [i Hi].
  rewrite nth_error_skipn in Hi.
  apply (new_pole_live p c g (length (poles c) + i) q); [lia | exact Hi].
Qed.

End HarvestGate.

(** ** What [update] returns at the edges of the progress domain *)

Section EdgeReports.
Import Rng Schematic.

Lemma fresh_not_mature (ps : list BambooPole) :
  Forall (fun q => ageInYears q = 0 /\ isHarvested q = false) ps ->
  maturePoles ps = [].
Proof.
  intros F. destruct (maturePoles ps) as [ | [i q] l] eqn:E; [reflexivity | ].
  assert (I : In (i, q) (maturePoles ps)) by (rewrite E; left; reflexivity).
  apply maturePoles_spec in I. destruct I as (N & A & _).
  rewrite Forall_forall in F.
  destruct (F q (nth_error_In _ _ N)) as [A0 _]. lra.
Qed.

Lemma harvest_none_mature (p : R) (c : BambooClump) :
  maturePoles (poles c) = [] -> harvestMaturePoles p c = c.
Proof.
  intros Hnil. unfold harvestMaturePoles.
  destruct (JS.ltb p 0.3); [reflexivity | ].
  rewrite Hnil. cbn [length]. rewrite ceil_fifth. reflexivity.
Qed.

(** The pole count [update] returns, from the counters it leaves. *)
Lemma update_poleCount (p : R) (c : BambooClump) (g : Rng.t) :
  poleCount (fst (fst (update p c g)))
  = Z.max 5 (Z.max (currentPoles c) (calculatePoleCount (Growth.clamp01 p))
             - harvestedPoles (snd (fst (update p c g)))).
Proof.
  destruct (update_effect p c g) as (E & _ & _ & _ & C & _).
  rewrite E at 1. unfold report. cbn [poleCount]. rewrite C. reflexivity.
Qed.

Lemma update_harvested_low (p : R) (c : BambooClump) (g : Rng.t) :
  p <= 0.5 ->
  harvestedPoles (snd (fst (update p c g))) = harvestedPoles c.
Proof.
  intros Hp.
  assert (Hc : Growth.clamp01 p <= 0.5).
  { unfold Growth.clamp01, JS.Math_max, JS.Math_min.
    apply Rmax_lub; [lra | ].
    eapply Rle_trans; [apply Rmin_r | exact Hp]. }
  destruct (update_stages p c g) as (c1 & g1 & ps & g3 & E1 & _ & EU).
  destruct (grow_stage p c c1 g g1 E1) as (_ & H1 & _).
  rewrite EU. cbn [fst snd].
  unfold JS.gtb. rewrite (ltb_false 0.5 (Growth.clamp01 p)) by exact Hc.
  rewrite andb_false_r. cbn [harvestedPoles setPoles]. exact H1.
Qed.

(** The first [update] of a clump that was just built harvests nothing. *)
Lemma update_harvested_fresh (p : R) (c : BambooClump) (g : Rng.t) :
  Forall (fun q => ageInYears q = 0 /\ isHarvested q = false) (poles c) ->
  harvestedPoles (snd (fst (update p c g))) = harvestedPoles c.
Proof.
  intros F.
  destruct (update_stages p c g) as (c1 & g1 & ps & g3 & E1 & _ & EU).
  destruct (grow_stage p c c1 g g1 E1) as (_ & H1 & _).
  destruct (grow_stage_fresh p c c1 g g1 E1) as (l & Pl & Fl).
  assert (N : harvestMaturePoles (Growth.clamp01 p) c1 = c1).
  { apply harvest_none_mature, fresh_not_mature. rewrite Pl.
    apply Forall_app. split; assumption. }
  rewrite EU. cbn [fst snd]. rewrite N.
  destruct (JS.ltb (g1 0%nat) 0.02 && JS.gtb (Growth.clamp01 p) 0.5);
    cbn [harvestedPoles setPoles]; exact H1.
Qed.

Lemma newBambooClump_fresh (g0 : Rng.t) :
  currentPoles (fst (newBambooClump g0)) = 5%Z /\
  harvestedPoles (fst (newBambooClump g0)) = 0%Z /\
  Forall (fun q => ageInYears q = 0 /\ isHarvested q = false)
         (poles (fst (newBambooClump g0))).
Proof.
  unfold newBambooClump.
  destruct (addNewPoles_counters 5 emptyClump g0) as [C H].
  split; [rewrite C; reflexivity | ]. split; [rewrite H; reflexivity | ].
  rewrite addNewPoles_poles.
  destruct (forLoop_fresh (Z.to_nat 5) (startPlacing emptyClump) g0)
    as (l & E & F).
  rewrite E. exact F.
Qed.

Lemma update_fresh_poleCount (p : R) (g0 : Rng.t) :
  poleCount (fst (fst (update p (fst (newBambooClump g0))
                         (snd (newBambooClump g0)))))
  = Z.max 5 (Z.max 5 (calculatePoleCount (Growth.clamp01 p))).
Proof.
  destruct (newBambooClump_fresh g0) as (C & H & F).
  rewrite update_poleCount, (update_harvested_fresh _ _ _ F), C, H.
  f_equal. lia.
Qed.

(** C2, as the code has it.  Progress is clamped to [[0, 1]] and never
    extrapolated: for every progress at or below 0 the curves take their
    values at 0, and for every progress at or above 1 their values at 1.
    [update] returns the height of the clamped progress.  Its pole counter
    is raised to the pole count of the clamped progress and never lowered,
    and the pole count it returns is [max(5, currentPoles -
    harvestedPoles)] of the counters it leaves: on a clump that was just
    built that is 6 at a progress at or below 0 and 99 at a progress at or
    above 1; on a clump whose counter stands higher it is more.  The edge
    values are points of the logistic curve, not its configured bounds:
    the height at 0 lies between 0.52 and 0.55 (above the minimum 0.5) and
    the pole count at 0 is 6; the height at 1 lies between 2.53 and 2.55
    (below the maximum 2.55) and the pole count at 1 is 99. *)
Theorem growth_edges_clamped (p : R) :
  (p <= 0 ->
   calculateHeight (Growth.clamp01 p) = calculateHeight 0 /\
   calculatePoleCount (Growth.clamp01 p) = 6%Z /\
   (forall (c : BambooClump) (g : Rng.t),
      height (fst (fst (update p c g))) = calculateHeight 0 /\
      currentPoles (snd (fst (update p c g))) = Z.max (currentPoles c) 6 /\
      harvestedPoles (snd (fst (update p c g))) = harvestedPoles c /\
      poleCount (fst (fst (update p c g)))
      = Z.max 5 (Z.max (currentPoles c) 6 - harvestedPoles c)) /\
   (forall g0 : Rng.t,
      poleCount (fst (fst (update p (fst (newBambooClump g0))
                             (snd (newBambooClump g0))))) = 6%Z)) /\
  (1 <= p ->
   calculateHeight (Growth.clamp01 p) = calculateHeight 1 /\
   calculatePoleCount (Growth.clamp01 p) = 99%Z /\
   (forall (c : BambooClump) (g : Rng.t),
      height (fst (fst (update p c g))) = calculateHeight 1 /\
      currentPoles (snd (fst (update p c g))) = Z.max (currentPoles c) 99 /\
      (harvestedPoles c <= harvestedPoles (snd (fst (update p c g))))%Z /\
      poleCount (fst (fst (update p c g)))
      = Z.max 5 (Z.max (currentPoles c) 99
                 - harvestedPoles (snd (fst (update p c g))))) /\
   (forall g0 : Rng.t,
      poleCount (fst (fst (update p (fst (newBambooClump g0))
                             (snd (newBambooClump g0))))) = 99%Z)) /\
  0.52 <= calculateHeight 0 < 0.55 /\
  2.53 <= calculateHeight 1 < 2.55.
Proof.
  split; [ | split; [ | split ] ].
  - intros H.
    split; [rewrite clamp01_low by exact H; reflexivity | ].
    split; [rewrite clamp01_low by exact H; apply calculatePoleCount_0 | ].
    split.
    + intros c g.
      rewrite update_height, update_currentPoles, update_poleCount.
      rewrite update_harvested_low by lra.
      rewrite clamp01_low by exact H. rewrite calculatePoleCount_0. auto.
    + intros g0. rewrite update_fresh_poleCount.
      rewrite clamp01_low by exact H. rewrite calculatePoleCount_0.
      reflexivity.
  - intros H.
    split; [rewrite clamp01_high by exact H; reflexivity | ].
    split; [rewrite clamp01_high by exact H; apply calculatePoleCount_1 | ].
    split.
    + intros c g.
      rewrite update_height, update_currentPoles, update_poleCount.
      rewrite clamp01_high by exact H. rewrite calculatePoleCount_1.
      destruct (update_effect p c g) as (_ & _ & M & _). auto.
    + intros g0. rewrite update_fresh_poleCount.
      rewrite clamp01_high by exact H. rewrite calculatePoleCount_1.
      reflexivity.
  - apply calculateHeight_0.
  - apply calculateHeight_1.
Qed.

Lemma growth_edges_clamped_witness :
  calculatePoleCount (Growth.clamp01 (-1)) = 6%Z /\
  calculatePoleCount (Growth.clamp01 2) = 99%Z /\
  poleCount (fst (fst (update (-1) (fst (newBambooClump (const 0)))
                         (snd (newBambooClump (const 0)))))) = 6%Z /\
  poleCount (fst (fst (update 2 (fst (newBambooClump (const 0)))
                         (snd (newBambooClump (const 0)))))) = 99%Z.
Proof.
  destruct (proj1 (growth_edges_clamped (-1))) as (_ & L & _ & FL); [lra | ].
  destruct (proj1 (proj2 (growth_edges_clamped 2))) as (_ & U & _ & FU);
    [lra | ].
  split; [exact L | ]. split; [exact U | ].
  split; [apply FL | apply FU].
Defined.

End EdgeReports.

(** ** The backlog of the scheduler *)

Section HarvestBacklog.
Import Schematic.

Lemma maturePoles_length_from (ps : list BambooPole) (s : nat) :
  length (filter (fun ip : nat * BambooPole => mature (snd ip))
                 (combine (seq s (length ps)) ps))
  = length (filter mature ps).
Proof.
  revert s. induction ps as [ | q ps IH]; intros s; simpl.
  - reflexivity.
  - destruct (mature q); simpl; rewrite IH; reflexivity.
Qed.

Lemma maturePoles_length (ps : list BambooPole) :
  length (maturePoles ps) = length (filter mature ps).
Proof. apply maturePoles_length_from. Qed.

Lemma mature_setHarvested (q : BambooPole) : mature (setHarvested q) = false.
Proof. unfold mature. cbn. apply andb_false_r. Qed.

Lemma matureCount_mark (i : nat) (ps : list BambooPole) (q : BambooPole) :
  nth_error ps i = Some q -> mature q = true ->
  S (length (filter mature (markHarvested i ps)))
  = length (filter mature ps).
Proof.
  revert i. induction ps as [ | a ps IH]; intros [ | i] Hn Hq; simpl in *;
    try discriminate.
  - inversion Hn; subst. rewrite mature_setHarvested, Hq. reflexivity.
  - destruct (mature a); simpl; rewrite <- (IH i Hn Hq); reflexivity.
Qed.

Lemma fold_markHarvested_mature (l : list (nat * BambooPole)) :
  forall ps : list BambooPole,
  NoDup (map fst l) ->
  (forall i p, In (i, p) l ->
     exists q, nth_error ps i = Some q /\ mature q = true) ->
  (length (filter mature
             (fold_left (fun ps ip => markHarvested (fst ip) ps) l ps))
   + length l)%nat
  = length (filter mature ps).
Proof.
  induction l as [ | [i p] l IH]; intros ps Hd Hl; simpl.
  - lia.
  - inversion Hd as [ | x l0 Hni Hd']; subst.
    destruct (Hl i p (or_introl eq_refl)) as (q & Hq & Hm).
    rewrite <- (matureCount_mark i ps q Hq Hm).
    rewrite <- (IH (markHarvested i ps)); [lia | exact Hd' | ].
    intros j p' Hj.
    destruct (Hl j p' (or_intror Hj)) as (q' & Hq' & Hm').
    exists q'. split; [ | exact Hm'].
    rewrite markHarvested_nth.
    destruct (Nat.eqb j i) eqn:E; [ | exact Hq'].
    apply Nat.eqb_eq in E. subst j. exfalso. apply Hni.
    apply in_map_iff. exists (i, p'). auto.
Qed.

(** X7.  One harvest invocation at a progress of at least 0.3 takes the
    backlog of [m] eligible poles down to [m - ceil(m / 5)]: it harvests at
    least one pole whenever one is eligible, it changes nothing when none
    is, and the poles it leaves eligible are the ones a next invocation
    starts from. *)
Theorem harvest_backlog (p : R) (c : BambooClump) :
  0.3 <= p ->
  length (maturePoles (poles (harvestMaturePoles p c)))
  = (length (maturePoles (poles c))
     - (length (maturePoles (poles c)) + 4) / 5)%nat /\
  (maturePoles (poles c) = [] -> harvestMaturePoles p c = c) /\
  (maturePoles (poles c) <> [] ->
   (length (maturePoles (poles (harvestMaturePoles p c)))
    < length (maturePoles (poles c)))%nat).
Proof.
  intros Hp.
  destruct (harvest_fields p c Hp) as (E & _).
  assert (K : (length (maturePoles (poles (harvestMaturePoles p c)))
               + length (toHarvest (poles c)))%nat
              = length (maturePoles (poles c))).
  { rewrite E, !maturePoles_length. apply fold_markHarvested_mature.
    - apply toHarvest_NoDup.
    - intros i q Hi. apply toHarvest_incl, maturePoles_spec in Hi.
      exists q. split; [tauto | ]. apply mature_spec. tauto. }
  rewrite toHarvest_length in K.
  split; [lia | ]. split.
  - intros Hnil. unfold harvestMaturePoles.
    rewrite ltb_false by exact Hp. rewrite Hnil. cbn [length].
    rewrite ceil_fifth. reflexivity.
  - intros Hne.
    assert (0 < length (maturePoles (poles c)))%nat
      by (destruct (maturePoles (poles c)); [congruence | simpl; lia]).
    assert (1 <= (length (maturePoles (poles c)) + 4) / 5)%nat
      by (apply Nat.div_le_lower_bound; lia).
    lia.
Qed.

Lemma harvest_backlog_witness :
  length (maturePoles (poles (harvestMaturePoles 0.7 sampleClump)))
  = (length (maturePoles (poles sampleClump))
     - (length (maturePoles (poles sampleClump)) + 4) / 5)%nat.
Proof.
  apply (harvest_backlog 0.7 sampleClump). lra.
Defined.

End HarvestBacklog.

(** ** The carbon figure *)

Section CarbonFigure.
Import Schematic.

Lemma toFixed1_nonpos (x : R) : x < 0 -> JS.toFixed1 x <= 0.
Proof.
  intros Hx. unfold JS.toFixed1.
  destruct (Rlt_dec x 0) as [_ | H]; [ | lra].
  assert (Hz : (0 <= Zfloor (- x * 10 + 1 / 2))%Z)
    by (apply Zfloor_lub; lra).
  apply IZR_le in Hz. lra.
Qed.

Lemma toFixed1_mono (x y : R) : x <= y -> JS.toFixed1 x <= JS.toFixed1 y.
Proof.
  intros Hxy.
  destruct (Rlt_dec x 0) as [Hx | Hx], (Rlt_dec y 0) as [Hy | Hy].
  - unfold JS.toFixed1.
    destruct (Rlt_dec x 0) as [_ | H]; [ | lra].
    destruct (Rlt_dec y 0) as [_ | H]; [ | lra].
    assert (Hz : (Zfloor (- y * 10 + 1 / 2) <= Zfloor (- x * 10 + 1 / 2))%Z)
      by (apply Zfloor_le; lra).
    apply IZR_le in Hz. lra.
  - pose proof (toFixed1_nonpos x Hx).
    pose proof (toFixed1_nonneg y ltac:(lra)). lra.
  - lra.
  - unfold JS.toFixed1.
    destruct (Rlt_dec x 0) as [H | _]; [lra | ].
    destruct (Rlt_dec y 0) as [H | _]; [lra | ].
    assert (Hz : (Zfloor (x * 10 + 1 / 2) <= Zfloor (y * 10 + 1 / 2))%Z)
      by (apply Zfloor_le; lra).
    apply IZR_le in Hz. lra.
Qed.

Lemma toFixed1_close (x : R) : - 0.05 <= JS.toFixed1 x - x <= 0.05.
Proof.
  unfold JS.toFixed1. destruct (Rlt_dec x 0) as [H | H].
  - pose proof (Zfloor_bound (- x * 10 + 1 / 2)). lra.
  - pose proof (Zfloor_bound (x * 10 + 1 / 2)). lra.
Qed.

(** X8.  The carbon figure [calculateCarbon] never falls when the height or
    the pole count rises (for non-negative inputs), and it is the product
    [(height / 27) * (poleCount / 90) * 87.5] to within 0.05, the rounding
    to one decimal. *)
Theorem calculateCarbon_monotone (h1 h2 n1 n2 : R) :
  0 <= h1 <= h2 -> 0 <= n1 <= n2 ->
  calculateCarbon h1 n1 <= calculateCarbon h2 n2 /\
  - 0.05 <= calculateCarbon h1 n1 - (h1 / 27) * (n1 / 90) * 87.5 <= 0.05.
Proof.
  intros Hh Hn. unfold calculateCarbon. split.
  - apply toFixed1_mono.
    assert (h1 * n1 <= h2 * n2) by nra. lra.
  - apply toFixed1_close.
Qed.

Lemma calculateCarbon_monotone_witness :
  calculateCarbon 1 10 <= calculateCarbon 2 50.
Proof.
  apply (calculateCarbon_monotone 1 2 10 50); lra.
Defined.

End CarbonFigure.

(** ** The geo-referenced layout *)

Section GeoLayout.
Import Geo.

Lemma seededRandom_range (seed : R) : 0 <= seededRandom seed < 1.
Proof.
  unfold seededRandom, JS.Math_floor.
  pose proof (Zfloor_bound (JS.Math_sin (seed * 9999) * 10000)). lra.
Qed.

Lemma progressOf_range (year : R) : 0 <= progressOf year <= 1.
Proof. apply (clamp01_range ((year - 2024) / 11)). Qed.

Lemma logistic_between (lo hi k m p : R) :
  lo < hi -> lo < Growth.logistic lo hi k m p < hi.
Proof.
  intros H. unfold Growth.logistic, JS.Math_exp.
  pose proof (exp_pos (- k * (p - m))) as E.
  set (e := exp (- k * (p - m))) in *.
  assert (B : 0 < (hi - lo) / (1 + e) < hi - lo).
  { split.
    - apply Rdiv_lt_0_compat; lra.
    - apply (Rmult_lt_reg_r (1 + e)); [lra | ].
      replace ((hi - lo) / (1 + e) * (1 + e)) with (hi - lo)
        by (field; lra).
      nra. }
  lra.
Qed.

Lemma baseHeight_range (p : R) : 0.5 < baseHeight p < 25.
Proof.
  rewrite baseHeight_logistic. apply logistic_between. lra.
Qed.

Lemma poleCountPerClump_range (p : R) : (5 <= poleCountPerClump p <= 49)%Z.
Proof.
  rewrite poleCountPerClump_logistic.
  pose proof (logistic_between 5 50 15 0.3 p ltac:(lra)) as [L U].
  split.
  - apply Zfloor_lub. lra.
  - pose proof (Zfloor_bound (Growth.logistic 5 50 15 0.3 p)) as [B _].
    assert (IZR (Zfloor (Growth.logistic 5 50 15 0.3 p)) < IZR 50) by lra.
    apply lt_IZR in H. lia.
Qed.

Lemma layout_clump (plot : Plot) (year : R) (cl : Clump) :
  In cl (layout plot year) ->
  exists i : nat,
    (Z.of_nat i <
       Z.min (JS.Math_floor (Terrain.plotSizeMeters plot / 8)
              * JS.Math_floor (Terrain.plotSizeMeters plot / 8))
             (JS.Math_round (areaHectares plot * 150)))%Z /\
    cl = clumpAt plot (progressOf year) (plotSeedOf plot)
           (JS.Math_ceil
              (JS.Math_sqrt
                 (IZR (Z.min
                         (JS.Math_floor (Terrain.plotSizeMeters plot / 8)
                          * JS.Math_floor (Terrain.plotSizeMeters plot / 8))
                         (JS.Math_round (areaHectares plot * 150))))))
           i.
Proof.
  unfold layout. intros H. apply in_map_iff in H.
  destruct H as (i & E & Hi). apply in_seq in Hi.
  exists i. split; [ | symmetry; exact E].
  unfold Terrain.plotSizeMeters. lia.
Qed.

(** X9.  The number of clumps [addBambooPlants] draws is at most 150 per
    hectare, rounded; every clump carries at least 5 and at most 12
    stalks, whatever the plot and the year; and every stalk has a
    thickness between 0.06 and 0.20 and a height between 0.7 and 1.2 times
    the base height of the year, hence between 0.35 and 30. *)
Theorem geo_stalks_in_range (plot : Plot) (year : R) :
  (Z.of_nat (length (layout plot year))
   <= Z.max 0 (JS.Math_round (areaHectares plot * 150)))%Z /\
  Forall
    (fun cl : Clump =>
       (5 <= length (stalks cl) <= 12)%nat /\
       Forall
         (fun st : Stalk =>
            0.06 <= thickness st < 0.20 /\
            0.7 * baseHeight (progressOf year) <= poleHeight st
              < 1.2 * baseHeight (progressOf year) /\
            0.35 < poleHeight st < 30)
         (stalks cl))
    (layout plot year).
Proof.
  split.
  - unfold layout. rewrite length_map, length_seq. lia.
  - apply Forall_forall. intros cl Hcl.
    destruct (layout_clump plot year cl Hcl) as (i & _ & E).
    subst cl. unfold clumpAt. cbn [stalks].
    pose proof (poleCountPerClump_range (progressOf year)) as C.
    split; [rewrite length_map, length_seq; lia | ].
    apply Forall_forall.
    intros st Hst. apply in_map_iff in Hst. destruct Hst as (k & E & _).
    subst st. unfold stalkAt. cbn [thickness poleHeight].
    pose proof (progressOf_range year) as P.
    pose proof (baseHeight_range (progressOf year)) as B.
    pose proof (seededRandom_range
                  (plotSeedOf plot + INR i * 100 + INR k * 10 + 3)) as R3.
    pose proof (seededRandom_range
                  (plotSeedOf plot + INR i * 100 + INR k * 10 + 4)) as R4.
    split; [lra | ]. split; nra.
Qed.

(** The grid [addBambooPlants] lays the clumps on fits the plot: with
    [r] clumps per row allowed by the plot's side, at most [r * r] clumps
    are drawn, on a grid of side at most [r]. *)
Lemma grid_fits (S : R) (r N : Z) (i : nat) :
  0 <= S ->
  r = JS.Math_floor (S / 8) ->
  (N <= r * r)%Z ->
  (Z.of_nat i < N)%Z ->
  let g := JS.Math_ceil (JS.Math_sqrt (IZR N)) in
  (1 <= g <= r)%Z /\
  (0 <= JS.Math_floor (INR i / IZR g) <= g - 1)%Z /\
  (0 <= Z.rem (Z.of_nat i) g <= g - 1)%Z /\
  IZR r * 8 <= S.
Proof.
  intros HS0 Er HN Hi g.
  assert (N1 : (1 <= N)%Z) by lia.
  assert (RN : 1 <= IZR N) by (apply IZR_le in N1; exact N1).
  assert (r0 : (0 <= r)%Z).
  { subst r. apply Zfloor_lub. lra. }
  assert (r1 : (1 <= r)%Z) by nia.
  assert (Rr : 0 <= IZR r) by (apply IZR_le in r0; exact r0).
  assert (SN : JS.Math_sqrt (IZR N) <= IZR r).
  { unfold JS.Math_sqrt.
    rewrite <- (sqrt_square (IZR r) Rr). apply sqrt_le_1_alt.
    rewrite <- mult_IZR. apply IZR_le. exact HN. }
  assert (S1 : 1 <= JS.Math_sqrt (IZR N)).
  { unfold JS.Math_sqrt. rewrite <- sqrt_1. apply sqrt_le_1_alt. exact RN. }
  pose proof (Zceil_bound (JS.Math_sqrt (IZR N))) as [_ Gu].
  fold (JS.Math_ceil (JS.Math_sqrt (IZR N))) in Gu. fold g in Gu.
  assert (Gr : (g <= r)%Z).
  { unfold g, JS.Math_ceil.
    rewrite <- (Zceil_eq r (IZR r)) by lra.
    apply Zceil_le. exact SN. }
  assert (G1 : (1 <= g)%Z).
  { apply le_IZR. lra. }
  assert (RG : 1 <= IZR g) by (apply IZR_le in G1; exact G1).
  assert (NG : IZR N <= IZR g * IZR g).
  { rewrite <- (sqrt_sqrt (IZR N)) by lra.
    unfold JS.Math_sqrt in *. nra. }
  assert (Ii : 0 <= INR i < IZR N).
  { rewrite INR_IZR_INZ. split.
    - apply IZR_le. lia.
    - apply IZR_lt. exact Hi. }
  assert (Q : 0 <= INR i / IZR g < IZR g).
  { split.
    - apply (Rmult_le_reg_r (IZR g)); [lra | ].
      replace (INR i / IZR g * IZR g) with (INR i) by (field; lra).
      lra.
    - apply (Rmult_lt_reg_r (IZR g)); [lra | ].
      replace (INR i / IZR g * IZR g) with (INR i) by (field; lra).
      lra. }
  pose proof (Zfloor_bound (INR i / IZR g)) as [Fl Fu].
  refine (conj (conj G1 Gr) (conj _ (conj _ _))).
  - unfold JS.Math_floor. split.
    + apply Zfloor_lub. lra.
    + assert (IZR (Zfloor (INR i / IZR g)) < IZR g) by lra.
      apply lt_IZR in H. lia.
  - pose proof (Z.rem_bound_pos (Z.of_nat i) g ltac:(lia) ltac:(lia)). lia.
  - subst r. unfold JS.Math_floor.
    pose proof (Zfloor_bound (S / 8)) as [B _]. lra.
Qed.

Lemma clump_offsets (plot : Plot) (year : R) (cl : Clump) :
  In cl (layout plot year) ->
  exists offsetX offsetZ : R,
    clumpLat cl = latitude plot + offsetZ / 111320 /\
    clumpLng cl =
      longitude plot
      + offsetX / (111320 * JS.Math_cos (latitude plot * JS.Math_PI / 180)) /\
    Rabs offsetX <= Terrain.plotSizeMeters plot / 2 - 3 /\
    Rabs offsetZ <= Terrain.plotSizeMeters plot / 2 - 3.
Proof.
  intros Hcl. destruct (layout_clump plot year cl Hcl) as (i & Hi & E).
  pose proof (grid_fits (Terrain.plotSizeMeters plot) _ _ i
                (sqrt_pos _) eq_refl (Z.le_min_l _ _) Hi) as G.
  cbv zeta in G.
  set (g := JS.Math_ceil _) in *.
  destruct G as ((G1 & Gr) & (W0 & W1) & (C0 & C1) & HS).
  set (r := JS.Math_floor (Terrain.plotSizeMeters plot / 8)) in *.
  subst cl. unfold clumpAt. cbn [clumpLat clumpLng].
  eexists _, _. split; [reflexivity | ]. split; [reflexivity | ].
  pose proof (seededRandom_range (plotSeedOf plot + INR i * 100)) as J0.
  pose proof (seededRandom_range (plotSeedOf plot + INR i * 100 + 1)) as J1.
  apply IZR_le in G1, Gr, W0, W1, C0, C1.
  rewrite minus_IZR in W1, C1.
  split; apply Rabs_le; lra.
Qed.

(** X10.  Every clump [addBambooPlants] draws stands inside the square the
    plot's area makes around the plot's position, at least three metres
    from its edge: measured in metres, its offset to the north and its
    offset to the east are at most half the side minus three. *)
Theorem geo_clumps_inside_plot (plot : Plot) (year : R) :
  -90 < latitude plot < 90 ->
  Forall
    (fun cl : Clump =>
       Rabs ((clumpLat cl - latitude plot) * 111320)
         <= Terrain.plotSizeMeters plot / 2 - 3 /\
       Rabs ((clumpLng cl - longitude plot)
             * (111320 * JS.Math_cos (latitude plot * JS.Math_PI / 180)))
         <= Terrain.plotSizeMeters plot / 2 - 3)
    (layout plot year).
Proof.
  intros HL. apply Forall_forall. intros cl Hcl.
  destruct (clump_offsets plot year cl Hcl) as (ox & oz & E1 & E2 & Bx & Bz).
  assert (C : 0 < JS.Math_cos (latitude plot * JS.Math_PI / 180)).
  { unfold JS.Math_cos, JS.Math_PI. pose proof PI_RGT_0.
    apply cos_gt_0; nra. }
  rewrite E1, E2. split.
  - replace ((latitude plot + oz / 111320 - latitude plot) * 111320)
      with oz by (field; lra).
    exact Bz.
  - match goal with |- Rabs ?e <= _ => replace e with ox by (field; lra) end.
    exact Bx.
Qed.

(** X11.  For a plot of at most one hectare every clump lies between the
    southern and the northern edge of the boundary polygon the terrain
    view drapes over the plot. *)
Theorem geo_clumps_inside_boundary (plot : Plot) (year : R) :
  0 <= areaHectares plot <= 1 ->
  Forall
    (fun cl : Clump =>
       Terrain.south (Terrain.boundaryOf plot) < clumpLat cl
         < Terrain.north (Terrain.boundaryOf plot))
    (layout plot year).
Proof.
  intros HA. apply Forall_forall. intros cl Hcl.
  destruct (clump_offsets plot year cl Hcl) as (ox & oz & E1 & _ & _ & Bz).
  assert (S : Terrain.plotSizeMeters plot <= 100).
  { unfold Terrain.plotSizeMeters, JS.Math_sqrt.
    replace 100 with (sqrt (100 * 100)) by (apply sqrt_square; lra).
    apply sqrt_le_1_alt. lra. }
  assert (B : - 47 <= oz <= 47).
  { revert Bz. unfold Rabs. destruct (Rcase_abs oz); lra. }
  rewrite E1. unfold Terrain.boundaryOf. cbn [Terrain.south Terrain.north].
  lra.
Qed.

Lemma layout_hectarePlot (year : R) :
  length (layout Terrain.hectarePlot year) = 144%nat.
Proof.
  unfold layout. rewrite length_map, length_seq.
  cbn [areaHectares Terrain.hectarePlot].
  assert (S : JS.Math_sqrt (1 * 10000) = 100).
  { unfold JS.Math_sqrt. replace (1 * 10000) with (100 * 100) by lra.
    apply sqrt_square. lra. }
  rewrite S.
  assert (F : JS.Math_floor (100 / 8) = 12%Z)
    by (apply Zfloor_eq; lra).
  assert (Rd : JS.Math_round (1 * 150) = 150%Z)
    by (apply Zfloor_eq; lra).
  rewrite F, Rd. reflexivity.
Qed.

Lemma geo_clumps_inside_plot_witness :
  -90 < latitude Terrain.hectarePlot < 90 /\
  Forall
    (fun cl : Clump =>
       Rabs ((clumpLat cl - latitude Terrain.hectarePlot) * 111320)
         <= Terrain.plotSizeMeters Terrain.hectarePlot / 2 - 3 /\
       Rabs ((clumpLng cl - longitude Terrain.hectarePlot)
             * (111320
                * JS.Math_cos
                    (latitude Terrain.hectarePlot * JS.Math_PI / 180)))
         <= Terrain.plotSizeMeters Terrain.hectarePlot / 2 - 3)
    (layout Terrain.hectarePlot 2030).
Proof.
  assert (H : -90 < latitude Terrain.hectarePlot < 90) by (simpl; lra).
  split; [exact H | ].
  apply (geo_clumps_inside_plot Terrain.hectarePlot 2030 H).
Defined.

Lemma geo_clumps_inside_boundary_witness :
  0 <= areaHectares Terrain.hectarePlot <= 1 /\
  Forall
    (fun cl : Clump =>
       Terrain.south (Terrain.boundaryOf Terrain.hectarePlot) < clumpLat cl
         < Terrain.north (Terrain.boundaryOf Terrain.hectarePlot))
    (layout Terrain.hectarePlot 2030).
Proof.
  assert (H : 0 <= areaHectares Terrain.hectarePlot <= 1) by (simpl; lra).
  split; [exact H | ].
  apply (geo_clumps_inside_boundary Terrain.hectarePlot 2030 H).
Defined.

End GeoLayout.

(** ** The pseudo-random sequence of the geo-referenced renderer, by
    rational enclosures *)

Section Numerics.
Import Approx.

Lemma Q2R_one : Q2R 1 = 1.
Proof. unfold Q2R. simpl. lra. Qed.

Lemma Q2R_inject_Z (z : Z) : Q2R (inject_Z z) = IZR z.
Proof. unfold Q2R, inject_Z. simpl. lra. Qed.

Lemma Q2R_qpow (q : Q) (n : nat) : Q2R (qpow q n) = Q2R q ^ n.
Proof.
  induction n as [ | n IH]; simpl.
  - apply Q2R_one.
  - rewrite Q2R_mult, IH. reflexivity.
Qed.

Lemma Q2R_sign (n : nat) : Q2R (sign n) = (-1) ^ n.
Proof.
  induction n as [ | n IH]; simpl.
  - apply Q2R_one.
  - rewrite Q2R_opp, IH. lra.
Qed.

Lemma Q2R_qsum (f : nat -> Q) (F : nat -> R) (n : nat) :
  (forall i, (i <= n)%nat -> Q2R (f i) = F i) ->
  Q2R (qsum f n) = sum_f_R0 F n.
Proof.
  induction n as [ | n IH]; intros H; simpl.
  - apply H. lia.
  - rewrite Q2R_plus, IH, H by (intros; try apply H; lia). reflexivity.
Qed.

Lemma IZR_zfact (n : nat) : IZR (zfact n) = INR (fact n).
Proof.
  induction n as [ | n IH].
  - reflexivity.
  - change (zfact (S n)) with (Z.of_nat (S n) * zfact n)%Z.
    change (fact (S n)) with (S n * fact n)%nat.
    rewrite mult_IZR, mult_INR, IH, <- INR_IZR_INZ. reflexivity.
Qed.

Lemma zfact_pos (n : nat) : (0 < zfact n)%Z.
Proof.
  induction n as [ | n IH]; [reflexivity | ].
  change (zfact (S n)) with (Z.of_nat (S n) * zfact n)%Z. lia.
Qed.

Lemma Q2R_atanTerm (x : Q) (n : nat) :
  Q2R (atanTerm x n) = Ratan_seq (Q2R x) n.
Proof.
  unfold atanTerm, Ratan_seq.
  rewrite Q2R_div, Q2R_qpow, Q2R_inject_Z, <- INR_IZR_INZ; [reflexivity | ].
  unfold Qeq. simpl. lia.
Qed.

Lemma Q2R_piTerm (n : nat) : Q2R (piTerm n) = tg_alt PI_2_3_7_tg n.
Proof.
  unfold piTerm, tg_alt, PI_2_3_7_tg.
  rewrite Q2R_mult, Q2R_plus, Q2R_mult, Q2R_sign, !Q2R_atanTerm.
  replace (Q2R 2) with 2 by (unfold Q2R; simpl; lra).
  replace (Q2R (1 # 3)) with (/ 3) by (unfold Q2R; simpl; lra).
  replace (Q2R (1 # 7)) with (/ 7) by (unfold Q2R; simpl; lra).
  reflexivity.
Qed.

(** [PI] to twenty decimal places. *)
Lemma PI_enclosure : Q2R piLo < PI < Q2R piHi.
Proof.
  pose proof (PI_2_3_7_ineq 10) as [L U].
  change (S (2 * 10)) with 21%nat in L. change (2 * 10)%nat with 20%nat in U.
  rewrite <- (Q2R_qsum piTerm) in L by (intros; apply Q2R_piTerm).
  rewrite <- (Q2R_qsum piTerm) in U by (intros; apply Q2R_piTerm).
  assert (A : Q2R piLo < Q2R (4 * qsum piTerm 21)).
  { apply Qlt_Rlt. vm_compute. reflexivity. }
  assert (B : Q2R (4 * qsum piTerm 20) < Q2R piHi).
  { apply Qlt_Rlt. vm_compute. reflexivity. }
  rewrite Q2R_mult in A, B.
  replace (Q2R 4) with 4 in A, B by (unfold Q2R; simpl; lra).
  lra.
Qed.

Lemma Q2R_sinTerm (a : Q) (i : nat) :
  Q2R (sinTerm a i) = sin_term (Q2R a) i.
Proof.
  unfold sinTerm, sin_term.
  rewrite Q2R_mult, Q2R_sign, Q2R_div, Q2R_qpow, Q2R_inject_Z, IZR_zfact;
    [reflexivity | ].
  unfold Qeq. cbn [Qnum Qden inject_Z].
  pose proof (zfact_pos (2 * i + 1)). lia.
Qed.

Lemma sin_enclosure (a : Q) :
  0 <= Q2R a -> Q2R a <= PI ->
  Q2R (sinLower a) <= sin (Q2R a) <= Q2R (sinUpper a).
Proof.
  intros H0 H1. unfold sinLower, sinUpper.
  rewrite !(Q2R_qsum (sinTerm a) (sin_term (Q2R a)))
    by (intros; apply Q2R_sinTerm).
  apply (sin_bound (Q2R a) 3 H0 H1).
Qed.

Lemma sin_half_turns (y : R) (j : Z) :
  (0 <= j)%Z ->
  sin (y + IZR j * PI) = if Z.even j then sin y else - sin y.
Proof.
  intros Hj.
  destruct (Z.even j) eqn:E.
  - apply Z.even_spec in E. destruct E as [m E]. subst j.
    rewrite mult_IZR.
    replace (y + 2 * IZR m * PI) with (y + 2 * INR (Z.to_nat m) * PI).
    + apply sin_period.
    + rewrite INR_IZR_INZ, Z2Nat.id by lia. reflexivity.
  - assert (O : Z.odd j = true) by (rewrite <- Z.negb_even, E; reflexivity).
    apply Z.odd_spec in O. destruct O as [m O]. subst j.
    rewrite plus_IZR, mult_IZR.
    replace (y + (2 * IZR m + 1) * PI)
      with (y + 2 * INR (Z.to_nat m) * PI + PI).
    + rewrite neg_sin, sin_period. reflexivity.
    + rewrite INR_IZR_INZ, Z2Nat.id by lia. ring.
Qed.

Lemma randomBelow_sound (theta j m : Z) (c : Q) (seed : R) :
  randomBelow theta j m c = true ->
  seed * 9999 = IZR theta ->
  0 <= Geo.seededRandom seed < Q2R c.
Proof.
  unfold randomBelow. cbv zeta.
  set (lo := (inject_Z j * piLo - inject_Z theta)%Q).
  set (hi := (inject_Z j * piHi - inject_Z theta)%Q).
  rewrite !andb_true_iff, negb_true_iff.
  intros (((((Hj & Hlo) & Hhi) & Hl) & Hu) & Hc) Hs.
  apply Z.leb_le in Hj.
  apply Qle_bool_iff, Qle_Rle in Hlo, Hhi, Hl, Hc.
  assert (Hu' : Q2R (if Z.even j then - (10000 * sinLower lo)
                     else 10000 * sinUpper hi)
                < Q2R (inject_Z m + c)).
  { apply Qlt_Rlt. apply Qnot_le_lt. intros C.
    apply Qle_bool_iff in C. congruence. }
  clear Hu.
  pose proof PI_enclosure as [P1 P2].
  assert (J : 0 <= IZR j) by (apply IZR_le; exact Hj).
  set (y := IZR j * PI - IZR theta).
  assert (Elo : Q2R lo = IZR j * Q2R piLo - IZR theta).
  { unfold lo. rewrite Q2R_minus, Q2R_mult, !Q2R_inject_Z. reflexivity. }
  assert (Ehi : Q2R hi = IZR j * Q2R piHi - IZR theta).
  { unfold hi. rewrite Q2R_minus, Q2R_mult, !Q2R_inject_Z. reflexivity. }
  assert (E0 : Q2R 0 = 0) by (unfold Q2R; simpl; lra).
  assert (E2 : Q2R (piLo / 2) = Q2R piLo / 2).
  { rewrite Q2R_div by (unfold Qeq; simpl; lia).
    replace (Q2R 2) with 2 by (unfold Q2R; simpl; lra). reflexivity. }
  rewrite E0 in Hlo. rewrite E2 in Hhi.
  assert (Y : Q2R lo <= y <= Q2R hi).
  { unfold y. rewrite Elo, Ehi. split; nra. }
  assert (S1 : Q2R (sinLower lo) <= sin y).
  { destruct (sin_enclosure lo) as [L _]; [lra | lra | ].
    apply (Rle_trans _ _ _ L). apply sin_incr_1; lra. }
  assert (S2 : sin y <= Q2R (sinUpper hi)).
  { destruct (sin_enclosure hi) as [_ U]; [lra | lra | ].
    refine (Rle_trans _ _ _ _ U). apply sin_incr_1; lra. }
  assert (T : sin (IZR theta) = if Z.even j then - sin y else sin y).
  { replace (IZR theta) with (- y + IZR j * PI) by (unfold y; ring).
    rewrite sin_half_turns by exact Hj. rewrite sin_neg.
    destruct (Z.even j); lra. }
  assert (X : IZR m <= sin (IZR theta) * 10000 < IZR m + Q2R c).
  { rewrite T. rewrite Q2R_plus, Q2R_inject_Z in Hu'.
    rewrite Q2R_inject_Z in Hl.
    assert (E10 : Q2R 10000 = 10000) by (unfold Q2R; simpl; lra).
    destruct (Z.even j).
    - rewrite Q2R_opp, Q2R_mult, E10 in Hl, Hu'. lra.
    - rewrite Q2R_mult, E10 in Hl, Hu'. lra. }
  assert (C1 : Q2R c <= 1).
  { replace 1 with (Q2R 1) by (unfold Q2R; simpl; lra). exact Hc. }
  unfold Geo.seededRandom, JS.Math_sin, JS.Math_floor. cbv zeta. rewrite Hs.
  rewrite (Zfloor_eq m) by lra. lra.
Qed.

(** The four values of [seededRandom] that place the stalks 0 and 4 of the
    clump 60 of a plot with the seed 133000. *)
Lemma seededRandom_139000 : 0 <= Geo.seededRandom 139000 < 0.3.
Proof.
  replace 0.3 with (Q2R (3 # 10)) by (unfold Q2R; simpl; lra).
  apply (randomBelow_sound 1389861000 442406497 7679);
    [vm_compute; reflexivity | lra].
Qed.

Lemma seededRandom_139001 : 0 <= Geo.seededRandom 139001 < 0.18.
Proof.
  replace 0.18 with (Q2R (18 # 100)) by (unfold Q2R; simpl; lra).
  apply (randomBelow_sound 1389870999 442409680 (-10000));
    [vm_compute; reflexivity | lra].
Qed.

Lemma seededRandom_139040 : 0 <= Geo.seededRandom 139040 < 0.3.
Proof.
  replace 0.3 with (Q2R (3 # 10)) by (unfold Q2R; simpl; lra).
  apply (randomBelow_sound 1390260960 442533808 (-1770));
    [vm_compute; reflexivity | lra].
Qed.

Lemma seededRandom_139041 : 0 <= Geo.seededRandom 139041 < 0.08.
Proof.
  replace 0.08 with (Q2R (8 # 100)) by (unfold Q2R; simpl; lra).
  apply (randomBelow_sound 1390270959 442536991 7626);
    [vm_compute; reflexivity | lra].
Qed.

End Numerics.

(** ** Stalks of the geo-referenced renderer that stand in each other *)

Section GeoOverlap.
Import Geo.

Lemma nth_error_map_seq {A : Type} (f : nat -> A) (n i : nat) :
  (i < n)%nat -> nth_error (map f (seq 0 n)) i = Some (f i).
Proof.
  intros H. rewrite nth_error_map, nth_error_seq.
  destruct (Nat.ltb_spec i n); [reflexivity | lia].
Qed.

(** Two points at the distances [r1] and [r2] from a centre are at most
    [r1 + r2] apart. *)
Lemma two_offsets (r1 r2 a1 a2 : R) :
  0 <= r1 -> 0 <= r2 ->
  sqrt ((cos a1 * r1 - cos a2 * r2) * (cos a1 * r1 - cos a2 * r2)
        + (sin a1 * r1 - sin a2 * r2) * (sin a1 * r1 - sin a2 * r2))
  <= r1 + r2.
Proof.
  intros H1 H2.
  pose proof (sin2_cos2 a1) as T1. pose proof (sin2_cos2 a2) as T2.
  unfold Rsqr in T1, T2.
  set (c1 := cos a1) in *. set (s1 := sin a1) in *.
  set (c2 := cos a2) in *. set (s2 := sin a2) in *.
  rewrite <- (sqrt_square (r1 + r2)) by lra.
  apply sqrt_le_1_alt.
  replace ((c1 * r1 - c2 * r2) * (c1 * r1 - c2 * r2)
           + (s1 * r1 - s2 * r2) * (s1 * r1 - s2 * r2))
    with (r1 * r1 * (s1 * s1 + c1 * c1) + r2 * r2 * (s2 * s2 + c2 * c2)
          - 2 * (r1 * r2) * (c1 * c2 + s1 * s2)) by ring.
  rewrite T1, T2.
  assert (D : 0 <= 1 + (c1 * c2 + s1 * s2)).
  { pose proof (Rle_0_sqr (c1 + c2)) as A.
    pose proof (Rle_0_sqr (s1 + s2)) as B.
    unfold Rsqr in A, B. lra. }
  assert (P : 0 <= r1 * r2) by (apply Rmult_le_pos; assumption).
  pose proof (Rmult_le_pos _ _ P D) as M.
  lra.
Qed.

(** A stalk of the centre bucket: its offsets, at the distance
    [seededRandom(poleSeed + 1) * 0.4] from the mound. *)
Lemma stalkAt_center (progress clumpSeed cLat cLng : R) (p : nat) :
  seededRandom (clumpSeed + INR p * 10) < 0.3 ->
  exists a : R,
    poleLat (stalkAt progress clumpSeed cLat cLng p)
    = cLat
      + sin a * (seededRandom (clumpSeed + INR p * 10 + 1) * 0.4) / 111320 /\
    poleLng (stalkAt progress clumpSeed cLat cLng p)
    = cLng
      + cos a * (seededRandom (clumpSeed + INR p * 10 + 1) * 0.4)
        / (111320 * cos (cLat * PI / 180)) /\
    thickness (stalkAt progress clumpSeed cLat cLng p)
    = 0.06 + seededRandom (clumpSeed + INR p * 10 + 4) * 0.08
      + progress * 0.06.
Proof.
  intros H. unfold stalkAt. rewrite (ltb_true _ _ H).
  cbn [poleLat poleLng thickness].
  eexists. split; [reflexivity | split; reflexivity].
Qed.

Lemma layout_hectarePlot_map (year : R) :
  exists g : Z,
    layout Terrain.hectarePlot year
    = map (clumpAt Terrain.hectarePlot (progressOf year)
             (plotSeedOf Terrain.hectarePlot) g)
          (seq 0 144).
Proof.
  unfold layout. cbn [areaHectares Terrain.hectarePlot].
  assert (S : JS.Math_sqrt (1 * 10000) = 100).
  { unfold JS.Math_sqrt. replace (1 * 10000) with (100 * 100) by lra.
    apply sqrt_square. lra. }
  rewrite S.
  assert (F : JS.Math_floor (100 / 8) = 12%Z)
    by (apply Zfloor_eq; lra).
  assert (Rd : JS.Math_round (1 * 150) = 150%Z)
    by (apply Zfloor_eq; lra).
  rewrite F, Rd. eexists. reflexivity.
Qed.

Lemma plotSeedOf_hectarePlot : plotSeedOf Terrain.hectarePlot = 133000.
Proof.
  unfold plotSeedOf, JS.Math_abs. cbn [latitude longitude Terrain.hectarePlot].
  rewrite Rabs_right; lra.
Qed.

(** On the plot of one hectare at latitude 8 and longitude 125, in every
    year, the first and the fifth stalk of the clump 60 stand less than
    0.104 m apart, while their thicknesses add up to 0.12 m at least. *)
Lemma geo_stalks_overlap (year : R) :
  exists (cl : Clump) (s1 s2 : Stalk),
    nth_error (layout Terrain.hectarePlot year) 60 = Some cl /\
    nth_error (stalks cl) 0 = Some s1 /\
    nth_error (stalks cl) 4 = Some s2 /\
    Terrain.groundDistance (clumpLat cl) s1 s2 < 0.104 /\
    0.12 <= thickness s1 + thickness s2.
Proof.
  destruct (layout_hectarePlot_map year) as [g E].
  rewrite plotSeedOf_hectarePlot in E.
  set (cl := clumpAt Terrain.hectarePlot (progressOf year) 133000 g 60).
  assert (N : nth_error (layout Terrain.hectarePlot year) 60 = Some cl).
  { rewrite E. apply nth_error_map_seq. lia. }
  pose proof (nth_error_In _ _ N) as I.
  destruct (clump_offsets _ _ _ I) as (ox & oz & EL & _ & _ & Bz).
  assert (S : Terrain.plotSizeMeters Terrain.hectarePlot = 100).
  { unfold Terrain.plotSizeMeters, JS.Math_sqrt.
    cbn [areaHectares Terrain.hectarePlot].
    replace (1 * 10000) with (100 * 100) by lra. apply sqrt_square. lra. }
  rewrite S in Bz. cbn [latitude Terrain.hectarePlot] in EL.
  assert (Oz : -47 <= oz <= 47).
  { revert Bz. unfold Rabs. destruct (Rcase_abs oz); lra. }
  pose proof PI_RGT_0 as Pp. pose proof PI_4 as P4.
  assert (C : 0 < cos (clumpLat cl * PI / 180)).
  { rewrite EL. apply cos_gt_0; nra. }
  pose proof (poleCountPerClump_range (progressOf year)) as Pc.
  pose proof (progressOf_range year) as Pr.
  set (cs := 133000 + INR 60 * 100).
  assert (St : stalks cl
               = map (stalkAt (progressOf year) cs (clumpLat cl) (clumpLng cl))
                     (seq 0 (Z.to_nat
                               (Z.min (poleCountPerClump (progressOf year))
                                      12)))) by reflexivity.
  assert (E0 : cs + INR 0 * 10 = 139000) by (unfold cs; simpl; lra).
  assert (E4 : cs + INR 4 * 10 = 139040) by (unfold cs; simpl; lra).
  destruct (stalkAt_center (progressOf year) cs (clumpLat cl) (clumpLng cl) 0)
    as (a1 & La1 & Lo1 & T1).
  { rewrite E0. apply seededRandom_139000. }
  destruct (stalkAt_center (progressOf year) cs (clumpLat cl) (clumpLng cl) 4)
    as (a2 & La2 & Lo2 & T2).
  { rewrite E4. apply seededRandom_139040. }
  rewrite E0 in La1, Lo1, T1. rewrite E4 in La2, Lo2, T2.
  replace (139000 + 1) with 139001 in La1, Lo1 by lra.
  replace (139040 + 1) with 139041 in La2, Lo2 by lra.
  pose proof seededRandom_139001 as R1. pose proof seededRandom_139041 as R2.
  pose proof (seededRandom_range (139000 + 4)) as Q1.
  pose proof (seededRandom_range (139040 + 4)) as Q2.
  set (r1 := seededRandom 139001 * 0.4) in *.
  set (r2 := seededRandom 139041 * 0.4) in *.
  exists cl, (stalkAt (progressOf year) cs (clumpLat cl) (clumpLng cl) 0),
    (stalkAt (progressOf year) cs (clumpLat cl) (clumpLng cl) 4).
  split; [exact N | ].
  split; [rewrite St; apply nth_error_map_seq; lia | ].
  split; [rewrite St; apply nth_error_map_seq; lia | ].
  split; [ | rewrite T1, T2; nra].
  unfold Terrain.groundDistance, JS.Math_sqrt, JS.Math_cos, JS.Math_PI.
  cbv zeta. rewrite La1, La2, Lo1, Lo2.
  set (K := cos (clumpLat cl * PI / 180)) in *.
  replace ((clumpLat cl + sin a1 * r1 / 111320
            - (clumpLat cl + sin a2 * r2 / 111320)) * 111320)
    with (sin a1 * r1 - sin a2 * r2) by (field; lra).
  replace ((clumpLng cl + cos a1 * r1 / (111320 * K)
            - (clumpLng cl + cos a2 * r2 / (111320 * K))) * (111320 * K))
    with (cos a1 * r1 - cos a2 * r2) by (field; lra).
  apply (Rle_lt_trans _ (r1 + r2)).
  - apply two_offsets; unfold r1, r2; lra.
  - unfold r1, r2. lra.
Qed.

(** C4 as stated fails in both renderers.  In the schematic engine, on
    [closeDraws], the constructor leaves two live stalks 0.135 apart whose
    exclusion radii, the footprints recorded for them, are 0.072 each.  In
    the geo-referenced renderer, on the plot of one hectare at latitude 8
    and longitude 125 in 2030, the first and the fifth stalk of the clump
    60 stand closer than the sum of their thicknesses, which are the base
    radii of their cylinders. *)
Lemma stalks_overlap_counterexample :
  (Rng.valid Schematic.closeDraws /\
   exists p q : Schematic.BambooPole,
     nth_error (Schematic.poles
                  (fst (Schematic.newBambooClump Schematic.closeDraws))) 0
     = Some p /\
     nth_error (Schematic.poles
                  (fst (Schematic.newBambooClump Schematic.closeDraws))) 1
     = Some q /\
     Schematic.isHarvested p = false /\ Schematic.isHarvested q = false /\
     Schematic.distance p q = 0.135 /\
     Schematic.thickness p * 1.2 + Schematic.thickness q * 1.2 = 0.144 /\
     Schematic.radiusBottom (Schematic.mesh p)
     + Schematic.radiusBottom (Schematic.mesh q) = 0.144) /\
  exists (cl : Clump) (s1 s2 : Stalk),
    nth_error (layout Terrain.hectarePlot 2030) 60 = Some cl /\
    nth_error (stalks cl) 0 = Some s1 /\
    nth_error (stalks cl) 4 = Some s2 /\
    Terrain.groundDistance (clumpLat cl) s1 s2
    < thickness s1 + thickness s2.
Proof.
  split; [exact close_stalks_overlap | ].
  destruct (geo_stalks_overlap 2030) as (cl & s1 & s2 & N & H1 & H2 & D & T).
  exists cl, s1, s2. repeat (split; [assumption | ]). lra.
Qed.

End GeoOverlap.

(** ** The lidar overlay *)

Section LidarOverlay.
Import Rng Lidar.
Local Open Scope rng_scope.

Lemma forRange_length {A} (k : nat) (body : nat -> M (list A))
      (from count : nat) (g : Rng.t) :
  (forall i g', length (fst (body i g')) = k) ->
  length (fst (forRange body from count g)) = (count * k)%nat.
Proof.
  intros Hb. revert from g.
  induction count as [ | n IH]; intros from g; [reflexivity | ].
  cbn [forRange]. unfold bind.
  specialize (Hb from g). destruct (body from g) as [l g1].
  specialize (IH (S from) g1).
  destruct (forRange body (S from) n g1) as [rest g2].
  cbn [fst ret] in *. rewrite length_app, Hb, IH. lia.
Qed.

Lemma forRange_Forall {A} (P : A -> Prop) (body : nat -> M (list A))
      (from count : nat) (g : Rng.t) :
  (forall i g', (from <= i < from + count)%nat -> valid g' ->
                valid (snd (body i g')) /\ Forall P (fst (body i g'))) ->
  valid g ->
  valid (snd (forRange body from count g)) /\
  Forall P (fst (forRange body from count g)).
Proof.
  revert from g.
  induction count as [ | n IH]; intros from g Hb Hg.
  - split; [exact Hg | constructor].
  - cbn [forRange]. unfold bind.
    destruct (Hb from g ltac:(lia) Hg) as [V1 F1].
    destruct (body from g) as [l g1]. cbn [fst snd] in V1, F1.
    destruct (IH (S from) g1) as [V2 F2]; [ | exact V1 | ].
    { intros i g' Hi. apply Hb. lia. }
    destruct (forRange body (S from) n g1) as [rest g2].
    cbn [fst snd ret] in *. split; [exact V2 | ].
    apply Forall_app. split; assumption.
Qed.

Lemma forRange_draws {A} (d : nat) (body : nat -> M (list A))
      (from count : nat) :
  (forall i, draws d (body i)) ->
  draws (count * d) (forRange body from count).
Proof.
  intros Hb. revert from.
  induction count as [ | n IH]; intros from g k.
  - reflexivity.
  - cbn [forRange]. unfold bind.
    pose proof (Hb from g) as D1.
    destruct (body from g) as [l g1]. cbn [snd] in D1.
    pose proof (IH (S from) g1 k) as D2.
    destruct (forRange body (S from) n g1) as [rest g2].
    cbn [snd ret] in *. rewrite D2. unfold after in *. rewrite D1.
    f_equal. lia.
Qed.

Lemma numPoints_25 : Z.to_nat numPoints = 25%nat.
Proof.
  unfold numPoints, hectareMeters, gridResolution.
  replace (JS.Math_floor (100 / 4)) with 25%Z; [reflexivity | ].
  symmetry. apply Zfloor_eq. lra.
Qed.

Lemma pointAt_draws (plot : Geo.Plot) (base : R) (x z : nat) :
  draws 4 (pointAt plot base x z).
Proof. intros g n. reflexivity. Qed.

Lemma pointAt_valid (plot : Geo.Plot) (base : R) (x z : nat) (g : Rng.t) :
  valid g -> valid (snd (pointAt plot base x z g)).
Proof. intros Hg n. rewrite pointAt_draws. apply Hg. Qed.

Lemma pointAt_inRange (plot : Geo.Plot) (year : R) (x z : nat) (g : Rng.t) :
  (x < 25)%nat -> (z < 25)%nat -> valid g ->
  pointInRange plot year
    (fst (pointAt plot (Geo.baseHeight (Geo.progressOf year)) x z g)).
Proof.
  intros Hx Hz Hg.
  pose proof (Hg 0%nat) as G0. pose proof (Hg 1%nat) as G1.
  pose proof (Hg 2%nat) as G2. pose proof (Hg 3%nat) as G3.
  pose proof (baseHeight_range (Geo.progressOf year)) as B.
  unfold pointAt, bind, Math_random, ret. cbn [fst].
  unfold pointInRange. cbn [pointLat pointHeight].
  unfold halfSize, hectareMeters, gridResolution.
  set (r1 := g 0%nat) in *. set (r2 := g 1%nat) in *.
  set (r3 := g 2%nat) in *. set (r4 := g 3%nat) in *.
  assert (X : 0 <= INR x <= 24).
  { split; [apply pos_INR | ].
    replace 24 with (INR 24) by (simpl; lra). apply le_INR. lia. }
  assert (Z : 0 <= INR z <= 24).
  { split; [apply pos_INR | ].
    replace 24 with (INR 24) by (simpl; lra). apply le_INR. lia. }
  set (ox := INR x * 4 - 100 / 2 + 4 * r1).
  set (oz := INR z * 4 - 100 / 2 + 4 * r2).
  assert (Ox : -50 <= ox < 50) by (unfold ox; lra).
  assert (Oz : -50 <= oz < 50) by (unfold oz; lra).
  set (d := JS.Math_sqrt (ox * ox + oz * oz) / (100 / 2)).
  assert (D : 0 <= d <= 2).
  { unfold d, JS.Math_sqrt.
    pose proof (sqrt_pos (ox * ox + oz * oz)) as S0.
    assert (S1 : sqrt (ox * ox + oz * oz) <= 100).
    { replace 100 with (sqrt (100 * 100)) by (apply sqrt_square; lra).
      apply sqrt_le_1_alt. nra. }
    lra. }
  set (cp := JS.Math_sin (ox * 0.15) * JS.Math_sin (oz * 0.15)).
  assert (Cp : -1 <= cp <= 1).
  { unfold cp, JS.Math_sin.
    pose proof (SIN_bound (ox * 0.15)). pose proof (SIN_bound (oz * 0.15)).
    nra. }
  set (a := 1 - d * 0.3). set (n := r3 * 0.4 + 0.6).
  set (c := 0.8 + cp * 0.4).
  assert (A : 0 <= a <= 1) by (unfold a; lra).
  assert (N : 0 <= n < 1) by (unfold n; lra).
  assert (C : 0 <= c <= 1.2) by (unfold c; lra).
  assert (AN : 0 <= a * n < 1) by nra.
  assert (ANC : a * n * c < 1.2) by nra.
  set (hf := JS.Math_max 0.1 (a * n * c)).
  assert (HF : 0.1 <= hf < 1.2).
  { unfold hf, JS.Math_max. split; [apply Rmax_l | ].
    apply Rmax_lub_lt; lra. }
  set (v := 0.3 + r4 * 0.7).
  assert (V : 0.3 <= v < 1) by (unfold v; lra).
  assert (HV : 0.03 <= hf * v < 1.2) by nra.
  set (base := Geo.baseHeight (Geo.progressOf year)) in *.
  replace (base * hf * v) with (base * (hf * v)) by ring.
  unfold Terrain.boundaryOf. cbn [Terrain.south Terrain.north].
  split; [lra | ]. split; nra.
Qed.

(** X12.  The lidar overlay always has 625 points, whatever the plot, the
    year and the draws, and takes exactly 2500 draws from the random
    source, four for each point.  With draws in [[0, 1)] every point lies
    between the southern and the northern edge of the plot's boundary
    polygon and has a height between 0.03 and 1.2 times the base height
    of the year, hence between 0.015 and 30; and the source is left within
    its contract. *)
Theorem lidar_points (plot : Geo.Plot) (year : R) (g : Rng.t) :
  valid g ->
  length (fst (addLidarPointCloud plot year g)) = 625%nat /\
  draws 2500 (addLidarPointCloud plot year) /\
  valid (snd (addLidarPointCloud plot year g)) /\
  Forall (pointInRange plot year) (fst (addLidarPointCloud plot year g)).
Proof.
  intros Hg. unfold addLidarPointCloud. rewrite numPoints_25.
  split; [ | split].
  - rewrite (forRange_length 25); [reflexivity | ].
    intros i g'. rewrite (forRange_length 1); [reflexivity | ].
    intros j g''. reflexivity.
  - apply (forRange_draws 100). intros i.
    apply (forRange_draws 4). intros j g' n. reflexivity.
  - apply forRange_Forall; [ | exact Hg].
    intros i g1 Hi Hg1. apply forRange_Forall; [ | exact Hg1].
    intros j g2 Hj Hg2. split.
    + pose proof (pointAt_valid plot (Geo.baseHeight (Geo.progressOf year))
                    i j g2 Hg2) as V.
      unfold bind.
      destruct (pointAt plot (Geo.baseHeight (Geo.progressOf year)) i j g2)
        as [p g3].
      exact V.
    + unfold bind.
      pose proof (pointAt_inRange plot year i j g2 ltac:(lia) ltac:(lia) Hg2)
        as P.
      destruct (pointAt plot (Geo.baseHeight (Geo.progressOf year)) i j g2)
        as [p g3].
      cbn [fst ret] in *.
      constructor; [exact P | constructor].
Qed.

Lemma lidar_points_witness :
  valid (const (1 / 2)) /\
  length (fst (addLidarPointCloud Terrain.hectarePlot 2030 (const (1 / 2))))
    = 625%nat /\
  draws 2500 (addLidarPointCloud Terrain.hectarePlot 2030) /\
  valid (snd (addLidarPointCloud Terrain.hectarePlot 2030 (const (1 / 2)))) /\
  Forall (pointInRange Terrain.hectarePlot 2030)
         (fst (addLidarPointCloud Terrain.hectarePlot 2030 (const (1 / 2)))).
Proof.
  assert (H : valid (const (1 / 2))) by (intros n; unfold const; lra).
  split; [exact H | ].
  apply (lidar_points Terrain.hectarePlot 2030 (const (1 / 2)) H).
Defined.

End LidarOverlay.

(** ** The income card over the years *)

Section IncomeOverYears.
Import Economics.

Lemma yearsGrown_mono (y1 y2 : R) :
  y1 <= y2 ->
  JS.Math_max 0 (y1 - plantingYear) <= JS.Math_max 0 (y2 - plantingYear).
Proof.
  intros H. unfold JS.Math_max. apply Rmax_lub.
  - apply Rmax_l.
  - pose proof (Rmax_r 0 (y2 - plantingYear)). lra.
Qed.

Lemma progress_mono (plot : Geo.Plot) (y1 y2 : R) :
  y1 <= y2 -> progress (figures plot y1) <= progress (figures plot y2).
Proof.
  intros H. cbn [progress figures]. pose proof (yearsGrown_mono y1 y2 H) as Y.
  unfold JS.Math_min. apply Rmin_glb.
  - apply Rmin_l.
  - pose proof (Rmin_r 1 (JS.Math_max 0 (y1 - plantingYear) / 6)). lra.
Qed.

Lemma polesPerClump_uncapped (plot : Geo.Plot) (year : R) :
  polesPerClump (figures plot year) = 5 + progress (figures plot year) * 95.
Proof.
  pose proof (progress_range plot year) as P.
  cbn [polesPerClump progress figures] in *.
  unfold JS.Math_min at 1. apply Rmin_right. lra.
Qed.

Lemma totalClumps_nonneg (plot : Geo.Plot) (year : R) :
  0 <= Geo.areaHectares plot -> (0 <= totalClumps (figures plot year))%Z.
Proof.
  intros H. cbn [totalClumps figures]. apply Math_round_nonneg.
  unfold clumpsPerHa. lra.
Qed.

Lemma canHarvest_mono (plot : Geo.Plot) (y1 y2 : R) :
  y1 <= y2 ->
  canHarvest (figures plot y1) = true -> canHarvest (figures plot y2) = true.
Proof.
  intros H. cbn [canHarvest figures]. unfold JS.geb.
  rewrite !leb_spec. pose proof (yearsGrown_mono y1 y2 H). lra.
Qed.

Lemma harvestable_cases (plot : Geo.Plot) (year : R) :
  harvestablePolesPerYear (figures plot year) =
    if canHarvest (figures plot year)
    then (totalClumps (figures plot year) * 20)%Z else 0%Z.
Proof. reflexivity. Qed.

(** X13.  For a plot of non-negative area no figure of the income card
    goes down when the year goes up: growth progress, carbon income, poles
    per clump, total poles, harvestable poles, harvest income and total
    income are all non-decreasing in the year. *)
Theorem incomes_monotone_in_year (plot : Geo.Plot) (y1 y2 : R) :
  0 <= Geo.areaHectares plot ->
  y1 <= y2 ->
  progress (figures plot y1) <= progress (figures plot y2) /\
  carbonIncome (figures plot y1) <= carbonIncome (figures plot y2) /\
  polesPerClump (figures plot y1) <= polesPerClump (figures plot y2) /\
  totalPoles (figures plot y1) <= totalPoles (figures plot y2) /\
  (harvestablePolesPerYear (figures plot y1)
   <= harvestablePolesPerYear (figures plot y2))%Z /\
  harvestIncome (figures plot y1) <= harvestIncome (figures plot y2) /\
  totalIncome (figures plot y1) <= totalIncome (figures plot y2).
Proof.
  intros HA Hy.
  pose proof (progress_mono plot y1 y2 Hy) as P.
  pose proof (progress_range plot y1) as P1.
  pose proof (totalClumps_nonneg plot y1 HA) as T.
  assert (TR : 0 <= IZR (totalClumps (figures plot y1)))
    by (apply IZR_le in T; exact T).
  assert (TE : totalClumps (figures plot y2) = totalClumps (figures plot y1))
    by reflexivity.
  assert (CI : carbonIncome (figures plot y1)
               <= carbonIncome (figures plot y2)).
  { destruct (figures_incomes plot y1) as [-> _].
    destruct (figures_incomes plot y2) as [-> _].
    unfold carbonRatePerHaPerYear, carbonRatePerHa, carbonPricePerTon. nra. }
  assert (PP : polesPerClump (figures plot y1)
               <= polesPerClump (figures plot y2)).
  { rewrite !polesPerClump_uncapped. lra. }
  assert (HP : (harvestablePolesPerYear (figures plot y1)
                <= harvestablePolesPerYear (figures plot y2))%Z).
  { rewrite !harvestable_cases, TE.
    pose proof (canHarvest_mono plot y1 y2 Hy) as C.
    destruct (canHarvest (figures plot y1)).
    - rewrite (C eq_refl). lia.
    - destruct (canHarvest (figures plot y2)); lia. }
  assert (HI : harvestIncome (figures plot y1)
               <= harvestIncome (figures plot y2)).
  { destruct (figures_incomes plot y1) as [_ ->].
    destruct (figures_incomes plot y2) as [_ ->].
    apply IZR_le in HP. unfold polePrice. lra. }
  refine (conj P (conj CI (conj PP (conj _ (conj HP (conj HI _)))))).
  - change (totalPoles (figures plot y1))
      with (IZR (totalClumps (figures plot y1))
            * polesPerClump (figures plot y1)).
    change (totalPoles (figures plot y2))
      with (IZR (totalClumps (figures plot y1))
            * polesPerClump (figures plot y2)).
    nra.
  - change (totalIncome (figures plot y1))
      with (carbonIncome (figures plot y1) + harvestIncome (figures plot y1)).
    change (totalIncome (figures plot y2))
      with (carbonIncome (figures plot y2) + harvestIncome (figures plot y2)).
    lra.
Qed.

Lemma incomes_monotone_in_year_witness :
  0 <= Geo.areaHectares Terrain.hectarePlot /\
  2028 <= 2031 /\
  progress (figures Terrain.hectarePlot 2028)
    <= progress (figures Terrain.hectarePlot 2031) /\
  carbonIncome (figures Terrain.hectarePlot 2028)
    <= carbonIncome (figures Terrain.hectarePlot 2031) /\
  polesPerClump (figures Terrain.hectarePlot 2028)
    <= polesPerClump (figures Terrain.hectarePlot 2031) /\
  totalPoles (figures Terrain.hectarePlot 2028)
    <= totalPoles (figures Terrain.hectarePlot 2031) /\
  (harvestablePolesPerYear (figures Terrain.hectarePlot 2028)
   <= harvestablePolesPerYear (figures Terrain.hectarePlot 2031))%Z /\
  harvestIncome (figures Terrain.hectarePlot 2028)
    <= harvestIncome (figures Terrain.hectarePlot 2031) /\
  totalIncome (figures Terrain.hectarePlot 2028)
    <= totalIncome (figures Terrain.hectarePlot 2031).
Proof.
  assert (H1 : 0 <= Geo.areaHectares Terrain.hectarePlot) by (simpl; lra).
  assert (H2 : 2028 <= 2031) by lra.
  split; [exact H1 | ]. split; [exact H2 | ].
  apply (incomes_monotone_in_year Terrain.hectarePlot 2028 2031 H1 H2).
Defined.

Lemma progress_saturated (plot : Geo.Plot) (year : R) :
  2032 <= year -> progress (figures plot year) = 1.
Proof.
  intros H. cbn [progress figures]. unfold JS.Math_min, JS.Math_max.
  apply Rmin_left. unfold plantingYear.
  pose proof (Rmax_r 0 (year - 2026)). lra.
Qed.

Lemma canHarvest_from_2031 (plot : Geo.Plot) (year : R) :
  2031 <= year -> canHarvest (figures plot year) = true.
Proof.
  intros H. cbn [canHarvest figures]. unfold JS.geb. apply leb_spec.
  unfold JS.Math_max, harvestStartYear, plantingYear.
  pose proof (Rmax_r 0 (year - 2026)). lra.
Qed.

(** X14.  From 2032 on the income card no longer changes: the growth
    progress is 1, the carbon rate 87.5, the carbon income 2625 per
    hectare, there are 100 poles per clump, 20 of them harvestable, the
    harvest income is 200 per clump, and every income equals that of
    2032. *)
Theorem incomes_saturate (plot : Geo.Plot) (year : R) :
  2032 <= year ->
  progress (figures plot year) = 1 /\
  currentCarbonRate (figures plot year) = 87.5 /\
  carbonIncome (figures plot year) = Geo.areaHectares plot * 2625 /\
  polesPerClump (figures plot year) = 100 /\
  totalPoles (figures plot year)
    = IZR (totalClumps (figures plot year)) * 100 /\
  harvestablePolesPerYear (figures plot year)
    = (totalClumps (figures plot year) * 20)%Z /\
  harvestIncome (figures plot year)
    = IZR (totalClumps (figures plot year)) * 200 /\
  carbonIncome (figures plot year) = carbonIncome (figures plot 2032) /\
  harvestIncome (figures plot year) = harvestIncome (figures plot 2032) /\
  totalIncome (figures plot year) = totalIncome (figures plot 2032).
Proof.
  intros H.
  pose proof (progress_saturated plot year H) as P.
  pose proof (progress_saturated plot 2032 ltac:(lra)) as P0.
  pose proof (canHarvest_from_2031 plot year ltac:(lra)) as C.
  pose proof (canHarvest_from_2031 plot 2032 ltac:(lra)) as C0.
  assert (R1 : currentCarbonRate (figures plot year) = 87.5).
  { change (currentCarbonRate (figures plot year))
      with (carbonRatePerHa * progress (figures plot year)).
    rewrite P. unfold carbonRatePerHa. lra. }
  assert (CI : forall y, progress (figures plot y) = 1 ->
                         carbonIncome (figures plot y)
                         = Geo.areaHectares plot * 2625).
  { intros y Py. destruct (figures_incomes plot y) as [-> _]. rewrite Py.
    unfold carbonRatePerHaPerYear, carbonRatePerHa, carbonPricePerTon. lra. }
  assert (PP : polesPerClump (figures plot year) = 100).
  { rewrite polesPerClump_uncapped, P. lra. }
  assert (HP : forall y, canHarvest (figures plot y) = true ->
                         harvestablePolesPerYear (figures plot y)
                         = (totalClumps (figures plot y) * 20)%Z).
  { intros y Cy. rewrite harvestable_cases, Cy. reflexivity. }
  assert (HI : forall y, canHarvest (figures plot y) = true ->
                         harvestIncome (figures plot y)
                         = IZR (totalClumps (figures plot y)) * 200).
  { intros y Cy. destruct (figures_incomes plot y) as [_ ->].
    rewrite (HP y Cy), mult_IZR. unfold polePrice. lra. }
  refine (conj P (conj R1 (conj (CI _ P) (conj PP (conj _ (conj (HP _ C)
            (conj (HI _ C) (conj _ (conj _ _))))))))).
  - change (totalPoles (figures plot year))
      with (IZR (totalClumps (figures plot year))
            * polesPerClump (figures plot year)).
    rewrite PP. reflexivity.
  - rewrite (CI _ P), (CI _ P0). reflexivity.
  - rewrite (HI _ C), (HI _ C0). reflexivity.
  - change (totalIncome (figures plot year))
      with (carbonIncome (figures plot year) + harvestIncome (figures plot year)).
    change (totalIncome (figures plot 2032))
      with (carbonIncome (figures plot 2032) + harvestIncome (figures plot 2032)).
    rewrite (CI _ P), (CI _ P0), (HI _ C), (HI _ C0). reflexivity.
Qed.

Lemma incomes_saturate_witness :
  2032 <= 2040 /\
  progress (figures Terrain.hectarePlot 2040) = 1 /\
  currentCarbonRate (figures Terrain.hectarePlot 2040) = 87.5 /\
  carbonIncome (figures Terrain.hectarePlot 2040)
    = Geo.areaHectares Terrain.hectarePlot * 2625 /\
  polesPerClump (figures Terrain.hectarePlot 2040) = 100 /\
  totalPoles (figures Terrain.hectarePlot 2040)
    = IZR (totalClumps (figures Terrain.hectarePlot 2040)) * 100 /\
  harvestablePolesPerYear (figures Terrain.hectarePlot 2040)
    = (totalClumps (figures Terrain.hectarePlot 2040) * 20)%Z /\
  harvestIncome (figures Terrain.hectarePlot 2040)
    = IZR (totalClumps (figures Terrain.hectarePlot 2040)) * 200 /\
  carbonIncome (figures Terrain.hectarePlot 2040)
    = carbonIncome (figures Terrain.hectarePlot 2032) /\
  harvestIncome (figures Terrain.hectarePlot 2040)
    = harvestIncome (figures Terrain.hectarePlot 2032) /\
  totalIncome (figures Terrain.hectarePlot 2040)
    = totalIncome (figures Terrain.hectarePlot 2032).
Proof.
  assert (H : 2032 <= 2040) by lra.
  split; [exact H | ].
  apply (incomes_saturate Terrain.hectarePlot 2040 H).
Defined.

(** X15.  In the planting year 2026 and before it the card shows no
    income at all, whatever the area: no years grown, growth progress 0,
    carbon income 0, harvest income 0, total income 0, and 5 poles per
    clump.  The cap of 100 poles per clump never binds: the figure always
    is [5 + progress * 95]. *)
Theorem incomes_before_planting (plot : Geo.Plot) (year : R) :
  year <= 2026 ->
  yearsGrown (figures plot year) = 0 /\
  progress (figures plot year) = 0 /\
  carbonIncome (figures plot year) = 0 /\
  harvestIncome (figures plot year) = 0 /\
  totalIncome (figures plot year) = 0 /\
  polesPerClump (figures plot year) = 5 /\
  forall y : R,
    polesPerClump (figures plot y) = 5 + progress (figures plot y) * 95.
Proof.
  intros H.
  assert (Y : yearsGrown (figures plot year) = 0).
  { cbn [yearsGrown figures]. unfold JS.Math_max, plantingYear.
    apply Rmax_left. lra. }
  assert (P : progress (figures plot year) = 0).
  { change (progress (figures plot year))
      with (JS.Math_min 1 (yearsGrown (figures plot year) / 6)).
    rewrite Y. unfold JS.Math_min. rewrite Rmin_right; lra. }
  assert (CI : carbonIncome (figures plot year) = 0).
  { destruct (figures_incomes plot year) as [-> _]. rewrite P.
    unfold carbonRatePerHaPerYear. lra. }
  assert (HI : harvestIncome (figures plot year) = 0).
  { destruct (figures_incomes plot year) as [_ ->].
    destruct (harvestable_before_threshold plot year) as [_ ->].
    - unfold plantingYear, harvestStartYear. lra.
    - lra. }
  refine (conj Y (conj P (conj CI (conj HI (conj _ (conj _ _)))))).
  - change (totalIncome (figures plot year))
      with (carbonIncome (figures plot year) + harvestIncome (figures plot year)).
    rewrite CI, HI. lra.
  - rewrite polesPerClump_uncapped, P. lra.
  - intros y. apply polesPerClump_uncapped.
Qed.

Lemma incomes_before_planting_witness :
  2026 <= 2026 /\
  yearsGrown (figures Terrain.hectarePlot 2026) = 0 /\
  progress (figures Terrain.hectarePlot 2026) = 0 /\
  carbonIncome (figures Terrain.hectarePlot 2026) = 0 /\
  harvestIncome (figures Terrain.hectarePlot 2026) = 0 /\
  totalIncome (figures Terrain.hectarePlot 2026) = 0 /\
  polesPerClump (figures Terrain.hectarePlot 2026) = 5 /\
  forall y : R,
    polesPerClump (figures Terrain.hectarePlot y)
    = 5 + progress (figures Terrain.hectarePlot y) * 95.
Proof.
  assert (H : 2026 <= 2026) by lra.
  split; [exact H | ].
  apply (incomes_before_planting Terrain.hectarePlot 2026 H).
Defined.

End IncomeOverYears.

(** ** The animation loop and the year handle *)

Section AnimationLoop.
Import Rng Schematic Driver.

Lemma rem_10_range (t : R) : 10 <= t -> 0 <= rem t 10 < 10.
Proof.
  intros H. unfold rem, truncate.
  destruct (Rlt_dec (t / 10) 0) as [N | _]; [lra | ].
  pose proof (Zfloor_bound (t / 10)). lra.
Qed.

Lemma rem_10_whole (t : R) :
  10 <= t -> exists n : Z, (1 <= n)%Z /\ rem t 10 = t - 10 * IZR n.
Proof.
  intros H. unfold rem, truncate.
  destruct (Rlt_dec (t / 10) 0) as [N | _]; [lra | ].
  exists (Zfloor (t / 10)). split; [ | reflexivity].
  apply Zfloor_lub. lra.
Qed.

(** The clock of the animation after one frame. *)
Lemma advance_clock (k : Clock) (timestamp : R) :
  0 <= time k ->
  lastTimestamp k <= timestamp ->
  0 <= time (advance k timestamp) < 10 /\
  exists n : Z,
    (0 <= n)%Z /\
    time (advance k timestamp)
    = time k + (timestamp - lastTimestamp k) / 1000 - 10 * IZR n.
Proof.
  intros H0 Ht.
  set (t1 := time k + (timestamp - lastTimestamp k) / 1000).
  assert (T1 : 0 <= t1) by (unfold t1; lra).
  assert (E : time (advance k timestamp)
              = if JS.geb t1 10 then rem t1 10 else t1).
  { unfold advance, yearPerSecond. cbn [time].
    replace (time k + (timestamp - lastTimestamp k) / 1000 * 1.0) with t1
      by (unfold t1; lra).
    reflexivity. }
  rewrite E. unfold JS.geb, JS.leb.
  destruct (Rle_dec 10 t1) as [G | L].
  - split; [apply rem_10_range, G | ].
    destruct (rem_10_whole t1 G) as (n & Hn & En).
    exists n. split; [lia | exact En].
  - split; [lra | ]. exists 0%Z. split; [lia | lra].
Qed.

Lemma updateSimulation_absent (props : Props) (progress : R) (w : World) :
  simulation w = None -> updateSimulation props progress w = Some w.
Proof. intros H. unfold updateSimulation. rewrite H. reflexivity. Qed.

(** With an engine and no [onMetricsChange], [updateSimulation] makes one
    call of [update], sets the metrics and the year, and ends in the call
    of [onYearChange]. *)
Lemma updateSimulation_present (props : Props) (progress : R) (w : World)
      (c : BambooClump) :
  simulation w = Some c ->
  onMetricsChange props = None ->
  updateSimulation props progress w
  = call (onYearChange props)
         (IZR (JS.Math_floor (2025 + progress * 10)))
         (setCurrentYear (2025 + progress * 10)
            (setMetrics (fst (engineUpdate progress c w))
                        (snd (engineUpdate progress c w)))).
Proof.
  intros H M. unfold updateSimulation. rewrite H, M. reflexivity.
Qed.

Lemma shown_year_range (t : R) :
  0 <= t < 10 ->
  2025 <= 2025 + t / 10 * 10 <= 2035 /\
  (2025 <= JS.Math_floor (2025 + t / 10 * 10) <= 2035)%Z.
Proof.
  intros H. split; [lra | ].
  unfold JS.Math_floor.
  pose proof (Zfloor_bound (2025 + t / 10 * 10)) as [F1 F2].
  split.
  - apply Zfloor_lub. lra.
  - assert (L : IZR (Zfloor (2025 + t / 10 * 10)) < IZR 2036) by lra.
    apply lt_IZR in L. lia.
Qed.

(** X16.  The animation clock wraps: from a clock that is not negative,
    and a frame that is not earlier than the last one, [animate] leaves
    the clock in [[0, 10)], moved on by the elapsed seconds less a whole
    number of ten-year cycles.  Without an engine the frame only sets
    [currentTimeValue] and calls nothing.  With an engine (and no
    [onMetricsChange], as the page uses the component) the frame makes one
    call of [update], shows a year between 2025 and 2035, and ends in the
    call of [onYearChange] with a whole year between 2025 and 2035; it
    returns if that call does. *)
Theorem animate_clock_wraps (props : Props) (k : Clock) (timestamp : R)
        (w : World) :
  0 <= time k ->
  lastTimestamp k <= timestamp ->
  0 <= time (advance k timestamp) < 10 /\
  lastTimestamp (advance k timestamp) = timestamp /\
  (exists n : Z,
     (0 <= n)%Z /\
     time (advance k timestamp)
     = time k + (timestamp - lastTimestamp k) / 1000 - 10 * IZR n) /\
  (simulation w = None ->
   animate props k timestamp w
   = Some (advance k timestamp,
           setCurrentTimeValue (time (advance k timestamp)) w)) /\
  (forall c : BambooClump,
     simulation w = Some c ->
     onMetricsChange props = None ->
     exists (y : Z) (w' : World),
       (2025 <= y <= 2035)%Z /\
       2025 <= currentYear w' <= 2035 /\
       metrics w'
       = fst (fst (update (time (advance k timestamp) / 10) c (source w))) /\
       simulation w'
       = Some (snd (fst (update (time (advance k timestamp) / 10) c
                           (source w)))) /\
       animate props k timestamp w
       = match call (onYearChange props) (IZR y) w' with
         | None => None
         | Some w'' => Some (advance k timestamp, w'')
         end).
Proof.
  intros H0 Ht.
  destruct (advance_clock k timestamp H0 Ht) as [B W].
  refine (conj B (conj eq_refl (conj W (conj _ _)))).
  - intros N. unfold animate.
    rewrite updateSimulation_absent by exact N. reflexivity.
  - intros c S M.
    destruct (shown_year_range _ B) as [Y1 Y2].
    exists (JS.Math_floor (2025 + time (advance k timestamp) / 10 * 10)).
    eexists. split; [exact Y2 | ].
    split; [ | split; [ | split] ]; cycle 3.
    + unfold animate.
      rewrite (updateSimulation_present props _ _ c) by assumption.
      reflexivity.
    + cbn [currentYear setCurrentYear]. exact Y1.
    + reflexivity.
    + reflexivity.
Qed.

Lemma animate_clock_wraps_witness :
  0 <= time (advance {| time := 9.5; lastTimestamp := 0 |} 1500) < 10 /\
  (exists n : Z,
     (0 <= n)%Z /\
     time (advance {| time := 9.5; lastTimestamp := 0 |} 1500)
     = 9.5 + (1500 - 0) / 1000 - 10 * IZR n) /\
  exists (y : Z) (w' : World),
    (2025 <= y <= 2035)%Z /\
    animate plain {| time := 9.5; lastTimestamp := 0 |} 1500 sampleWorld
    = Some (advance {| time := 9.5; lastTimestamp := 0 |} 1500, w').
Proof.
  destruct (animate_clock_wraps plain {| time := 9.5; lastTimestamp := 0 |}
              1500 sampleWorld)
    as (B & _ & W & _ & A); [cbn [time]; lra | cbn [lastTimestamp]; lra | ].
  split; [exact B | ]. split; [exact W | ].
  destruct (A sampleClump eq_refl eq_refl) as (y & w' & Y & _ & _ & _ & E).
  exists y, w'. split; [exact Y | exact E].
Defined.

(** X17.  [setYear] reports the year it is given.  Without an engine it
    only sets [currentTimeValue] and calls nothing.  With an engine (and no
    [onMetricsChange]) it makes one call of [update] at [(y - 2025) / 10],
    sets the metrics that call returns, shows the year [y] and ends in the
    call of [onYearChange] with the whole year [y] it was given, also
    outside 2025..2035, where the engine itself clamps its progress; it
    returns if that call does.  The timeline slider at [v] shows the year
    [2025 + v] and calls [onYearChange] with its floor. *)
Theorem setYear_reports_year (props : Props) (y : Z) (v : R) (w : World) :
  (simulation w = None ->
   setYear props (IZR y) w = Some (setCurrentTimeValue (IZR y - 2025) w) /\
   handleTimelineChange props v w = Some (setCurrentTimeValue v w)) /\
  (forall c : BambooClump,
     simulation w = Some c ->
     onMetricsChange props = None ->
     setYear props (IZR y) w
     = call (onYearChange props) (IZR y)
         (setCurrentYear (IZR y)
            (setMetrics
               (fst (fst (update ((IZR y - 2025) / 10) c (source w))))
               (snd (engineUpdate ((IZR y - 2025) / 10) c
                       (setCurrentTimeValue (IZR y - 2025) w))))) /\
     handleTimelineChange props v w
     = call (onYearChange props) (IZR (JS.Math_floor (2025 + v)))
         (setCurrentYear (2025 + v)
            (setMetrics
               (fst (fst (update (v / 10) c (source w))))
               (snd (engineUpdate (v / 10) c (setCurrentTimeValue v w)))))).
Proof.
  split.
  - intros N. unfold setYear, handleTimelineChange.
    rewrite !updateSimulation_absent by exact N. split; reflexivity.
  - intros c S M. unfold setYear, handleTimelineChange.
    rewrite !(updateSimulation_present props _ _ c) by assumption.
    replace (2025 + (IZR y - 2025) / 10 * 10) with (IZR y) by field.
    replace (2025 + v / 10 * 10) with (2025 + v) by field.
    unfold JS.Math_floor at 1. rewrite ZfloorZ.
    split; reflexivity.
Qed.

Lemma clamp01_idempotent (p : R) :
  Growth.clamp01 (Growth.clamp01 p) = Growth.clamp01 p.
Proof.
  pose proof (clamp01_range p) as H.
  unfold Growth.clamp01 at 1. unfold JS.Math_max, JS.Math_min.
  rewrite Rmin_right by lra. apply Rmax_right. lra.
Qed.

Lemma update_of_clamped (p : R) (c : BambooClump) :
  update p c = update (Growth.clamp01 p) c.
Proof.
  unfold update. cbv zeta.
  change (JS.Math_max 0 (JS.Math_min 1 (Growth.clamp01 p)))
    with (Growth.clamp01 (Growth.clamp01 p)).
  rewrite clamp01_idempotent. reflexivity.
Qed.

(** What [updateSimulation] leaves of the engine when no callback is
    given. *)
Lemma updateSimulation_plain (progress : R) (w : World) (c : BambooClump) :
  simulation w = Some c ->
  exists w' : World,
    updateSimulation plain progress w = Some w' /\
    metrics w' = fst (fst (update progress c (source w))) /\
    simulation w' = Some (snd (fst (update progress c (source w)))) /\
    source w' = snd (update progress c (source w)).
Proof.
  intros S.
  rewrite (updateSimulation_present plain progress w c S eq_refl).
  eexists. split; [reflexivity | ]. repeat split.
Qed.

(** X18.  The engine sees the progress only through its clamp to
    [[0, 1]]: two calls of [update] whose progress clamps to the same value
    return the same metrics, leave the same clump and take the same draws.
    So every year from 2035 on set through [setYear] shows the simulation
    of 2035, and every year up to 2025 that of 2025. *)
Theorem update_clamps_progress (p q : R) (c : BambooClump) (g : Rng.t) :
  Growth.clamp01 p = Growth.clamp01 q ->
  update p c g = update q c g /\
  (forall w : World, engineUpdate p c w = engineUpdate q c w) /\
  (forall w wp wq : World,
     simulation w = Some c ->
     updateSimulation plain p w = Some wp ->
     updateSimulation plain q w = Some wq ->
     metrics wp = metrics wq /\
     simulation wp = simulation wq /\
     source wp = source wq) /\
  (forall w : World,
     simulation w = Some c ->
     exists wp wq : World,
       updateSimulation plain p w = Some wp /\
       updateSimulation plain q w = Some wq).
Proof.
  intros H.
  assert (U : forall g', update p c g' = update q c g').
  { intros g'.
    rewrite (update_of_clamped p), (update_of_clamped q), H. reflexivity. }
  split; [apply U | ].
  split; [intros w; unfold engineUpdate; rewrite U; reflexivity | ].
  split.
  - intros w wp wq S Ep Eq.
    destruct (updateSimulation_plain p w c S) as (w1 & E1 & M1 & C1 & G1).
    destruct (updateSimulation_plain q w c S) as (w2 & E2 & M2 & C2 & G2).
    assert (wp = w1) by congruence. assert (wq = w2) by congruence.
    subst wp wq. rewrite M1, M2, C1, C2, G1, G2, U. repeat split.
  - intros w S.
    destruct (updateSimulation_plain p w c S) as (w1 & E1 & _).
    destruct (updateSimulation_plain q w c S) as (w2 & E2 & _).
    exists w1, w2. split; assumption.
Qed.

Lemma update_clamps_progress_witness :
  update ((2040 - 2025) / 10) sampleClump (const 0)
  = update ((2035 - 2025) / 10) sampleClump (const 0).
Proof.
  apply (update_clamps_progress ((2040 - 2025) / 10) ((2035 - 2025) / 10)
           sampleClump (const 0)).
  unfold Growth.clamp01, JS.Math_max, JS.Math_min.
  rewrite (Rmin_left 1 ((2040 - 2025) / 10)) by lra.
  rewrite (Rmin_left 1 ((2035 - 2025) / 10)) by lra.
  reflexivity.
Defined.

Lemma setPageYear_simulation (y : R) (w : World) :
  simulation (setPageYear y w) = simulation w.
Proof. reflexivity. Qed.

(** With an engine, a call of [handleYearChange] with a whole year on an
    attached page reaches every depth of nesting. *)
Lemma handleYearChange_nests (fuel : nat) (y : Z) :
  forall (w : World) (c : BambooClump),
    simulation w = Some c ->
    handleYearChange fuel true (IZR y) w = None.
Proof.
  induction fuel as [ | n IH]; intros w c S; [reflexivity | ].
  cbn [handleYearChange]. unfold setYear.
  rewrite (updateSimulation_present _ _ _ c); [ | exact S | reflexivity].
  cbn [call onYearChange].
  replace (2025 + (IZR y - 2025) / 10 * 10) with (IZR y) by field.
  unfold JS.Math_floor. rewrite ZfloorZ.
  eapply IH. reflexivity.
Qed.

(** X19.  The page [FarmerPlotView] hands its [handleYearChange] to the
    component as [onYearChange], and [handleYearChange] calls [setYear] of
    the component.  With an engine, every call of [updateSimulation] under
    this wiring, and so every [setYear], every frame of the animation and
    every call of [handleYearChange] with a whole year on an attached
    page, nests without bound: whatever depth is allowed, the call does not
    return within it.  Without an engine [handleYearChange] returns after
    setting the year of the page and [currentTimeValue]; on a page whose
    ref is not attached it only sets the year of the page. *)
Theorem year_change_never_returns (fuel : nat) (y : Z) (progress : R)
        (k : Clock) (timestamp : R) (w : World) :
  (forall c : BambooClump,
     simulation w = Some c ->
     handleYearChange fuel true (IZR y) w = None /\
     updateSimulation (pageProps fuel) progress w = None /\
     setYear (pageProps fuel) (IZR y) w = None /\
     animate (pageProps fuel) k timestamp w = None) /\
  (simulation w = None ->
   handleYearChange (S fuel) true (IZR y) w
   = Some (setCurrentTimeValue (IZR y - 2025) (setPageYear (IZR y) w))) /\
  handleYearChange (S fuel) false (IZR y) w = Some (setPageYear (IZR y) w).
Proof.
  assert (U : forall (p : R) (w0 : World) (c : BambooClump),
             simulation w0 = Some c ->
             updateSimulation (pageProps fuel) p w0 = None).
  { intros p w0 c S.
    rewrite (updateSimulation_present _ _ _ c); [ | exact S | reflexivity].
    cbn [call onYearChange pageProps].
    eapply handleYearChange_nests. reflexivity. }
  split; [ | split].
  - intros c S.
    split; [apply (handleYearChange_nests fuel y w c S) | ].
    split; [apply (U progress w c S) | ].
    split.
    + unfold setYear. apply (U _ _ c). exact S.
    + unfold animate. rewrite (U _ _ c) by exact S. reflexivity.
  - intros N. cbn [handleYearChange]. unfold setYear.
    rewrite updateSimulation_absent by exact N. reflexivity.
  - reflexivity.
Qed.

End AnimationLoop.
